(** * ProjectService of the extension scaffolding CLI

    A shallow embedding of [cli/src/service/project.service.ts]: the
    JSON objects the service rewrites, the name pattern, and the
    effectful operations ([generate], [install], the two validators)
    as programs of a small state-and-exception monad over an abstract
    platform (file system, module loader, child processes). *)

From Stdlib Require Import String Ascii List ZArith Bool Lia.
From stdpp Require Import base strings list gmap pretty.

Local Open Scope string_scope.
Local Open Scope list_scope.
Local Set Warnings "-register-all".

(** ** JSON documents and JavaScript objects *)

(** A parsed JSON document, as [require] of a [.json] file returns it.
    Numbers are kept as integers: the service copies numbers verbatim
    and never computes with them. *)
Inductive json : Type :=
  | JNull
  | JBool (b : bool)
  | JNumber (n : Z)
  | JString (s : string)
  | JArray (items : list json)
  | JObject (members : list (string * json)).

(** A property value of an object literal built by the service: either
    [undefined] or a JSON value. *)
Inductive jsvalue : Type :=
  | Undefined
  | Json (v : json).

(** A plain JavaScript object: its own enumerable properties in
    enumeration order.  Keys are unique in a real object. *)
Definition jsobject : Type := list (string * jsvalue).

(** What is thrown and what [log.error] receives. *)
Record JsError : Type := mkError { err_name : string; err_message : string }.

Definition TypeError (message : string) : JsError := mkError "TypeError" message.

Module Obj.

(** Own-property lookup by key, first entry first. *)
Fixpoint lookup {V : Type} (k : string) (o : list (string * V)) : option V :=
  match o with
  | [] => None
  | (k', v) :: rest => if String.eqb k k' then Some v else lookup k rest
  end.

Definition keys {V : Type} (o : list (string * V)) : list string := map fst o.

(** [o[k] = v] on a plain object (CreateDataProperty): an existing
    property keeps its place and takes the new value, a new one is
    added after the others.  (An integer-like key would be placed
    among the indices; the service writes no such key.) *)
Fixpoint define (k : string) (v : jsvalue) (o : jsobject) : jsobject :=
  match o with
  | [] => [(k, v)]
  | (k', v') :: rest =>
      if String.eqb k k' then (k, v) :: rest else (k', v') :: define k v rest
  end.

(** Object spread [{ ...target, ...source }]: the properties of
    [source] are defined on the target one after the other. *)
Definition assign (target source : jsobject) : jsobject :=
  fold_left (fun acc kv => define (fst kv) (snd kv) acc) source target.

Fixpoint indexed (i : nat) (items : list json) : jsobject :=
  match items with
  | [] => []
  | v :: rest => (pretty i, Json v) :: indexed (S i) rest
  end.

Fixpoint characters (s : string) : list json :=
  match s with
  | EmptyString => []
  | String c rest => JString (String c EmptyString) :: characters rest
  end.

(** The own enumerable properties a spread copies out of a JSON
    value: the members of an object, the elements of an array and
    the characters of a string (its bytes here) under their indices,
    nothing for [null], booleans and numbers. *)
Definition own_enumerable (v : json) : jsobject :=
  match v with
  | JObject members => map (fun kv => (fst kv, Json (snd kv))) members
  | JArray items => indexed 0 items
  | JString s => indexed 0 (characters s)
  | JNull | JBool _ | JNumber _ => []
  end.

(** Property read [v.k] for a key that no prototype defines (the
    service reads [browser_action], [options_page] and
    [chrome_url_overrides] only): reading from [null] throws, a
    missing property reads as [undefined]. *)
Definition get (v : json) (k : string) : JsError + jsvalue :=
  match v with
  | JNull => inl (TypeError ("Cannot read property '" +:+ k +:+ "' of null"))
  | JObject members =>
      inr (match lookup k members with Some x => Json x | None => Undefined end)
  | _ => inr Undefined
  end.

(** What [JSON.stringify] keeps of an object: a property whose
    value is [undefined] is left out of the text altogether. *)
Fixpoint serializable (o : jsobject) : list (string * json) :=
  match o with
  | [] => []
  | (_, Undefined) :: rest => serializable rest
  | (k, Json v) :: rest => (k, v) :: serializable rest
  end.

Definition document (o : jsobject) : json := JObject (serializable o).

End Obj.

(** Member of a JSON document by key; [None] when the document is not an
    object or has no such key. *)
Definition member (k : string) (doc : json) : option json :=
  match doc with
  | JObject members => Obj.lookup k members
  | _ => None
  end.

Definition has_key (k : string) (doc : json) : Prop :=
  match doc with
  | JObject members => In k (Obj.keys members)
  | _ => False
  end.

(** ** Features and package metadata *)

(** Modelled from the spec: the enumeration [Feature] of
    [model/feature], whose declaration is not among the sources; the
    spec lists its variants POPUP, OPTIONS and TAB. *)
Inductive Feature : Type := POPUP | OPTIONS | TAB.

Definition Feature_eqb (a b : Feature) : bool :=
  match a, b with
  | POPUP, POPUP | OPTIONS, OPTIONS | TAB, TAB => true
  | _, _ => false
  end.

(** [features.includes(f)] *)
Definition includes (f : Feature) (features : list Feature) : bool :=
  existsb (Feature_eqb f) features.

(** Modelled from the spec: the interface [Package] of [model/package],
    whose declaration is not among the sources; the spec gives it as
    [{ name: string, repository: { url: string } }]. *)
Record Repository : Type := { url : string }.
Record Package : Type := { name : string; repository : Repository }.

(** The feature-gated keys of the extension manifest with the feature
    that keeps each. *)
Definition gated : list (string * Feature) :=
  [("browser_action", POPUP); ("options_page", OPTIONS); ("chrome_url_overrides", TAB)].

(** The keys [writeManifestJson] writes. *)
Definition manifest_keys : list string :=
  ["name"; "short_name"; "description";
   "browser_action"; "options_page"; "chrome_url_overrides"].

(** ** The project-name pattern *)

Module Regex.

Inductive class_item : Type :=
  | Single (c : ascii)
  | Range (lo hi : ascii).

Definition in_item (c : ascii) (it : class_item) : bool :=
  match it with
  | Single d => Ascii.eqb c d
  | Range lo hi =>
      Nat.leb (nat_of_ascii lo) (nat_of_ascii c)
      && Nat.leb (nat_of_ascii c) (nat_of_ascii hi)
  end.

Definition in_class (items : list class_item) (c : ascii) : bool :=
  existsb (in_item c) items.

Inductive regex : Type :=
  | Void
  | Eps
  | Class (items : list class_item)
  | Seq (r1 r2 : regex)
  | Alt (r1 r2 : regex)
  | Star (r : regex).

(** [r+] *)
Definition Plus (r : regex) : regex := Seq r (Star r).

Fixpoint nullable (r : regex) : bool :=
  match r with
  | Void => false
  | Eps => true
  | Class _ => false
  | Seq r1 r2 => nullable r1 && nullable r2
  | Alt r1 r2 => nullable r1 || nullable r2
  | Star _ => true
  end.

Fixpoint derive (c : ascii) (r : regex) : regex :=
  match r with
  | Void | Eps => Void
  | Class items => if in_class items c then Eps else Void
  | Seq r1 r2 =>
      if nullable r1
      then Alt (Seq (derive c r1) r2) (derive c r2)
      else Seq (derive c r1) r2
  | Alt r1 r2 => Alt (derive c r1) (derive c r2)
  | Star r1 => Seq (derive c r1) (Star r1)
  end.

Fixpoint matches (r : regex) (w : list ascii) : bool :=
  match w with
  | [] => nullable r
  | c :: w' => matches (derive c r) w'
  end.

(** [/^r$/.test(s)]: with both anchors and no flag the whole input
    has to match. *)
Definition test (r : regex) (s : string) : bool :=
  matches r (list_ascii_of_string s).

(** The words of a regular expression. *)
Inductive Matches : regex -> list ascii -> Prop :=
  | MEps : Matches Eps []
  | MClass items c : in_class items c = true -> Matches (Class items) [c]
  | MSeq r1 r2 w1 w2 :
      Matches r1 w1 -> Matches r2 w2 -> Matches (Seq r1 r2) (w1 ++ w2)
  | MAltL r1 r2 w : Matches r1 w -> Matches (Alt r1 r2) w
  | MAltR r1 r2 w : Matches r2 w -> Matches (Alt r1 r2) w
  | MStarNil r : Matches (Star r) []
  | MStarCons r c w1 w2 :
      Matches r (c :: w1) -> Matches (Star r) w2 ->
      Matches (Star r) (c :: w1 ++ w2).

End Regex.

(** [new RegExp(/^[a-z0-9-_]+$/)]: the class holds the ranges a-z and
    0-9 and the two characters [-] and [_]. *)
Definition projectNameClass : list Regex.class_item :=
  [Regex.Range "a" "z"; Regex.Range "0" "9"; Regex.Single "-"; Regex.Single "_"]%char.

Definition projectNameMatch : Regex.regex := Regex.Plus (Regex.Class projectNameClass).

(** [projectNameMatch.toString()] *)
Definition projectNameMatch_toString : string := "/^[a-z0-9-_]+$/".

Definition invalidProjectName (name : string) : bool :=
  negb (Regex.test projectNameMatch name).

(** The data model's wording of a valid name: not empty, and made of
    lowercase letters, digits, hyphens and underscores only. *)
Definition allowed_char (c : ascii) : Prop :=
  let n := nat_of_ascii c in
  (97 <= n /\ n <= 122) \/ (48 <= n /\ n <= 57) \/ n = 45 \/ n = 95.

Definition ValidProjectName (name : string) : Prop :=
  name <> "" /\ Forall allowed_char (list_ascii_of_string name).

(** ** The platform

    The collaborators of the service: the Node process, the module
    loader, fs-extra, nodegit and child_process.  An asynchronous
    operation is issued when it is called and takes effect on the world
    when it completes. *)

Inductive IoOp : Type :=
  | Clone (remote dir : string)
  | Remove (path : string)
  | Unlink (path : string)
  | WriteJson (path : string) (doc : json) (spaces : nat)
  | Exec (command : string).

Class Platform : Type := {
  world : Type;
  (** [process.cwd()] *)
  process_cwd : world -> string;
  (** [process.chdir(dir)], synchronous, throws when it cannot *)
  process_chdir : string -> world -> JsError + world;
  (** what [fs.pathExists(path)] resolves to; it never rejects *)
  fs_pathExists : string -> world -> bool;
  (** [require(path)] of a JSON file, synchronous *)
  module_require : string -> world -> JsError + json;
  (** completion of an asynchronous operation: the rejection reason, if
      it fails, and the world it leaves *)
  io_complete : IoOp -> world -> option JsError * world
}.

(** What the Node runtime does with a promise that rejects while
    nothing waits for it, its [--unhandled-rejections] mode: [Warn], the
    default up to Node 14, prints a warning and the run goes on;
    [Throw], the default from Node 15, raises an uncaught exception,
    which ends the process with status 1. *)
Inductive RejectionMode : Type := Warn | Throw.

Class Runtime : Type := { unhandled_rejections : RejectionMode }.

(** The runtime the service was written for, and the one of today.
    Where nothing else is said a run is one of the first. *)
#[export] Instance lenient : Runtime := {| unhandled_rejections := Warn |}.
Definition strict : Runtime := {| unhandled_rejections := Throw |}.

(** Modelled from the spec: the injected [LogService] and
    [SpinnerService], whose declarations are not among the sources; the
    spec gives them as a logger and a progress reporter.  Their calls
    are recorded as events, next to what the run does with the
    platform, in the order it happens. *)
Inductive LogArg : Type :=
  | Message (text : string)
  | Thrown (e : JsError).

Inductive Event : Type :=
  | LogError (a : LogArg)
  | SpinnerStart (text : string)
  | SpinnerStop (text : option string)
  | Required (path : string)
  | Issued (id : nat) (op : IoOp)
  | Settled (id : nat) (op : IoOp) (result : option JsError).

(** How a call ends: it returns, it throws (an async function
    rejects), or the process is gone, through [process.exit] or
    through an uncaught exception. *)
Inductive outcome (A : Type) : Type :=
  | Returned (a : A)
  | Threw (e : JsError)
  | Exited (code : Z).

Arguments Returned {A} a.
Arguments Threw {A} e.
Arguments Exited {A} code.

(** The values [cleanDir] passes around: promises of issued operations
    and arrays. *)
Inductive value : Type :=
  | VUndefined
  | VPromise (id : nat)
  | VArray (items : list value).

Record JsonFormat : Type := { spaces : nat }.

Definition deleteFiles : list string := ["README.md"].
Definition deleteDirs : list string := [".git"; "cli"].
Definition jsonFormat : JsonFormat := {| spaces := 2 |}.

Section Runtime.

Context {P : Platform} {R : Runtime}.

(** The state of a run.  [pending] holds the operations issued and
    not yet completed, [settled] the promises settled so far, oldest
    first.  [schedule] is the event loop's choice: each time the run
    is suspended on unfinished I/O, the next entry lists the pending
    operations that complete, in that order, before the awaited
    ones are forced. *)
Record State : Type := mkState {
  env : world;
  trace : list Event;
  pending : list (nat * IoOp);
  settled : list (nat * option JsError);
  next_id : nat;
  schedule : list (list nat)
}.

Definition M (A : Type) : Type := State -> outcome A * State.

Definition ret {A : Type} (a : A) : M A := fun s => (Returned a, s).

Definition bind {A B : Type} (m : M A) (k : A -> M B) : M B :=
  fun s =>
    match m s with
    | (Returned a, s') => k a s'
    | (Threw e, s') => (Threw e, s')
    | (Exited code, s') => (Exited code, s')
    end.

Definition throw {A : Type} (e : JsError) : M A := fun s => (Threw e, s).

(** [process.exit(code)]: nothing after it runs. *)
Definition process_exit {A : Type} (code : Z) : M A := fun s => (Exited code, s).

(** [try { body } catch (e) { handler(e) }] *)
Definition try_catch {A : Type} (body : M A) (handler : JsError -> M A) : M A :=
  fun s =>
    match body s with
    | (Threw e, s') => handler e s'
    | other => other
    end.

Definition lift {A : Type} (r : JsError + A) : M A :=
  match r with
  | inl e => throw e
  | inr a => ret a
  end.

Definition emit (ev : Event) (s : State) : State :=
  mkState (env s) (trace s ++ [ev]) (pending s) (settled s) (next_id s) (schedule s).

Definition set_env (w : world) (s : State) : State :=
  mkState w (trace s) (pending s) (settled s) (next_id s) (schedule s).

Definition tell (ev : Event) : M unit := fun s => (Returned tt, emit ev s).

Fixpoint find_op (i : nat) (ops : list (nat * IoOp)) : option IoOp :=
  match ops with
  | [] => None
  | (j, op) :: rest => if Nat.eqb i j then Some op else find_op i rest
  end.

Fixpoint drop_op (i : nat) (ops : list (nat * IoOp)) : list (nat * IoOp) :=
  match ops with
  | [] => []
  | (j, op) :: rest => if Nat.eqb i j then rest else (j, op) :: drop_op i rest
  end.

(** Calling an asynchronous operation: it is started and a promise
    for it is handed back at once. *)
Definition issue (op : IoOp) : M value :=
  fun s =>
    (Returned (VPromise (next_id s)),
     mkState (env s) (trace s ++ [Issued (next_id s) op])
             (pending s ++ [(next_id s, op)]) (settled s)
             (S (next_id s)) (schedule s)).

(** Completion of the pending operation [i]: its effect reaches the
    world and its promise settles.  Nothing happens when [i] is not
    pending. *)
Definition settle (i : nat) (s : State) : State :=
  match find_op i (pending s) with
  | None => s
  | Some op =>
      let (result, w) := io_complete op (env s) in
      mkState w (trace s ++ [Settled i op result])
              (drop_op i (pending s)) (settled s ++ [(i, result)])
              (next_id s) (schedule s)
  end.

Definition is_settled (i : nat) (s : State) : bool :=
  existsb (fun r => Nat.eqb i (fst r)) (settled s).

(** The reason of the first of the promises [ids] to have rejected. *)
Fixpoint first_rejection (ids : list nat) (done : list (nat * option JsError))
  : option JsError :=
  match done with
  | [] => None
  | (i, Some e) :: rest =>
      if existsb (Nat.eqb i) ids then Some e else first_rejection ids rest
  | (_, None) :: rest => first_rejection ids rest
  end.

(** The awaited operations complete, in the order given. *)
Fixpoint force (ids : list nat) (s : State) : outcome unit * State :=
  match ids with
  | [] => (Returned tt, s)
  | i :: rest =>
      let s' := settle i s in
      match first_rejection [i] (settled s') with
      | Some e => (Threw e, s')
      | None => force rest s'
      end
  end.

(** What the pending operation [i] reports when it completes now. *)
Definition rejection_of (i : nat) (s : State) : option JsError :=
  match find_op i (pending s) with
  | None => None
  | Some op => fst (io_complete op (env s))
  end.

(** The completion of [i] is an unhandled rejection that ends the
    process: the operation fails, its promise is none of the promises
    [ids] that are waited for, and the runtime throws on unhandled
    rejections.  A promise counts as handled while it is waited for.
    (In Node a promise stays handled once it was waited for; the two
    differ only after a [Promise.all] of several promises has ended at
    the first rejection, and the service waits for one promise at a
    time.) *)
Definition unhandled (ids : list nat) (i : nat) (s : State) : bool :=
  match unhandled_rejections with
  | Warn => false
  | Throw =>
      negb (existsb (Nat.eqb i) ids)
      && match rejection_of i s with Some _ => true | None => false end
  end.

(** Waiting for the promises [ids] while the event loop completes the
    operations of [turn]: the wait ends with the first rejection among
    [ids], or when all of them are fulfilled, unless an unhandled
    rejection ends the process before that. *)
Fixpoint drive (ids : list nat) (turn : list nat) (s : State) : outcome unit * State :=
  match first_rejection ids (settled s) with
  | Some e => (Threw e, s)
  | None =>
      if forallb (fun i => is_settled i s) ids then (Returned tt, s)
      else
        match turn with
        | i :: turn' =>
            if unhandled ids i s then (Exited 1, settle i s)
            else drive ids turn' (settle i s)
        | [] => force ids s
        end
  end.

(** The event loop completes the operations of [turn] while the run
    waits for something that is none of them. *)
Fixpoint idle (turn : list nat) (s : State) : outcome unit * State :=
  match turn with
  | [] => (Returned tt, s)
  | i :: turn' =>
      if unhandled [] i s then (Exited 1, settle i s) else idle turn' (settle i s)
  end.

Definition next_turn (s : State) : list nat * State :=
  match schedule s with
  | [] => ([], s)
  | turn :: later =>
      (turn, mkState (env s) (trace s) (pending s) (settled s) (next_id s) later)
  end.

(** Suspension until the promises [ids] are all fulfilled or one of
    them has rejected.  When that is already so, the run resumes after
    microtasks only, and no I/O completes in between. *)
Definition wait_all (ids : list nat) : M unit :=
  fun s =>
    match first_rejection ids (settled s) with
    | Some e => (Threw e, s)
    | None =>
        if forallb (fun i => is_settled i s) ids then (Returned tt, s)
        else let (turn, s') := next_turn s in drive ids turn s'
    end.

(** [await v]: a value that is not a promise is handed back as it
    is. *)
Definition await (v : value) : M unit :=
  match v with
  | VPromise i => wait_all [i]
  | _ => ret tt
  end.

Definition promise_ids (items : list value) : list nat :=
  flat_map (fun v => match v with VPromise i => [i] | _ => [] end) items.

(** [await Promise.all(items)]: only the items that are promises are
    waited for; any other item, an array of promises included, is
    taken as an already available value. *)
Definition Promise_all (items : list value) : M (list value) :=
  fun s =>
    match wait_all (promise_ids items) s with
    | (Returned _, s') =>
        (Returned (map (fun v => match v with VPromise _ => VUndefined | _ => v end) items), s')
    | (Threw e, s') => (Threw e, s')
    | (Exited code, s') => (Exited code, s')
    end.

(** [s'] continues the trace of [s]. *)
Definition extends (s s' : State) : Prop := exists r, trace s' = trace s ++ r.

(** A program only ever adds events. *)
Definition monotone {A : Type} (m : M A) : Prop := forall s, extends s (snd (m s)).

(** The promise [i] stands for an operation that has been started. *)
Definition issued (i : nat) (s : State) : Prop :=
  is_settled i s = true \/ find_op i (pending s) <> None.

(** A program never ends the process. *)
Definition never_exits {A : Type} (m : M A) : Prop :=
  forall s code, fst (m s) <> Exited code.

End Runtime.

Declare Scope js_scope.
Delimit Scope js_scope with js.
Notation "'let!' x ':=' m 'in' k" := (bind m (fun x => k))
  (at level 10, x name, m at level 100, k at level 200) : js_scope.
Notation "m '>>' k" := (bind m (fun _ => k))
  (at level 90, right associativity) : js_scope.

(** ** The service *)

Section ProjectService.

Context {P : Platform} {R : Runtime}.

(** The injected [Package]: the tool's own package metadata. *)
Variable pkg : Package.

Local Open Scope js_scope.

(** [log.error(...)], [spinner.start(...)], [spinner.stop(...)] *)
Definition log_error (a : LogArg) : M unit := tell (LogError a).
Definition spinner_start (text : string) : M unit := tell (SpinnerStart text).
Definition spinner_stop (text : option string) : M unit := tell (SpinnerStop text).

Definition getProjectDir (name : string) : M string :=
  fun s => (Returned (process_cwd (env s) +:+ "/" +:+ name), s).

Definition chdir (dir : string) : M unit :=
  fun s =>
    match process_chdir dir (env s) with
    | inl e => (Threw e, s)
    | inr w => (Returned tt, set_env w s)
    end.

Definition require (path : string) : M json :=
  fun s =>
    match module_require path (env s) with
    | inl e => (Threw e, emit (Required path) s)
    | inr doc => (Returned doc, emit (Required path) s)
    end.

Definition git_clone (remote dir : string) : M value := issue (Clone remote dir).
Definition fs_remove (path : string) : M value := issue (Remove path).
Definition fs_unlink (path : string) : M value := issue (Unlink path).

(** [fs.writeJson(path, obj, format)]: the object is serialized
    with [JSON.stringify] when the call is made. *)
Definition fs_writeJson (path : string) (obj : jsobject) (format : JsonFormat) : M value :=
  issue (WriteJson path (Obj.document obj) (spaces format)).

(** [fs.pathExists(path)], awaited: other I/O may complete while the
    run is suspended. *)
Definition fs_pathExists_await (path : string) : M bool :=
  fun s => let (turn, s1) := next_turn s in
           match idle turn s1 with
           | (Returned _, s2) => (Returned (fs_pathExists path (env s2)), s2)
           | (Threw e, s2) => (Threw e, s2)
           | (Exited code, s2) => (Exited code, s2)
           end.

(** [array.map(f)] with a callback that starts an operation *)
Fixpoint map_calls (f : string -> M value) (items : list string) : M (list value) :=
  match items with
  | [] => ret []
  | x :: rest =>
      let! v := f x in
      let! vs := map_calls f rest in
      ret (v :: vs)
  end.

Definition existsAsync (projectName : string) : M bool :=
  let! dir := getProjectDir projectName in
  fs_pathExists_await dir.

Definition execAsync (command : string) : M unit :=
  let! p := issue (Exec command) in
  await p.

Definition cleanDir (cloneDir : string) : M (list value) :=
  let! dirs := map_calls (fun dir => fs_remove (cloneDir +:+ "/" +:+ dir)) deleteDirs in
  let! files := map_calls (fun file => fs_unlink (cloneDir +:+ "/" +:+ file)) deleteFiles in
  Promise_all [VArray dirs; VArray files].

(** [features.includes(f) ? currentManifest.key : undefined] *)
Definition gate (f : Feature) (features : list Feature) (current : json) (key : string)
  : M jsvalue :=
  if includes f features then lift (Obj.get current key) else ret Undefined.

Definition writeManifestJson (cloneDir projectName : string) (features : list Feature)
  : M unit :=
  let manifestJson := cloneDir +:+ "/angular/src/manifest.json" in
  let! currentManifest := require manifestJson in
  let! browser_action := gate POPUP features currentManifest "browser_action" in
  let! options_page := gate OPTIONS features currentManifest "options_page" in
  let! chrome_url_overrides := gate TAB features currentManifest "chrome_url_overrides" in
  let manifest : jsobject :=
    [("name", Json (JString projectName));
     ("short_name", Json (JString projectName));
     ("description", Json (JString ("Generated with " +:+ name pkg)));
     ("browser_action", browser_action);
     ("options_page", options_page);
     ("chrome_url_overrides", chrome_url_overrides)] in
  let! p := fs_writeJson manifestJson
              (Obj.assign (Obj.assign [] (Obj.own_enumerable currentManifest)) manifest)
              jsonFormat in
  await p.

Definition writePackageJson (cloneDir projectName : string) : M unit :=
  let packageJson := cloneDir +:+ "/package.json" in
  let! current := require packageJson in
  let! p := fs_writeJson packageJson
              (Obj.assign (Obj.assign [] (Obj.own_enumerable current))
                 [("name", Json (JString projectName));
                  ("description", Json (JString ("Generated with " +:+ name pkg)));
                  ("author", Undefined)])
              jsonFormat in
  await p.

Definition generate (projectName : string) (features : list Feature) : M unit :=
  let! cloneDir := getProjectDir projectName in
  try_catch
    (spinner_start "creating extension..." >>
     (let! p := git_clone (url (repository pkg)) cloneDir in await p) >>
     (let! _ := cleanDir cloneDir in ret tt) >>
     writePackageJson cloneDir projectName >>
     writeManifestJson cloneDir projectName features >>
     spinner_stop (Some ("done! created extension in: " +:+ cloneDir)))
    (fun e => log_error (Thrown e) >> spinner_stop None).

Definition install (projectName : string) : M unit :=
  let! cloneDir := getProjectDir projectName in
  chdir cloneDir >>
  try_catch
    (spinner_start "installing dependencies..." >>
     execAsync "npm ci" >>
     spinner_stop (Some "done! installed dependencies"))
    (fun e => log_error (Thrown e) >> spinner_stop None).

Definition validateName (projectName : string) : M unit :=
  (if invalidProjectName projectName
   then log_error (Message ("Invalid project name, must match: "
                            +:+ projectNameMatch_toString)) >>
        process_exit 1
   else ret tt) >>
  let! projectExists := existsAsync projectName in
  if projectExists
  then log_error (Message ("Project '" +:+ projectName +:+ "' already exists")) >>
       process_exit 1
  else ret tt.

Definition validateFeatures (features : list Feature) : M unit :=
  if Nat.eqb (length features) 0
  then log_error (Message "You must select at least 1 feature") >> process_exit 1
  else ret tt.

(** The clean step as the spec words it: every removal is awaited
    jointly before the step is over.  Not what [cleanDir] does; kept
    to compare the two. *)
Definition cleanDir_barrier (cloneDir : string) : M (list value) :=
  let! dirs := map_calls (fun dir => fs_remove (cloneDir +:+ "/" +:+ dir)) deleteDirs in
  let! files := map_calls (fun file => fs_unlink (cloneDir +:+ "/" +:+ file)) deleteFiles in
  Promise_all (dirs ++ files).

(** The object [writeManifestJson] hands to [fs.writeJson] when the
    current manifest is the object [members]. *)
Definition merged_manifest (projectName : string) (features : list Feature)
  (members : list (string * json)) : jsobject :=
  let kept f key :=
    if includes f features
    then match Obj.lookup key members with Some x => Json x | None => Undefined end
    else Undefined in
  Obj.assign (Obj.assign [] (Obj.own_enumerable (JObject members)))
    [("name", Json (JString projectName));
     ("short_name", Json (JString projectName));
     ("description", Json (JString ("Generated with " +:+ name pkg)));
     ("browser_action", kept POPUP "browser_action");
     ("options_page", kept OPTIONS "options_page");
     ("chrome_url_overrides", kept TAB "chrome_url_overrides")].

(** The steps of [generate] that follow the clean step, and its
    [catch] block. *)
Definition rewrite_steps (cloneDir projectName : string) (features : list Feature) : M unit :=
  writePackageJson cloneDir projectName >>
  writeManifestJson cloneDir projectName features >>
  spinner_stop (Some ("done! created extension in: " +:+ cloneDir)).

Definition report (e : JsError) : M unit :=
  log_error (Thrown e) >> spinner_stop None.

(** The state right after the three removals of the clean step have
    been started. *)
Definition removals_started (cloneDir : string) (s : State) : State :=
  let n := next_id s in
  mkState (env s)
    (trace s ++ [Issued n (Remove (cloneDir +:+ "/.git"));
                 Issued (S n) (Remove (cloneDir +:+ "/cli"));
                 Issued (S (S n)) (Unlink (cloneDir +:+ "/README.md"))])
    (pending s ++ [(n, Remove (cloneDir +:+ "/.git"));
                   (S n, Remove (cloneDir +:+ "/cli"));
                   (S (S n), Unlink (cloneDir +:+ "/README.md"))])
    (settled s) (S (S (S n))) (schedule s).

End ProjectService.

(** ** Removals that always succeed

    To say that, where unhandled rejections only warn, what a removal
    reports has no bearing on a run, the run is compared with the one
    on a platform whose removals have the same effect and never
    reject. *)

Definition is_removal (op : IoOp) : bool :=
  match op with
  | Remove _ | Unlink _ => true
  | _ => false
  end.

Definition forgiving (P : Platform) : Platform := {|
  world := @world P;
  process_cwd := @process_cwd P;
  process_chdir := @process_chdir P;
  fs_pathExists := @fs_pathExists P;
  module_require := @module_require P;
  io_complete := fun op w =>
    if is_removal op then (None, snd (@io_complete P op w)) else @io_complete P op w
|}.

(** An event without what a removal reported. *)
Definition quiet (ev : Event) : Event :=
  match ev with
  | Settled i op result => if is_removal op then Settled i op None else ev
  | _ => ev
  end.

Section Forgiving.

Context {P : Platform}.

(** The same state on the forgiving platform. *)
Definition on_forgiving (s : @State P) : @State (forgiving P) :=
  @mkState (forgiving P) (env s) (trace s) (pending s) (settled s) (next_id s) (schedule s).

(** Promise identifiers in use are below the next one. *)
Definition well_formed (s : @State P) : Prop :=
  (forall i op, List.In (i, op) (pending s) -> i < next_id s)
  /\ (forall i result, List.In (i, result) (settled s) -> i < next_id s).

(** Two lists of settled promises that name the same promises in the
    same order, and give the promises [ids] the same results. *)
Definition agree (ids : list nat) (done done' : list (nat * option JsError)) : Prop :=
  List.Forall2 (fun a b => fst a = fst b /\ (List.In (fst a) ids -> snd a = snd b))
               done done'.

(** No pending operation behind a promise of [ids] is a removal. *)
Definition guarded (ids : list nat) (s : @State P) : Prop :=
  forall i op, List.In i ids -> List.In (i, op) (pending s) -> is_removal op = false.

(** A state and a state of the forgiving platform that differ only in
    what removals reported. *)
Record similar (s : @State P) (s' : @State (forgiving P)) : Prop := {
  sim_env : env s = env s';
  sim_pending : pending s = pending s';
  sim_next_id : next_id s = next_id s';
  sim_schedule : schedule s = schedule s';
  sim_trace : map quiet (trace s) = map quiet (trace s');
  sim_settled : agree [] (settled s) (settled s');
  sim_well_formed : well_formed s
}.

(** Two programs that go the same way from similar states. *)
Definition sim_prog {X : Type} (m : @M P X) (m' : @M (forgiving P) X) : Prop :=
  forall s s', similar s s' ->
    fst (m s) = fst (m' s') /\ similar (snd (m s)) (snd (m' s')).

End Forgiving.

(** ** Notions for the further properties *)

(** [k] is one of [ks]. *)
Definition mem (k : string) (ks : list string) : bool := existsb (String.eqb k) ks.

(** The gated key [k] is cleared by the feature list: its feature is
    not selected. *)
Definition cleared (features : list Feature) (k : string) : bool :=
  existsb (fun kf => String.eqb k (fst kf) && negb (includes (snd kf) features)) gated.

(** The keys of a JSON object, in the order they are written. *)
Definition keys_of (doc : json) : list string :=
  match doc with
  | JObject members => Obj.keys members
  | _ => []
  end.

(** The value a property read yields on a value other than [null]. *)
Definition read (current : json) (key : string) : jsvalue :=
  match Obj.get current key with
  | inr v => v
  | inl _ => Undefined
  end.

Section Observations.

Context {P : Platform} {R : Runtime}.

(** From [s] to [s'] the file [path] was loaded and then one
    [fs.writeJson] of [doc] to it, indent 2, was started, before
    anything else happened. *)
Definition rewrites (path : string) (doc : json) (s s' : State) : Prop :=
  exists rest,
    trace s' = trace s ++ Required path :: Issued (next_id s) (WriteJson path doc 2) :: rest.

(** What a program adds to the trace, all of it within [Q]. *)
Definition adds (Q : Event -> Prop) {A : Type} (m : M A) : Prop :=
  forall s, exists r, trace (snd (m s)) = trace s ++ r /\ List.Forall Q r.

(** A program that ends the process only through an unhandled
    rejection, on a runtime that throws on those: with status 1. *)
Definition exits_by_rejection {A : Type} (m : M A) : Prop :=
  forall s code, fst (m s) = Exited code -> code = 1%Z /\ unhandled_rejections = Throw.

(** A program that adds events of [Q] only and, when it returns, has
    [ev] as the last of them; it ends the process only through an
    unhandled rejection. *)
Definition closes_with (Q : Event -> Prop) (ev : Event) {A : Type} (m : M A) : Prop :=
  forall s, exists mid,
    List.Forall Q mid
    /\ match fst (m s) with
       | Returned _ => trace (snd (m s)) = trace s ++ mid ++ [ev]
       | Threw _ => trace (snd (m s)) = trace s ++ mid
       | Exited code =>
           trace (snd (m s)) = trace s ++ mid
           /\ code = 1%Z /\ unhandled_rejections = Throw
       end.

(** A program that keeps states well formed and, when it returns
    normally from a well-formed state, has added an event of [E]. *)
Definition ensures (E : Event -> Prop) {A : Type} (m : M A) : Prop :=
  forall s, well_formed s ->
    well_formed (snd (m s))
    /\ exists r, trace (snd (m s)) = trace s ++ r
                 /\ (forall a, fst (m s) = Returned a -> List.Exists E r).

(** A program that keeps states well formed and only adds events. *)
Definition steady {A : Type} (m : M A) : Prop :=
  forall s, well_formed s ->
    well_formed (snd (m s)) /\ exists r, trace (snd (m s)) = trace s ++ r.

End Observations.

(** How a wait for a promise ends, given how the promise settled. *)
Definition outcome_of (result : option JsError) : outcome unit :=
  match result with
  | Some e => Threw e
  | None => Returned tt
  end.

(** The completion of an operation. *)
Definition completion (ev : Event) : Prop :=
  match ev with
  | Settled _ _ _ => True
  | _ => False
  end.

(** A clone of [remote] into [dir] has completed without error. *)
Definition cloned_into (remote dir : string) (ev : Event) : Prop :=
  match ev with
  | Settled _ (Clone r d) None => r = remote /\ d = dir
  | _ => False
  end.

(** A write of a JSON document to [path], indented by 2, has completed
    without error. *)
Definition written (path : string) (ev : Event) : Prop :=
  match ev with
  | Settled _ (WriteJson p _ n) None => p = path /\ n = 2
  | _ => False
  end.

(** Input and output: operations started or completed, files loaded. *)
Definition io_event (ev : Event) : Prop :=
  match ev with
  | Issued _ _ | Settled _ _ _ | Required _ => True
  | _ => False
  end.

(** What [generate] may do with the project directory [dir] and the
    template at [remote]: clone the template into it, remove its
    [.git], [cli] and [README.md], load and write its two JSON files;
    completions can be those of operations started earlier. *)
Definition generate_event (remote dir : string) (ev : Event) : Prop :=
  match ev with
  | Issued _ (Clone r d) => r = remote /\ d = dir
  | Issued _ (Remove p) => p = dir +:+ "/.git" \/ p = dir +:+ "/cli"
  | Issued _ (Unlink p) => p = dir +:+ "/README.md"
  | Issued _ (WriteJson p _ n) =>
      (p = dir +:+ "/package.json" \/ p = dir +:+ "/angular/src/manifest.json") /\ n = 2
  | Issued _ (Exec _) => False
  | Required p => p = dir +:+ "/package.json" \/ p = dir +:+ "/angular/src/manifest.json"
  | Settled _ _ _ => True
  | LogError (Thrown _) => True
  | LogError (Message _) => False
  | SpinnerStart text => text = "creating extension..."
  | SpinnerStop _ => True
  end.

(** The object [writeManifestJson] hands to [fs.writeJson] when the
    current manifest is any value but [null]. *)
Definition merged_with (pkg : Package) (projectName : string) (features : list Feature)
  (current : json) : jsobject :=
  let kept f key := if includes f features then read current key else Undefined in
  Obj.assign (Obj.assign [] (Obj.own_enumerable current))
    [("name", Json (JString projectName));
     ("short_name", Json (JString projectName));
     ("description", Json (JString ("Generated with " +:+ name pkg)));
     ("browser_action", kept POPUP "browser_action");
     ("options_page", kept OPTIONS "options_page");
     ("chrome_url_overrides", kept TAB "chrome_url_overrides")].

(** The object literal [manifest] of [writeManifestJson], for a current
    manifest that is the object [members]. *)
Definition overlay (pkg : Package) (projectName : string) (features : list Feature)
  (members : list (string * json)) : jsobject :=
  let kept f key :=
    if includes f features
    then match Obj.lookup key members with Some x => Json x | None => Undefined end
    else Undefined in
  [("name", Json (JString projectName));
   ("short_name", Json (JString projectName));
   ("description", Json (JString ("Generated with " +:+ name pkg)));
   ("browser_action", kept POPUP "browser_action");
   ("options_page", kept OPTIONS "options_page");
   ("chrome_url_overrides", kept TAB "chrome_url_overrides")].

(** The object [writePackageJson] hands to [fs.writeJson]. *)
Definition merged_package (pkg : Package) (projectName : string) (current : json) : jsobject :=
  Obj.assign (Obj.assign [] (Obj.own_enumerable current))
    [("name", Json (JString projectName));
     ("description", Json (JString ("Generated with " +:+ name pkg)));
     ("author", Undefined)].

(** ** An in-memory platform

    A file system kept as a map from absolute paths to nodes, remote
    repositories by URL, and child commands that may fail.  It gives the
    collaborators a definite behaviour on which the service can be
    run. *)

Module MemFS.

Definition dquote : ascii := "034"%char.
Definition newline : string := String "010"%char "".

Definition hex_digit (n : nat) : ascii :=
  nth n ["0"; "1"; "2"; "3"; "4"; "5"; "6"; "7";
         "8"; "9"; "a"; "b"; "c"; "d"; "e"; "f"]%char "0"%char.

Definition escape_char (c : ascii) : string :=
  let n := nat_of_ascii c in
  if Nat.eqb n 34 then String "\"%char (String dquote "")
  else if Nat.eqb n 92 then "\\"
  else if Nat.eqb n 8 then "\b"
  else if Nat.eqb n 12 then "\f"
  else if Nat.eqb n 10 then "\n"
  else if Nat.eqb n 13 then "\r"
  else if Nat.eqb n 9 then "\t"
  else if Nat.ltb n 32
       then "\u00" +:+ String (hex_digit (n / 16)) (String (hex_digit (n mod 16)) "")
       else String c "".

Fixpoint escape (s : string) : string :=
  match s with
  | EmptyString => ""
  | String c rest => escape_char c +:+ escape rest
  end.

Definition quote (s : string) : string :=
  String dquote (escape s) +:+ String dquote "".

Fixpoint spaces_of (n : nat) : string :=
  match n with
  | O => ""
  | S m => String " "%char (spaces_of m)
  end.

Definition brackets (opening closing gap indent : string) (parts : list string) : string :=
  match parts with
  | [] => opening +:+ closing
  | _ =>
      if String.eqb gap ""
      then opening +:+ String.concat "," parts +:+ closing
      else opening +:+ newline +:+ indent +:+ gap
           +:+ String.concat ("," +:+ newline +:+ indent +:+ gap) parts
           +:+ newline +:+ indent +:+ closing
  end.

(** [JSON.stringify(v, null, gap)] at the indentation [indent]. *)
Fixpoint stringify_at (gap indent : string) (v : json) : string :=
  match v with
  | JNull => "null"
  | JBool true => "true"
  | JBool false => "false"
  | JNumber n => pretty n
  | JString s => quote s
  | JArray items =>
      brackets "[" "]" gap indent (map (stringify_at gap (indent +:+ gap)) items)
  | JObject members =>
      brackets "{" "}" gap indent
        (map (fun kv =>
                quote (fst kv) +:+ (if String.eqb gap "" then ":" else ": ")
                +:+ stringify_at gap (indent +:+ gap) (snd kv))
             members)
  end.

Definition JSON_stringify (v : json) (indent_width : nat) : string :=
  stringify_at (spaces_of (Nat.min indent_width 10)) "" v.

(** The content of a file: a JSON document written with some indent
    width, or text that is not JSON. *)
Inductive content : Type :=
  | Text (text : string)
  | Doc (doc : json) (indent_width : nat).

Inductive node : Type :=
  | Dir
  | File (c : content).

(** The bytes of a file; [writeJson] ends the text with a newline. *)
Definition file_text (c : content) : string :=
  match c with
  | Text text => text
  | Doc doc n => JSON_stringify doc n +:+ newline
  end.

Record t : Type := mk {
  cwd : string;
  files : gmap string node;
  remotes : list (string * list (string * node));
  failing_commands : list (string * JsError)
}.

Definition with_files (fs : gmap string node) (w : t) : t :=
  mk (cwd w) fs (remotes w) (failing_commands w).

Definition exists_path (path : string) (w : t) : bool :=
  match files w !! path with Some _ => true | None => false end.

Definition is_directory (path : string) (w : t) : bool :=
  match files w !! path with Some Dir => true | _ => false end.

(** [path] itself or something below it *)
Definition under (path key : string) : bool :=
  String.eqb key path || String.prefix (path +:+ "/") key.

Definition has_entries (path : string) (w : t) : bool :=
  existsb (fun kv => String.prefix (path +:+ "/") (fst kv)) (map_to_list (files w)).

(** The part of a path before its last [/]. *)
Fixpoint dirname (path : string) : option string :=
  match path with
  | EmptyString => None
  | String c rest =>
      match dirname rest with
      | Some d => Some (String c d)
      | None => if Ascii.eqb c "/" then Some "" else None
      end
  end.

Definition parent_is_directory (path : string) (w : t) : bool :=
  match dirname path with
  | Some "" | None => true
  | Some d => is_directory d w
  end.

Definition chdir (dir : string) (w : t) : JsError + t :=
  match files w !! dir with
  | Some Dir => inr (mk dir (files w) (remotes w) (failing_commands w))
  | Some (File _) => inl (mkError "ENOTDIR" ("not a directory, chdir '" +:+ dir +:+ "'"))
  | None => inl (mkError "ENOENT" ("no such file or directory, chdir '" +:+ dir +:+ "'"))
  end.

Definition load (path : string) (w : t) : JsError + json :=
  match files w !! path with
  | Some (File (Doc doc _)) => inr doc
  | Some (File (Text _)) => inl (mkError "SyntaxError" (path +:+ ": Unexpected token"))
  | Some Dir | None => inl (mkError "MODULE_NOT_FOUND" ("Cannot find module '" +:+ path +:+ "'"))
  end.

Definition checkout (dir : string) (tree : list (string * node)) (fs : gmap string node)
  : gmap string node :=
  fold_right (fun kv acc => <[dir +:+ "/" +:+ fst kv := snd kv]> acc) (<[dir := Dir]> fs) tree.

Definition complete (op : IoOp) (w : t) : option JsError * t :=
  match op with
  | Clone remote dir =>
      match Obj.lookup remote (remotes w) with
      | None => (Some (mkError "Error" ("failed to resolve address for " +:+ remote)), w)
      | Some tree =>
          if match files w !! dir with
             | None => true
             | Some Dir => negb (has_entries dir w)
             | Some (File _) => false
             end
          then (None, with_files (checkout dir tree (files w)) w)
          else (Some (mkError "Error" ("'" +:+ dir +:+ "' exists and is not an empty directory")), w)
      end
  | Remove path =>
      (None, with_files (filter (fun kv => Is_true (negb (under path (fst kv)))) (files w)) w)
  | Unlink path =>
      match files w !! path with
      | Some (File _) => (None, with_files (delete path (files w)) w)
      | Some Dir => (Some (mkError "EISDIR" ("illegal operation on a directory, unlink '" +:+ path +:+ "'")), w)
      | None => (Some (mkError "ENOENT" ("no such file or directory, unlink '" +:+ path +:+ "'")), w)
      end
  | WriteJson path doc n =>
      match files w !! path with
      | Some Dir => (Some (mkError "EISDIR" ("illegal operation on a directory, open '" +:+ path +:+ "'")), w)
      | Some (File _) => (None, with_files (<[path := File (Doc doc n)]> (files w)) w)
      | None =>
          if parent_is_directory path w
          then (None, with_files (<[path := File (Doc doc n)]> (files w)) w)
          else (Some (mkError "ENOENT" ("no such file or directory, open '" +:+ path +:+ "'")), w)
      end
  | Exec command =>
      (Obj.lookup command (failing_commands w), w)
  end.

#[export] Instance platform : Platform := {|
  world := t;
  process_cwd := cwd;
  process_chdir := chdir;
  fs_pathExists := exists_path;
  module_require := load;
  io_complete := complete
|}.

(** A run starts with nothing pending. *)
Definition start (w : t) (sched : list (list nat)) : State (P := platform) :=
  mkState w [] [] [] 0 sched.

End MemFS.

(** ** Sample worlds

    A template repository and a working directory on which the
    service is run below. *)

Module Sample.

Import MemFS.

Definition pkg : Package :=
  {| name := "angular-chrome-extension-cli";
     repository := {| url := "https://github.com/larscom/angular-chrome-extension.git" |} |}.

Definition manifest : list (string * json) :=
  [("manifest_version", JNumber 2);
   ("browser_action", JObject [("default_popup", JString "index.html?#/popup")]);
   ("options_page", JString "index.html?#/options");
   ("chrome_url_overrides", JObject [("newtab", JString "index.html?#/tab")]);
   ("foo", JString "bar")].

Definition package : list (string * json) :=
  [("name", JString "angular-chrome-extension");
   ("version", JString "1.0.0");
   ("author", JString "someone");
   ("dependencies", JObject [("rxjs", JString "^6.5.0")])].

(** The template without its README. *)
Definition bare_template : list (string * node) :=
  [(".git", Dir);
   (".git/HEAD", File (Text "ref: refs/heads/master"));
   ("cli", Dir);
   ("cli/index.ts", File (Text "#!/usr/bin/env node"));
   ("package.json", File (Doc (JObject package) 2));
   ("angular", Dir);
   ("angular/src", Dir);
   ("angular/src/manifest.json", File (Doc (JObject manifest) 2))].

Definition template : list (string * node) :=
  ("README.md", File (Text "# Angular Chrome Extension")) :: bare_template.

(** An empty working directory [/work]; the template can be cloned. *)
Definition fresh : MemFS.t :=
  mk "/work" {[ "/work" := Dir ]} [(url (repository pkg), template)] [].

(** The same, with a template that has no README. *)
Definition fresh_without_readme : MemFS.t :=
  mk "/work" {[ "/work" := Dir ]} [(url (repository pkg), bare_template)] [].

(** [/work/my-app] is a regular file. *)
Definition with_file : MemFS.t :=
  mk "/work" (<[ "/work/my-app" := File (Text "notes") ]> {[ "/work" := Dir ]}) [] [].

(** [/work/my-app] is a generated project whose [npm ci] fails. *)
Definition generated : MemFS.t :=
  mk "/work"
     (<[ "/work/my-app/package.json" := File (Doc (JObject package) 2) ]>
        (<[ "/work/my-app" := Dir ]> {[ "/work" := Dir ]}))
     []
     [("npm ci", mkError "Error" "Command failed: npm ci")].

(** A world in which the two JSON files of a project are in place. *)
Definition cloned : MemFS.t :=
  mk "/work"
     (<[ "/work/my-app/angular/src/manifest.json" := File (Doc (JObject manifest) 2) ]>
        (<[ "/work/my-app/package.json" := File (Doc (JObject package) 2) ]>
           (<[ "/work/my-app" := Dir ]> {[ "/work" := Dir ]})))
     [] [].

(** A project whose manifest is the literal [null]. *)
Definition null_manifest : MemFS.t :=
  mk "/work"
     (<[ "/work/my-app/angular/src/manifest.json" := File (Doc JNull 2) ]>
        (<[ "/work/my-app" := Dir ]> {[ "/work" := Dir ]}))
     [] [].

(** A project as a generation of [my-app] with the popup feature
    leaves it. *)
Definition regenerated : MemFS.t :=
  mk "/work"
     (<[ "/work/my-app/angular/src/manifest.json" :=
           File (Doc (Obj.document (merged_manifest pkg "my-app" [POPUP] manifest)) 2) ]>
        (<[ "/work/my-app/package.json" :=
              File (Doc (Obj.document (merged_package pkg "my-app" (JObject package))) 2) ]>
           (<[ "/work/my-app" := Dir ]> {[ "/work" := Dir ]})))
     [] [].

(** A template that has no [package.json]. *)
Definition template_without_package : list (string * node) :=
  [(".git", Dir);
   ("cli", Dir);
   ("README.md", File (Text "# Angular Chrome Extension"));
   ("angular", Dir);
   ("angular/src", Dir);
   ("angular/src/manifest.json", File (Doc (JObject manifest) 2))].

(** A template that has neither a [.git] nor a [cli] directory. *)
Definition template_without_directories : list (string * node) :=
  [("README.md", File (Text "# Angular Chrome Extension"));
   ("package.json", File (Doc (JObject package) 2));
   ("angular", Dir);
   ("angular/src", Dir);
   ("angular/src/manifest.json", File (Doc (JObject manifest) 2))].

Definition fresh_without_directories : MemFS.t :=
  mk "/work" {[ "/work" := Dir ]} [(url (repository pkg), template_without_directories)] [].

Definition fresh_without_package : MemFS.t :=
  mk "/work" {[ "/work" := Dir ]} [(url (repository pkg), template_without_package)] [].

End Sample.

(** * Properties *)

(** ** Objects: lookup, definition of a property, spread, serialization *)

Section ObjectFacts.

Context {V : Type}.
Implicit Types (k : string) (o : list (string * V)).

Lemma lookup_None_keys k o :
  Obj.lookup k o = None <-> ~ List.In k (Obj.keys o).
Proof.
  induction o as [|[k' v] o IH]; simpl.
  - tauto.
  - destruct (String.eqb_spec k k') as [->|Hne].
    + split; [discriminate | intros H; exfalso; apply H; now left].
    + rewrite IH. split; [intros H [E|E]; [congruence | tauto] | tauto].
Qed.

Lemma lookup_Some_keys k o v :
  Obj.lookup k o = Some v -> List.In k (Obj.keys o).
Proof.
  intros H. destruct (List.in_dec String.string_dec k (Obj.keys o)) as [Hin|Hout]; [assumption|].
  apply lookup_None_keys in Hout. congruence.
Qed.

Lemma keys_lookup_Some k o :
  List.In k (Obj.keys o) -> exists v, Obj.lookup k o = Some v.
Proof.
  intros Hin. destruct (Obj.lookup k o) as [v|] eqn:E; [now exists v|].
  apply lookup_None_keys in E. contradiction.
Qed.

Lemma lookup_app k o1 o2 :
  Obj.lookup k (o1 ++ o2) =
  match Obj.lookup k o1 with Some v => Some v | None => Obj.lookup k o2 end.
Proof.
  induction o1 as [|[k' v] o1 IH]; simpl; [reflexivity|].
  destruct (String.eqb k k'); [reflexivity | exact IH].
Qed.

End ObjectFacts.

Lemma lookup_define_eq k v o : Obj.lookup k (Obj.define k v o) = Some v.
Proof.
  induction o as [|[k' v'] o IH]; simpl.
  - now rewrite String.eqb_refl.
  - destruct (String.eqb_spec k k') as [->|Hne]; simpl.
    + now rewrite String.eqb_refl.
    + destruct (String.eqb_spec k k'); [contradiction | exact IH].
Qed.

Lemma lookup_define_ne k k' v o :
  k <> k' -> Obj.lookup k' (Obj.define k v o) = Obj.lookup k' o.
Proof.
  intros Hne. induction o as [|[k0 v0] o IH]; simpl.
  - destruct (String.eqb_spec k' k); [congruence | reflexivity].
  - destruct (String.eqb_spec k k0) as [->|Hk]; simpl.
    + destruct (String.eqb_spec k' k0); [congruence | reflexivity].
    + destruct (String.eqb k' k0); [reflexivity | exact IH].
Qed.

Lemma keys_define k v o k' :
  List.In k' (Obj.keys (Obj.define k v o)) <-> k' = k \/ List.In k' (Obj.keys o).
Proof.
  induction o as [|[k0 v0] o IH]; simpl.
  - intuition.
  - destruct (String.eqb_spec k k0) as [->|Hk]; simpl.
    + intuition.
    + rewrite IH. intuition.
Qed.

Lemma NoDup_define k v o :
  List.NoDup (Obj.keys o) -> List.NoDup (Obj.keys (Obj.define k v o)).
Proof.
  induction o as [|[k0 v0] o IH]; simpl; intros Hnd.
  - constructor; [intros [] | constructor].
  - inversion Hnd as [|? ? Hout Hrest]; subst.
    destruct (String.eqb_spec k k0) as [->|Hk]; simpl.
    + now constructor.
    + constructor; [|now apply IH].
      rewrite keys_define. intros [E|Hin]; [congruence | contradiction].
Qed.

Lemma NoDup_assign target source :
  List.NoDup (Obj.keys target) -> List.NoDup (Obj.keys (Obj.assign target source)).
Proof.
  unfold Obj.assign. revert target.
  induction source as [|[k v] source IH]; simpl; intros target Hnd; [assumption|].
  apply IH. now apply NoDup_define.
Qed.

Lemma define_fresh k v o :
  ~ List.In k (Obj.keys o) -> Obj.define k v o = o ++ [(k, v)].
Proof.
  induction o as [|[k0 v0] o IH]; simpl; intros Hout; [reflexivity|].
  destruct (String.eqb_spec k k0) as [->|Hk]; [exfalso; apply Hout; now left|].
  rewrite IH; [reflexivity | tauto].
Qed.

(** Spreading an object with unique keys into fresh properties copies
    it as it is. *)
Lemma assign_fresh target source :
  List.NoDup (Obj.keys (target ++ source)) -> Obj.assign target source = target ++ source.
Proof.
  unfold Obj.assign. revert target.
  induction source as [|[k v] source IH]; simpl; intros target Hnd.
  - now rewrite List.app_nil_r.
  - assert (Hout : ~ List.In k (Obj.keys target)).
    { unfold Obj.keys in *. rewrite List.map_app in Hnd. simpl in Hnd.
      apply List.NoDup_remove_2 in Hnd. rewrite List.in_app_iff in Hnd. tauto. }
    rewrite (define_fresh _ _ _ Hout), IH.
    + now rewrite <- List.app_assoc.
    + now rewrite <- List.app_assoc.
Qed.

Lemma keys_own_enumerable_object members :
  Obj.keys (Obj.own_enumerable (JObject members)) = Obj.keys members.
Proof.
  unfold Obj.keys. simpl. rewrite List.map_map. reflexivity.
Qed.

Lemma lookup_own_enumerable_object k members :
  Obj.lookup k (Obj.own_enumerable (JObject members)) = option_map Json (Obj.lookup k members).
Proof.
  induction members as [|[k' v] members IH]; simpl; [reflexivity|].
  destruct (String.eqb k k'); [reflexivity | exact IH].
Qed.

Lemma spread_object members :
  List.NoDup (Obj.keys members) ->
  Obj.assign [] (Obj.own_enumerable (JObject members)) = Obj.own_enumerable (JObject members).
Proof.
  intros Hnd. apply (assign_fresh []).
  rewrite List.app_nil_l. now rewrite keys_own_enumerable_object.
Qed.

Lemma keys_serializable k o :
  List.In k (Obj.keys (Obj.serializable o)) -> List.In k (Obj.keys o).
Proof.
  induction o as [|[k' [|v]] o IH]; simpl; intuition.
Qed.

(** In the serialized document a key has the value it has in the
    object, and is missing when that value is [undefined]. *)
Lemma lookup_serializable k o :
  List.NoDup (Obj.keys o) ->
  Obj.lookup k (Obj.serializable o) =
  match Obj.lookup k o with Some (Json v) => Some v | _ => None end.
Proof.
  induction o as [|[k' [|v]] o IH]; simpl; intros Hnd; [reflexivity| |];
    inversion Hnd as [|? ? Hout Hrest]; subst.
  - destruct (String.eqb_spec k k') as [->|Hk]; [|now apply IH].
    apply lookup_None_keys. intros Hin. apply Hout. now apply keys_serializable.
  - destruct (String.eqb k k'); [reflexivity | now apply IH].
Qed.

Lemma includes_In f features : includes f features = true <-> List.In f features.
Proof.
  unfold includes. rewrite List.existsb_exists. split.
  - intros [g [Hin Heq]]. destruct f, g; simpl in Heq; congruence.
  - intros Hin. exists f. split; [assumption | now destruct f].
Qed.

Lemma has_key_member k doc : has_key k doc <-> member k doc <> None.
Proof.
  destruct doc; simpl; try tauto.
  rewrite lookup_None_keys. destruct (List.in_dec String.string_dec k (Obj.keys members)); tauto.
Qed.

(** ** The runtime: what a run adds to the trace *)

Section RuntimeFacts.

Context {P : Platform}.

Lemma extends_refl s : extends s s.
Proof. exists []. now rewrite List.app_nil_r. Qed.

Lemma extends_trans s1 s2 s3 : extends s1 s2 -> extends s2 s3 -> extends s1 s3.
Proof.
  intros [r1 H1] [r2 H2]. exists (r1 ++ r2). now rewrite H2, H1, List.app_assoc.
Qed.

Lemma extends_emit ev s : extends s (emit ev s).
Proof. now exists [ev]. Qed.

Lemma extends_settle i s : extends s (settle i s).
Proof.
  unfold settle. destruct (find_op i (pending s)) as [op|]; [|apply extends_refl].
  destruct (io_complete op (env s)) as [result w]. now exists [Settled i op result].
Qed.

Lemma extends_force ids s : extends s (snd (force ids s)).
Proof.
  revert s. induction ids as [|i ids IH]; intros s; simpl; [apply extends_refl|].
  destruct (first_rejection [i] (settled (settle i s))); simpl.
  - apply extends_settle.
  - eapply extends_trans; [apply extends_settle | apply IH].
Qed.

Lemma extends_drive ids turn s : extends s (snd (drive ids turn s)).
Proof.
  revert s. induction turn as [|i turn IH]; intros s; simpl;
    destruct (first_rejection ids (settled s)); simpl; try apply extends_refl;
    destruct (forallb (fun i => is_settled i s) ids); simpl; try apply extends_refl.
  - apply extends_force.
  - eapply extends_trans; [apply extends_settle | apply IH].
Qed.

Lemma extends_next_turn s : extends s (snd (next_turn s)).
Proof.
  unfold next_turn. destruct (schedule s); simpl; [apply extends_refl|].
  exists []. simpl. now rewrite List.app_nil_r.
Qed.

Lemma monotone_ret {A} (a : A) : monotone (ret a).
Proof. intros s. apply extends_refl. Qed.

Lemma monotone_throw {A} e : monotone (throw (A := A) e).
Proof. intros s. apply extends_refl. Qed.

Lemma monotone_exit {A} code : monotone (process_exit (A := A) code).
Proof. intros s. apply extends_refl. Qed.

Lemma monotone_bind {A B} (m : M A) (k : A -> M B) :
  monotone m -> (forall a, monotone (k a)) -> monotone (bind m k).
Proof.
  intros Hm Hk s. unfold bind. specialize (Hm s).
  destruct (m s) as [[a|e|code] s']; simpl in *; try assumption.
  eapply extends_trans; [exact Hm | apply Hk].
Qed.

Lemma monotone_try_catch {A} (body : M A) handler :
  monotone body -> (forall e, monotone (handler e)) -> monotone (try_catch body handler).
Proof.
  intros Hm Hk s. unfold try_catch. specialize (Hm s).
  destruct (body s) as [[a|e|code] s']; simpl in *; try assumption.
  eapply extends_trans; [exact Hm | apply Hk].
Qed.

Lemma monotone_tell ev : monotone (tell ev).
Proof. intros s. apply extends_emit. Qed.

Lemma monotone_lift {A} (r : JsError + A) : monotone (lift r).
Proof. destruct r; intros s; apply extends_refl. Qed.

Lemma monotone_issue op : monotone (issue op).
Proof. intros s. now exists [Issued (next_id s) op]. Qed.

Lemma monotone_wait_all ids : monotone (wait_all ids).
Proof.
  intros s. unfold wait_all.
  destruct (first_rejection ids (settled s)); simpl; [apply extends_refl|].
  destruct (forallb (fun i => is_settled i s) ids); simpl; [apply extends_refl|].
  pose proof (extends_next_turn s) as Hn.
  destruct (next_turn s) as [turn s']. simpl in Hn.
  eapply extends_trans; [exact Hn | apply extends_drive].
Qed.

Lemma monotone_await v : monotone (await v).
Proof.
  destruct v; simpl; [apply monotone_ret | apply monotone_wait_all | apply monotone_ret].
Qed.

Lemma monotone_Promise_all items : monotone (Promise_all items).
Proof.
  intros s. unfold Promise_all.
  pose proof (monotone_wait_all (promise_ids items) s) as H.
  now destruct (wait_all (promise_ids items) s) as [[a|e|code] s'].
Qed.

Lemma bind_returned {A B} (m : M A) (k : A -> M B) s a s' :
  m s = (Returned a, s') -> bind m k s = k a s'.
Proof. intros H. unfold bind. now rewrite H. Qed.

Lemma pair_with_fst {A B : Type} (p : A * B) (a : A) : fst p = a -> p = (a, snd p).
Proof. destruct p. simpl. now intros ->. Qed.

Lemma bind_threw {A B} (m : M A) (k : A -> M B) s e s' :
  m s = (Threw e, s') -> bind m k s = (Threw e, s').
Proof. intros H. unfold bind. now rewrite H. Qed.

Lemma first_rejection_nil done : first_rejection [] done = None.
Proof.
  induction done as [|[i [e|]] done IH]; simpl; auto.
Qed.

(** Waiting for no promise at all resumes at once. *)
(** On the lenient runtime no rejection is unhandled in the sense
    above, and the event loop completes a whole turn. *)
Lemma unhandled_warn ids i s : unhandled ids i s = false.
Proof. reflexivity. Qed.

Lemma idle_warn turn s :
  idle turn s = (Returned tt, fold_left (fun acc i => settle i acc) turn s).
Proof.
  revert s. induction turn as [|i turn IH]; intros s; [reflexivity|].
  cbn [idle fold_left]. rewrite unhandled_warn. apply IH.
Qed.

Lemma wait_all_nil s : wait_all [] s = (Returned tt, s).
Proof. unfold wait_all. now rewrite first_rejection_nil. Qed.

End RuntimeFacts.

Create HintDb mono discriminated.
#[export] Hint Resolve monotone_ret monotone_throw monotone_exit monotone_tell
  monotone_lift monotone_issue monotone_wait_all monotone_await
  monotone_Promise_all : mono.
#[export] Hint Extern 2 (monotone (bind _ _)) =>
  apply monotone_bind; [| intro] : mono.
#[export] Hint Extern 2 (monotone (try_catch _ _)) =>
  apply monotone_try_catch; [| intro] : mono.

(** ** Programs that never end the process *)

Section ExitFacts.

Context {P : Platform}.

Lemma never_exits_ret {A} (a : A) : never_exits (ret a).
Proof. intros s code. discriminate. Qed.

Lemma never_exits_throw {A} e : never_exits (throw (A := A) e).
Proof. intros s code. discriminate. Qed.

Lemma never_exits_tell ev : never_exits (tell ev).
Proof. intros s code. discriminate. Qed.

Lemma never_exits_lift {A} (r : JsError + A) : never_exits (lift r).
Proof. destruct r; intros s code; discriminate. Qed.

Lemma never_exits_issue op : never_exits (issue op).
Proof. intros s code. discriminate. Qed.

Lemma never_exits_require path : never_exits (require path).
Proof.
  intros s code. unfold require. destruct (module_require path (env s)); discriminate.
Qed.

Lemma never_exits_bind {A B} (m : M A) (k : A -> M B) :
  never_exits m -> (forall a, never_exits (k a)) -> never_exits (bind m k).
Proof.
  intros Hm Hk s code. unfold bind. specialize (Hm s).
  destruct (m s) as [[a|e|c] s']; simpl in *;
    [apply Hk | discriminate | exfalso; now apply (Hm c)].
Qed.

Lemma never_exits_try_catch {A} (body : M A) handler :
  never_exits body -> (forall e, never_exits (handler e)) ->
  never_exits (try_catch body handler).
Proof.
  intros Hm Hk s code. unfold try_catch. specialize (Hm s).
  destruct (body s) as [[a|e|c] s']; simpl in *;
    [discriminate | apply Hk | exfalso; now apply (Hm c)].
Qed.

Lemma force_never_exits ids s code : fst (force ids s) <> Exited code.
Proof.
  revert s. induction ids as [|i ids IH]; intros s; simpl; [discriminate|].
  destruct (first_rejection [i] (settled (settle i s))); [discriminate | apply IH].
Qed.

Lemma drive_never_exits ids turn s code : fst (drive ids turn s) <> Exited code.
Proof.
  revert s. induction turn as [|i turn IH]; intros s; simpl;
    destruct (first_rejection ids (settled s)); try discriminate;
    destruct (forallb (fun i => is_settled i s) ids); try discriminate.
  - apply force_never_exits.
  - apply IH.
Qed.

Lemma never_exits_wait_all ids : never_exits (wait_all ids).
Proof.
  intros s code. unfold wait_all.
  destruct (first_rejection ids (settled s)); [discriminate|].
  destruct (forallb (fun i => is_settled i s) ids); [discriminate|].
  destruct (next_turn s) as [turn s']. apply drive_never_exits.
Qed.

Lemma never_exits_await v : never_exits (await v).
Proof.
  destruct v; simpl;
    [apply never_exits_ret | apply never_exits_wait_all | apply never_exits_ret].
Qed.

Lemma never_exits_Promise_all items : never_exits (Promise_all items).
Proof.
  intros s code. unfold Promise_all.
  pose proof (never_exits_wait_all (promise_ids items) s) as H.
  destruct (wait_all (promise_ids items) s) as [[a|e|c] s']; simpl in *;
    [discriminate | discriminate | exfalso; now apply (H c)].
Qed.

End ExitFacts.

Create HintDb noexit discriminated.
#[export] Hint Resolve never_exits_ret never_exits_throw never_exits_tell
  never_exits_lift never_exits_issue never_exits_require never_exits_wait_all
  never_exits_await never_exits_Promise_all : noexit.
#[export] Hint Extern 2 (never_exits (bind _ _)) =>
  apply never_exits_bind; [| intro] : noexit.
#[export] Hint Extern 2 (never_exits (try_catch _ _)) =>
  apply never_exits_try_catch; [| intro] : noexit.
#[export] Hint Extern 3 (never_exits (if ?b then _ else _)) => destruct b : noexit.
#[export] Hint Extern 3 (monotone (if ?b then _ else _)) => destruct b : mono.

(** ** Waiting for a single operation *)

Section SingleWait.

Context {P : Platform}.

(** With a single operation pending and nothing settled, waiting for
    it ends when it completes, whatever else the event loop was asked
    to complete first. *)
Lemma drive_single i op turn s :
  pending s = [(i, op)] -> settled s = [] -> drive [i] turn s = force [i] s.
Proof.
  revert s. induction turn as [|j turn IH]; intros s Hp Hs.
  - simpl. unfold is_settled. now rewrite Hs.
  - cbn [drive]. unfold is_settled at 1. rewrite Hs. cbn [first_rejection existsb forallb andb].
    destruct (Nat.eqb_spec j i) as [->|Hne].
    + cbn [force].
      assert (Hdone : is_settled i (settle i s) = true).
      { unfold settle. rewrite Hp. cbn [find_op]. rewrite Nat.eqb_refl.
        destruct (io_complete op (env s)) as [result w].
        unfold is_settled. cbn [settled]. rewrite Hs. simpl. now rewrite Nat.eqb_refl. }
      destruct turn; cbn [drive forallb]; rewrite Hdone;
        now destruct (first_rejection [i] (settled (settle i s))).
    + assert (Hsame : settle j s = s).
      { unfold settle. rewrite Hp. cbn [find_op].
        destruct (Nat.eqb_spec j i); [contradiction | reflexivity]. }
      rewrite Hsame. now apply IH.
Qed.

(** The promise of a command that is the only operation around rejects
    with what the platform reports when the command completes. *)
Lemma wait_single i op (s : State) :
  pending s = [(i, op)] -> settled s = [] ->
  wait_all [i] s =
  let (result, w) := io_complete op (env s) in
  let s' := mkState w (trace s ++ [Settled i op result]) [] [(i, result)]
                    (next_id s) (tail (schedule s)) in
  match result with
  | Some e => (Threw e, s')
  | None => (Returned tt, s')
  end.
Proof.
  intros Hp Hs. unfold wait_all. rewrite Hs. cbn [first_rejection forallb andb].
  unfold is_settled at 1. rewrite Hs. cbn [existsb].
  assert (Hforce : forall s0, pending s0 = [(i, op)] -> settled s0 = [] ->
            env s0 = env s -> trace s0 = trace s -> next_id s0 = next_id s ->
            force [i] s0 =
            let (result, w) := io_complete op (env s) in
            let s' := mkState w (trace s ++ [Settled i op result]) [] [(i, result)]
                              (next_id s) (schedule s0) in
            match result with
            | Some e => (Threw e, s')
            | None => (Returned tt, s')
            end).
  { intros s0 Hp0 Hs0 He Ht Hn. cbn [force]. unfold settle.
    rewrite Hp0, Hs0, He, Ht, Hn. cbn [find_op]. rewrite Nat.eqb_refl.
    destruct (io_complete op (env s)) as [[e|] w]; cbn; now rewrite ?Nat.eqb_refl. }
  unfold next_turn. destruct (schedule s) as [|turn later] eqn:Hsch.
  - rewrite (drive_single i op [] s Hp Hs).
    rewrite (Hforce s Hp Hs eq_refl eq_refl eq_refl). now rewrite Hsch.
  - rewrite (drive_single i op); [|exact Hp|exact Hs].
    now rewrite Hforce.
Qed.

(** The promise of a command that is the only operation around rejects
    with what the platform reports when the command completes. *)
Lemma execAsync_alone command (s : State) :
  pending s = [] -> settled s = [] ->
  execAsync command s =
  let (result, w) := io_complete (Exec command) (env s) in
  let s' := mkState w (trace s ++ [Issued (next_id s) (Exec command);
                                   Settled (next_id s) (Exec command) result])
                    [] [(next_id s, result)] (S (next_id s)) (tail (schedule s)) in
  match result with
  | Some e => (Threw e, s')
  | None => (Returned tt, s')
  end.
Proof.
  intros Hp Hs. unfold execAsync, bind, issue. cbn [await].
  rewrite (wait_single (next_id s) (Exec command)); cbn [pending settled env trace next_id schedule].
  - destruct (io_complete (Exec command) (env s)) as [[e|] w];
      now rewrite <- List.app_assoc.
  - now rewrite Hp.
  - exact Hs.
Qed.

End SingleWait.

(** ** Waiting does wait

    A wait that returns has seen every promise it was given settle;
    so the clean step of the spec's wording is a barrier. *)

Section Barrier.

Context {P : Platform}.

Lemma find_op_app i ops1 ops2 :
  find_op i (ops1 ++ ops2) =
  match find_op i ops1 with Some op => Some op | None => find_op i ops2 end.
Proof.
  induction ops1 as [|[j op] ops1 IH]; simpl; [reflexivity|].
  destruct (Nat.eqb i j); [reflexivity | exact IH].
Qed.

Lemma find_op_drop_ne i j ops : i <> j -> find_op i (drop_op j ops) = find_op i ops.
Proof.
  intros Hne. induction ops as [|[k op] ops IH]; simpl; [reflexivity|].
  destruct (Nat.eqb_spec j k) as [->|Hjk]; simpl.
  - destruct (Nat.eqb_spec i k); [contradiction | reflexivity].
  - destruct (Nat.eqb i k); [reflexivity | exact IH].
Qed.

Lemma settle_keeps_settled i j s :
  is_settled i s = true -> is_settled i (settle j s) = true.
Proof.
  unfold settle. destruct (find_op j (pending s)) as [op|]; [|tauto].
  destruct (io_complete op (env s)) as [result w].
  unfold is_settled. cbn [settled]. rewrite List.existsb_app. intros ->. reflexivity.
Qed.

Lemma settle_self i s :
  find_op i (pending s) <> None -> is_settled i (settle i s) = true.
Proof.
  unfold settle. destruct (find_op i (pending s)) as [op|]; [intros _ | congruence].
  destruct (io_complete op (env s)) as [result w].
  unfold is_settled. cbn [settled]. rewrite List.existsb_app. simpl.
  rewrite Nat.eqb_refl. apply orb_true_r.
Qed.

Lemma settle_keeps_issued i j s : issued i s -> issued i (settle j s).
Proof.
  intros [Hs|Hp]; [left; now apply settle_keeps_settled|].
  destruct (Nat.eq_dec i j) as [->|Hne]; [left; now apply settle_self|].
  right. unfold settle. destruct (find_op j (pending s)) as [op|]; [|exact Hp].
  destruct (io_complete op (env s)) as [result w]. cbn [pending].
  now rewrite find_op_drop_ne.
Qed.

Lemma settle_issued_settled i s : issued i s -> is_settled i (settle i s) = true.
Proof.
  intros [Hs|Hp]; [now apply settle_keeps_settled | now apply settle_self].
Qed.

Lemma force_keeps_settled i ids s :
  is_settled i s = true -> is_settled i (snd (force ids s)) = true.
Proof.
  revert s. induction ids as [|j ids IH]; intros s Hs; simpl; [exact Hs|].
  destruct (first_rejection [j] (settled (settle j s))); simpl.
  - now apply settle_keeps_settled.
  - apply IH. now apply settle_keeps_settled.
Qed.

Lemma force_settles ids s :
  (forall i, List.In i ids -> issued i s) ->
  fst (force ids s) = Returned tt ->
  forall i, List.In i ids -> is_settled i (snd (force ids s)) = true.
Proof.
  revert s. induction ids as [|j ids IH]; intros s Hiss Hret i Hin; [destruct Hin|].
  simpl in *. destruct (first_rejection [j] (settled (settle j s))); [discriminate|].
  destruct Hin as [->|Hin].
  - apply force_keeps_settled. apply settle_issued_settled. apply Hiss. now left.
  - apply IH; try assumption. intros k Hk. apply settle_keeps_issued. apply Hiss. now right.
Qed.

Lemma drive_settles ids turn s :
  (forall i, List.In i ids -> issued i s) ->
  fst (drive ids turn s) = Returned tt ->
  forall i, List.In i ids -> is_settled i (snd (drive ids turn s)) = true.
Proof.
  revert s. induction turn as [|j turn IH]; intros s Hiss; simpl;
    destruct (first_rejection ids (settled s)); try discriminate;
    destruct (forallb (fun i => is_settled i s) ids) eqn:Hall; simpl;
    try (intros _ i Hin; rewrite List.forallb_forall in Hall; now apply Hall).
  - now apply force_settles.
  - apply IH. intros k Hk. apply settle_keeps_issued. now apply Hiss.
Qed.

(** A wait that returns normally leaves every promise it was given
    settled. *)
Lemma wait_all_settles ids s s' :
  (forall i, List.In i ids -> issued i s) ->
  wait_all ids s = (Returned tt, s') ->
  forall i, List.In i ids -> is_settled i s' = true.
Proof.
  intros Hiss Hw i Hin. unfold wait_all in Hw.
  destruct (first_rejection ids (settled s)); [discriminate|].
  destruct (forallb (fun i => is_settled i s) ids) eqn:Hall.
  - inversion Hw; subst. rewrite List.forallb_forall in Hall. now apply Hall.
  - assert (Hiss' : forall k, List.In k ids -> issued k (snd (next_turn s))).
    { intros k Hk. specialize (Hiss k Hk). unfold next_turn.
      destruct (schedule s); exact Hiss. }
    destruct (next_turn s) as [turn s0]. cbn [snd] in Hiss'.
    pose proof (drive_settles ids turn s0 Hiss') as Hd.
    rewrite Hw in Hd. now apply Hd.
Qed.

(** The clean step worded as a barrier returns only when its three
    removals have settled; [cleanDir] returns with all three pending
    ([cleanDir_run]). *)
Lemma cleanDir_barrier_waits dir s v s' :
  cleanDir_barrier dir s = (Returned v, s') ->
  forall i, List.In i [next_id s; S (next_id s); S (S (next_id s))] ->
    is_settled i s' = true.
Proof.
  unfold cleanDir_barrier, bind, Promise_all. simpl.
  match goal with |- context [wait_all ?ids ?s0] =>
    destruct (wait_all ids s0) as [[[]|e|c] s1] eqn:Hw; try discriminate;
    intros H; inversion H; subst;
    apply (wait_all_settles ids s0); [|exact Hw]
  end.
  intros i Hin. right. cbn [pending]. rewrite !find_op_app.
  destruct (find_op i (pending s)); [discriminate|]. simpl.
  destruct Hin as [<-|[<-|[<-|[]]]]; rewrite ?Nat.eqb_refl; try discriminate;
    repeat match goal with |- context [Nat.eqb ?a ?b] => destruct (Nat.eqb a b) end;
    discriminate.
Qed.

End Barrier.

(** ** The name pattern: the matcher finds exactly the words of the
    expression *)

Module RegexFacts.

Import Regex.

Lemma nullable_Matches r : nullable r = true <-> Matches r [].
Proof.
  split.
  - induction r; simpl; intros H; try discriminate.
    + constructor.
    + apply andb_prop in H as [H1 H2].
      change (@nil ascii) with (@nil ascii ++ []). constructor; auto.
    + apply orb_prop in H as [H|H]; [apply MAltL | apply MAltR]; auto.
    + constructor.
  - intros H. remember (@nil ascii) as w eqn:Hw.
    induction H; simpl; try discriminate; auto.
    + apply List.app_eq_nil in Hw as [-> ->]. rewrite IHMatches1, IHMatches2; auto.
    + rewrite IHMatches; auto.
    + rewrite IHMatches; auto. apply orb_true_r.
Qed.

Lemma derive_sound c r : forall w, Matches (derive c r) w -> Matches r (c :: w).
Proof.
  induction r; simpl; intros w H.
  - inversion H.
  - inversion H.
  - destruct (in_class items c) eqn:E; inversion H; subst. now constructor.
  - destruct (nullable r1) eqn:E.
    + inversion H as [| |? ? w1 w2 H1 H2| ? ? ? H1 | ? ? ? H1 | |]; subst.
      * inversion H1 as [| |? ? w1 w2 Ha Hb| | | |]; subst.
        change (c :: w1 ++ w2) with ((c :: w1) ++ w2). constructor; auto.
      * change (c :: w) with ([] ++ c :: w). constructor; auto.
        now apply nullable_Matches.
    + inversion H as [| |? ? w1 w2 H1 H2| | | |]; subst.
      change (c :: w1 ++ w2) with ((c :: w1) ++ w2). constructor; auto.
  - inversion H; subst; [apply MAltL | apply MAltR]; auto.
  - inversion H as [| |? ? w1 w2 H1 H2| | | |]; subst. constructor; auto.
Qed.

Lemma derive_complete r w' :
  Matches r w' -> forall c w, w' = c :: w -> Matches (derive c r) w.
Proof.
  induction 1 as [|items c0 Hc|r1 r2 w1 w2 H1 IH1 H2 IH2|r1 r2 w0 H1 IH1|r1 r2 w0 H1 IH1
                 |r|r c0 w1 w2 H1 IH1 H2 IH2];
    intros c w Hw; simpl.
  - discriminate.
  - inversion Hw; subst. rewrite Hc. constructor.
  - destruct w1 as [|c1 w1]; simpl in Hw.
    + apply nullable_Matches in H1. rewrite H1. apply MAltR. now apply IH2.
    + inversion Hw; subst.
      destruct (nullable r1); [apply MAltL|]; constructor; auto.
  - apply MAltL. now apply IH1.
  - apply MAltR. now apply IH1.
  - discriminate.
  - inversion Hw; subst. constructor; auto.
Qed.

Theorem matches_Matches r w : matches r w = true <-> Matches r w.
Proof.
  revert r. induction w as [|c w IH]; intros r; simpl.
  - apply nullable_Matches.
  - rewrite IH. split; [apply derive_sound | intros H; now apply (derive_complete _ _ H)].
Qed.

Lemma star_class items w :
  Matches (Star (Class items)) w <-> List.Forall (fun c => in_class items c = true) w.
Proof.
  split.
  - intros H. remember (Star (Class items)) as r eqn:Hr.
    induction H; try discriminate; inversion Hr; subst.
    + constructor.
    + inversion H; subst. simpl. constructor; auto.
  - induction 1 as [|c w Hc Hw IH].
    + constructor.
    + change (c :: w) with (c :: [] ++ w). constructor; [now constructor | exact IH].
Qed.

Lemma plus_class items w :
  Matches (Plus (Class items)) w <->
  w <> [] /\ List.Forall (fun c => in_class items c = true) w.
Proof.
  unfold Plus. split.
  - intros H. inversion H as [| |? ? w1 w2 H1 H2| | | |]; subst.
    inversion H1; subst. simpl. split; [discriminate|].
    constructor; [assumption | now apply star_class].
  - intros [Hne Hall]. destruct w as [|c w]; [congruence|].
    inversion Hall; subst.
    change (c :: w) with ([c] ++ w). constructor; [now constructor | now apply star_class].
Qed.

End RegexFacts.

Lemma in_projectNameClass c :
  Regex.in_class projectNameClass c = true <-> allowed_char c.
Proof.
  unfold allowed_char, Regex.in_class, projectNameClass.
  cbn [existsb Regex.in_item].
  rewrite !orb_true_iff, !andb_true_iff, !Nat.leb_le.
  assert (Hcode : forall d : ascii, Ascii.eqb c d = true <-> nat_of_ascii c = nat_of_ascii d).
  { intros d. rewrite Ascii.eqb_eq. split; [now intros -> |].
    intros H. rewrite <- (ascii_nat_embedding c), <- (ascii_nat_embedding d). now rewrite H. }
  rewrite !Hcode.
  change (nat_of_ascii "a") with 97. change (nat_of_ascii "z") with 122.
  change (nat_of_ascii "0") with 48. change (nat_of_ascii "9") with 57.
  change (nat_of_ascii "-") with 45. change (nat_of_ascii "_") with 95.
  cbv zeta. intuition discriminate.
Qed.

(** The pattern accepts the valid names of the data model and no
    other string. *)
Lemma invalidProjectName_spec name :
  invalidProjectName name = false <-> ValidProjectName name.
Proof.
  unfold invalidProjectName, ValidProjectName, Regex.test, projectNameMatch.
  rewrite negb_false_iff, RegexFacts.matches_Matches, RegexFacts.plus_class.
  assert (Hne : list_ascii_of_string name <> [] <-> name <> "")
    by (destruct name; simpl; split; congruence).
  rewrite Hne. apply and_iff_compat_l.
  split; intros H; eapply List.Forall_impl; try exact H; intros c Hc;
    now apply in_projectNameClass.
Qed.

(** ** The in-memory platform: removal of what is not there *)

(** [fs.remove] of a path that does not exist succeeds and changes
    nothing. *)
Lemma remove_absent path (w : MemFS.t) :
  (forall key, MemFS.under path key = true -> MemFS.files w !! key = None) ->
  MemFS.complete (Remove path) w = (None, w).
Proof.
  intros Habsent. unfold MemFS.complete, MemFS.with_files.
  rewrite map_filter_id.
  - now destruct w.
  - intros key x Hx. cbn [fst].
    destruct (MemFS.under path key) eqn:E; [|exact I].
    rewrite (Habsent key E) in Hx. discriminate.
Qed.

(** [fs.unlink] of a path that does not exist is rejected. *)
Lemma unlink_absent path (w : MemFS.t) :
  MemFS.files w !! path = None ->
  MemFS.complete (Unlink path) w
  = (Some (mkError "ENOENT" ("no such file or directory, unlink '" +:+ path +:+ "'")), w).
Proof. intros H. unfold MemFS.complete. now rewrite H. Qed.

(** A completed [writeJson] leaves the document in the file, and the
    text of a file holding an object with members opens a brace and puts
    each member on a line of its own behind two spaces. *)
Lemma write_completes path doc n (w w' : MemFS.t) :
  MemFS.complete (WriteJson path doc n) w = (None, w') ->
  MemFS.files w' !! path = Some (MemFS.File (MemFS.Doc doc n)).
Proof.
  unfold MemFS.complete.
  destruct (MemFS.files w !! path) as [[|c]|];
    [discriminate | | destruct (MemFS.parent_is_directory path w); [|discriminate]];
    intros H; inversion H; subst; cbn; apply lookup_insert_eq.
Qed.

Lemma stringify_two_spaces k v members :
  MemFS.JSON_stringify (JObject ((k, v) :: members)) 2 =
  "{" +:+ MemFS.newline +:+ "  "
  +:+ String.concat ("," +:+ MemFS.newline +:+ "  ")
        (map (fun kv => MemFS.quote (fst kv) +:+ ": " +:+ MemFS.stringify_at "  " "  " (snd kv))
             ((k, v) :: members))
  +:+ MemFS.newline +:+ "}".
Proof. reflexivity. Qed.

(** ** The two JSON rewrites *)

Section RewriteFacts.

Context {P : Platform}.
Variable pkg : Package.

Lemma monotone_require path : monotone (require path).
Proof.
  intros s. unfold require.
  destruct (module_require path (env s)); apply extends_emit.
Qed.

(** The write of a JSON file: the document is fixed when the call is
    made, and the promise is awaited. *)
Lemma write_then_await path obj s :
  exists rest,
    trace (snd (bind (fs_writeJson path obj jsonFormat) await s))
    = trace s ++ Issued (next_id s) (WriteJson path (Obj.document obj) 2) :: rest.
Proof.
  unfold bind, fs_writeJson, issue. simpl.
  match goal with |- context [wait_all ?ids ?s1] =>
    destruct (monotone_wait_all ids s1) as [r Hr] end.
  exists r. rewrite Hr. simpl. now rewrite <- List.app_assoc.
Qed.

Lemma gate_object f features members key :
  gate f features (JObject members) key =
  ret (if includes f features
       then match Obj.lookup key members with Some x => Json x | None => Undefined end
       else Undefined).
Proof. unfold gate. now destruct (includes f features). Qed.

Lemma writeManifestJson_object cloneDir projectName features members s :
  module_require (cloneDir +:+ "/angular/src/manifest.json") (env s) = inr (JObject members) ->
  writeManifestJson pkg cloneDir projectName features s
  = bind (fs_writeJson (cloneDir +:+ "/angular/src/manifest.json")
            (merged_manifest pkg projectName features members) jsonFormat)
         await
         (emit (Required (cloneDir +:+ "/angular/src/manifest.json")) s).
Proof.
  intros Hreq. unfold writeManifestJson.
  unfold bind at 1. unfold require. rewrite Hreq.
  rewrite !gate_object. reflexivity.
Qed.

Lemma writePackageJson_object cloneDir projectName members s :
  module_require (cloneDir +:+ "/package.json") (env s) = inr (JObject members) ->
  writePackageJson pkg cloneDir projectName s
  = bind (fs_writeJson (cloneDir +:+ "/package.json")
            (Obj.assign (Obj.assign [] (Obj.own_enumerable (JObject members)))
               [("name", Json (JString projectName));
                ("description", Json (JString ("Generated with " +:+ name pkg)));
                ("author", Undefined)])
            jsonFormat)
         await
         (emit (Required (cloneDir +:+ "/package.json")) s).
Proof.
  intros Hreq. unfold writePackageJson.
  unfold bind at 1. unfold require. now rewrite Hreq.
Qed.

(** Reading a key of the written manifest back from the object. *)
Lemma member_merged_manifest projectName features members k :
  List.NoDup (Obj.keys members) ->
  member k (Obj.document (merged_manifest pkg projectName features members)) =
  match Obj.lookup k (merged_manifest pkg projectName features members) with
  | Some (Json v) => Some v
  | _ => None
  end.
Proof.
  intros Hnd. unfold Obj.document, member. apply lookup_serializable.
  unfold merged_manifest. apply NoDup_assign. apply NoDup_assign. constructor.
Qed.

End RewriteFacts.

#[export] Hint Resolve monotone_require : mono.

Ltac peel_defines :=
  repeat first
    [ rewrite lookup_define_eq
    | rewrite lookup_define_ne by (first [discriminate | congruence | auto]) ].

Section ManifestFacts.

Context {P : Platform}.
Variable pkg : Package.

Lemma lookup_merged_gated projectName features members k f :
  List.NoDup (Obj.keys members) ->
  List.In (k, f) gated ->
  Obj.lookup k (merged_manifest pkg projectName features members) =
  Some (if includes f features
        then match Obj.lookup k members with Some x => Json x | None => Undefined end
        else Undefined).
Proof.
  intros Hnd Hin. unfold merged_manifest. rewrite (spread_object _ Hnd).
  unfold Obj.assign. cbn [fold_left fst snd].
  simpl in Hin. destruct Hin as [E|[E|[E|[]]]]; inversion E; subst; now peel_defines.
Qed.

Lemma lookup_merged_other projectName features members k :
  List.NoDup (Obj.keys members) ->
  ~ List.In k manifest_keys ->
  Obj.lookup k (merged_manifest pkg projectName features members) =
  option_map Json (Obj.lookup k members).
Proof.
  intros Hnd Hout. unfold merged_manifest. rewrite (spread_object _ Hnd).
  unfold Obj.assign. cbn [fold_left fst snd].
  simpl in Hout.
  assert ("name" <> k /\ "short_name" <> k /\ "description" <> k /\
          "browser_action" <> k /\ "options_page" <> k /\ "chrome_url_overrides" <> k)
    as (H1 & H2 & H3 & H4 & H5 & H6) by tauto.
  peel_defines. apply lookup_own_enumerable_object.
Qed.

(** C1. Feature gating of the manifest is exact: when the current
    manifest is an object holding the three gated keys, the document
    written by [writeManifestJson] has each gated key exactly when its
    feature is selected, with the value of the current manifest; a key
    whose feature is not selected is missing from the document.  With
    the features [TAB] only, [chrome_url_overrides] is there and
    [browser_action] and [options_page] are not. *)
Theorem manifest_feature_gating
  (cloneDir projectName : string) (features : list Feature)
  (members : list (string * json)) (s : State) :
  module_require (cloneDir +:+ "/angular/src/manifest.json") (env s) = inr (JObject members) ->
  List.NoDup (Obj.keys members) ->
  (forall k f, List.In (k, f) gated -> List.In k (Obj.keys members)) ->
  exists doc rest,
    trace (snd (writeManifestJson pkg cloneDir projectName features s))
    = trace s ++ Required (cloneDir +:+ "/angular/src/manifest.json")
        :: Issued (next_id s) (WriteJson (cloneDir +:+ "/angular/src/manifest.json") doc 2)
        :: rest
    /\ (forall k f, List.In (k, f) gated ->
          (has_key k doc <-> List.In f features)
          /\ (List.In f features -> member k doc = member k (JObject members))
          /\ (~ List.In f features -> member k doc = None))
    /\ (features = [TAB] ->
          member "chrome_url_overrides" doc = member "chrome_url_overrides" (JObject members)
          /\ has_key "chrome_url_overrides" doc
          /\ ~ has_key "browser_action" doc
          /\ ~ has_key "options_page" doc).
Proof.
  intros Hreq Hnd Hkeys.
  rewrite (writeManifestJson_object pkg _ _ _ _ _ Hreq).
  destruct (write_then_await (cloneDir +:+ "/angular/src/manifest.json")
              (merged_manifest pkg projectName features members)
              (emit (Required (cloneDir +:+ "/angular/src/manifest.json")) s))
    as [rest Hrest].
  exists (Obj.document (merged_manifest pkg projectName features members)), rest.
  assert (Hgate : forall k f, List.In (k, f) gated ->
            (has_key k (Obj.document (merged_manifest pkg projectName features members))
               <-> List.In f features)
            /\ (List.In f features ->
                member k (Obj.document (merged_manifest pkg projectName features members))
                = member k (JObject members))
            /\ (~ List.In f features ->
                member k (Obj.document (merged_manifest pkg projectName features members))
                = None)).
  { intros k f Hin.
    destruct (keys_lookup_Some _ _ (Hkeys k f Hin)) as [x Hx].
    rewrite has_key_member, (member_merged_manifest pkg _ _ _ _ Hnd).
    rewrite (lookup_merged_gated _ _ _ _ _ Hnd Hin), Hx.
    rewrite <- includes_In.
    destruct (includes f features); simpl; rewrite ?Hx;
      repeat split; intros; congruence. }
  split; [|split].
  - rewrite Hrest. simpl. now rewrite <- List.app_assoc.
  - exact Hgate.
  - intros ->.
    destruct (Hgate "chrome_url_overrides" TAB) as (Hc1 & Hc2 & _); [simpl; tauto|].
    destruct (Hgate "browser_action" POPUP) as (Hb1 & _); [simpl; tauto|].
    destruct (Hgate "options_page" OPTIONS) as (Ho1 & _); [simpl; tauto|].
    repeat split.
    + apply Hc2. now left.
    + apply Hc1. now left.
    + rewrite Hb1. simpl. intros [E|[]]. discriminate.
    + rewrite Ho1. simpl. intros [E|[]]. discriminate.
Qed.

(** C2. The manifest merge leaves unrelated keys alone: a key of the
    current manifest that is none of name, short_name, description,
    browser_action, options_page and chrome_url_overrides is in the
    written document with the value it had, whatever the features. *)
Theorem manifest_unrelated_keys_unchanged
  (cloneDir projectName : string) (features : list Feature)
  (members : list (string * json)) (s : State) (k : string) (v : json) :
  module_require (cloneDir +:+ "/angular/src/manifest.json") (env s) = inr (JObject members) ->
  List.NoDup (Obj.keys members) ->
  ~ List.In k manifest_keys ->
  member k (JObject members) = Some v ->
  exists doc rest,
    trace (snd (writeManifestJson pkg cloneDir projectName features s))
    = trace s ++ Required (cloneDir +:+ "/angular/src/manifest.json")
        :: Issued (next_id s) (WriteJson (cloneDir +:+ "/angular/src/manifest.json") doc 2)
        :: rest
    /\ member k doc = Some v.
Proof.
  intros Hreq Hnd Hout Hv.
  rewrite (writeManifestJson_object pkg _ _ _ _ _ Hreq).
  destruct (write_then_await (cloneDir +:+ "/angular/src/manifest.json")
              (merged_manifest pkg projectName features members)
              (emit (Required (cloneDir +:+ "/angular/src/manifest.json")) s))
    as [rest Hrest].
  exists (Obj.document (merged_manifest pkg projectName features members)), rest.
  split.
  - rewrite Hrest. simpl. now rewrite <- List.app_assoc.
  - rewrite (member_merged_manifest pkg _ _ _ _ Hnd).
    rewrite (lookup_merged_other _ _ _ _ Hnd Hout).
    simpl in Hv. now rewrite Hv.
Qed.

(** C3. The rewrite of package.json: when the current file is an
    object, the document written has [name] equal to the project name
    and [description] equal to "Generated with " followed by the tool's
    package name, has no [author] key, and has every other key with its
    original value; it is written with an indent of 2 spaces. *)
Theorem package_json_rewrite
  (cloneDir projectName : string) (members : list (string * json)) (s : State) :
  module_require (cloneDir +:+ "/package.json") (env s) = inr (JObject members) ->
  List.NoDup (Obj.keys members) ->
  exists doc rest,
    trace (snd (writePackageJson pkg cloneDir projectName s))
    = trace s ++ Required (cloneDir +:+ "/package.json")
        :: Issued (next_id s) (WriteJson (cloneDir +:+ "/package.json") doc 2)
        :: rest
    /\ member "name" doc = Some (JString projectName)
    /\ member "description" doc = Some (JString ("Generated with " +:+ name pkg))
    /\ ~ has_key "author" doc
    /\ (forall k, ~ List.In k ["name"; "description"; "author"] ->
          member k doc = member k (JObject members)).
Proof.
  intros Hreq Hnd.
  rewrite (writePackageJson_object pkg _ _ _ _ Hreq).
  match goal with |- context [fs_writeJson ?path ?obj jsonFormat] =>
    destruct (write_then_await path obj (emit (Required path) s)) as [rest Hrest];
    exists (Obj.document obj), rest;
    assert (Hlk : forall k, member k (Obj.document obj) =
              match Obj.lookup k obj with Some (Json v) => Some v | _ => None end)
      by (intros k; unfold Obj.document, member; apply lookup_serializable;
          apply NoDup_assign, NoDup_assign; constructor)
  end.
  rewrite (spread_object _ Hnd) in Hlk, Hrest |- *.
  unfold Obj.assign in Hlk, Hrest |- *.
  cbn [fold_left fst snd] in Hlk, Hrest |- *.
  split; [|repeat split].
  - rewrite Hrest. simpl. now rewrite <- List.app_assoc.
  - rewrite Hlk. now peel_defines.
  - rewrite Hlk. now peel_defines.
  - rewrite has_key_member, Hlk. peel_defines. tauto.
  - intros k Hout. simpl in Hout.
    assert ("name" <> k /\ "description" <> k /\ "author" <> k) as (H1 & H2 & H3) by tauto.
    rewrite Hlk. peel_defines. rewrite lookup_own_enumerable_object. simpl.
    now destruct (Obj.lookup k members).
Qed.

End ManifestFacts.

Lemma NoDup_sample_manifest : List.NoDup (Obj.keys Sample.manifest).
Proof. repeat constructor; simpl; intuition discriminate. Qed.

Lemma NoDup_sample_package : List.NoDup (Obj.keys Sample.package).
Proof. repeat constructor; simpl; intuition discriminate. Qed.

(** C1 at the sample project, with the features [TAB] only. *)
Lemma manifest_feature_gating_witness :
  MemFS.load "/work/my-app/angular/src/manifest.json" Sample.cloned
  = inr (JObject Sample.manifest)
  /\ List.NoDup (Obj.keys Sample.manifest)
  /\ exists doc,
       member "chrome_url_overrides" doc = Some (JObject [("newtab", JString "index.html?#/tab")])
       /\ ~ has_key "browser_action" doc
       /\ ~ has_key "options_page" doc.
Proof.
  assert (Hreq : MemFS.load "/work/my-app/angular/src/manifest.json" Sample.cloned
                 = inr (JObject Sample.manifest)) by (vm_compute; reflexivity).
  split; [exact Hreq|]. split; [exact NoDup_sample_manifest|].
  destruct (manifest_feature_gating (P := MemFS.platform) Sample.pkg
              "/work/my-app" "my-app" [TAB] Sample.manifest
              (MemFS.start Sample.cloned []) Hreq NoDup_sample_manifest)
    as (doc & rest & _ & _ & Htab).
  - intros k f Hin. simpl in Hin.
    destruct Hin as [E|[E|[E|[]]]]; inversion E; subst; simpl; tauto.
  - exists doc. destruct (Htab eq_refl) as (Hv & _ & Hb & Ho).
    split; [|split]; [rewrite Hv; reflexivity | exact Hb | exact Ho].
Defined.

(** C2 at the sample project: the key [foo] keeps its value. *)
Lemma manifest_unrelated_keys_unchanged_witness :
  MemFS.load "/work/my-app/angular/src/manifest.json" Sample.cloned
  = inr (JObject Sample.manifest)
  /\ List.NoDup (Obj.keys Sample.manifest)
  /\ ~ List.In "foo" manifest_keys
  /\ member "foo" (JObject Sample.manifest) = Some (JString "bar")
  /\ exists doc rest,
       trace (snd (writeManifestJson Sample.pkg "/work/my-app" "my-app" [POPUP; TAB]
                     (MemFS.start Sample.cloned [])))
       = Required "/work/my-app/angular/src/manifest.json"
           :: Issued 0 (WriteJson "/work/my-app/angular/src/manifest.json" doc 2) :: rest
       /\ member "foo" doc = Some (JString "bar").
Proof.
  assert (Hreq : MemFS.load "/work/my-app/angular/src/manifest.json" Sample.cloned
                 = inr (JObject Sample.manifest)) by (vm_compute; reflexivity).
  assert (Hout : ~ List.In "foo" manifest_keys) by (simpl; intuition discriminate).
  repeat split; try assumption; try reflexivity; [exact NoDup_sample_manifest|].
  exact (manifest_unrelated_keys_unchanged (P := MemFS.platform) Sample.pkg
           "/work/my-app" "my-app" [POPUP; TAB] Sample.manifest
           (MemFS.start Sample.cloned []) "foo" (JString "bar")
           Hreq NoDup_sample_manifest Hout eq_refl).
Defined.

(** C3 at the sample project. *)
Lemma package_json_rewrite_witness :
  MemFS.load "/work/my-app/package.json" Sample.cloned = inr (JObject Sample.package)
  /\ List.NoDup (Obj.keys Sample.package)
  /\ exists doc,
       member "name" doc = Some (JString "my-app")
       /\ member "description" doc = Some (JString "Generated with angular-chrome-extension-cli")
       /\ ~ has_key "author" doc
       /\ member "version" doc = Some (JString "1.0.0")
       /\ member "dependencies" doc = Some (JObject [("rxjs", JString "^6.5.0")]).
Proof.
  assert (Hreq : MemFS.load "/work/my-app/package.json" Sample.cloned
                 = inr (JObject Sample.package)) by (vm_compute; reflexivity).
  split; [exact Hreq|]. split; [exact NoDup_sample_package|].
  destruct (package_json_rewrite (P := MemFS.platform) Sample.pkg
              "/work/my-app" "my-app" Sample.package
              (MemFS.start Sample.cloned []) Hreq NoDup_sample_package)
    as (doc & rest & _ & Hname & Hdesc & Hauthor & Hother).
  exists doc. repeat split; try assumption.
  - rewrite Hother; [reflexivity | simpl; intuition discriminate].
  - rewrite Hother; [reflexivity | simpl; intuition discriminate].
Defined.

(** The text of the two files after a whole run on the sample
    template: pretty-printed, two spaces a level, [author] and the
    unselected [options_page] gone. *)
Example generated_files_text :
  let w := env (snd (generate Sample.pkg "my-app" [POPUP; TAB]
                       (MemFS.start Sample.fresh []))) in
  let text path :=
    match MemFS.files w !! path with
    | Some (MemFS.File c) => MemFS.file_text c
    | _ => ""
    end in
  let q := String MemFS.dquote "" in
  let nl := MemFS.newline in
  text "/work/my-app/package.json" =
    "{" +:+ nl +:+
    "  " +:+ q +:+ "name" +:+ q +:+ ": " +:+ q +:+ "my-app" +:+ q +:+ "," +:+ nl +:+
    "  " +:+ q +:+ "version" +:+ q +:+ ": " +:+ q +:+ "1.0.0" +:+ q +:+ "," +:+ nl +:+
    "  " +:+ q +:+ "dependencies" +:+ q +:+ ": {" +:+ nl +:+
    "    " +:+ q +:+ "rxjs" +:+ q +:+ ": " +:+ q +:+ "^6.5.0" +:+ q +:+ nl +:+
    "  }," +:+ nl +:+
    "  " +:+ q +:+ "description" +:+ q +:+ ": " +:+ q
         +:+ "Generated with angular-chrome-extension-cli" +:+ q +:+ nl +:+
    "}" +:+ nl
  /\ text "/work/my-app/angular/src/manifest.json" =
    "{" +:+ nl +:+
    "  " +:+ q +:+ "manifest_version" +:+ q +:+ ": 2," +:+ nl +:+
    "  " +:+ q +:+ "browser_action" +:+ q +:+ ": {" +:+ nl +:+
    "    " +:+ q +:+ "default_popup" +:+ q +:+ ": " +:+ q +:+ "index.html?#/popup" +:+ q +:+ nl +:+
    "  }," +:+ nl +:+
    "  " +:+ q +:+ "chrome_url_overrides" +:+ q +:+ ": {" +:+ nl +:+
    "    " +:+ q +:+ "newtab" +:+ q +:+ ": " +:+ q +:+ "index.html?#/tab" +:+ q +:+ nl +:+
    "  }," +:+ nl +:+
    "  " +:+ q +:+ "foo" +:+ q +:+ ": " +:+ q +:+ "bar" +:+ q +:+ "," +:+ nl +:+
    "  " +:+ q +:+ "name" +:+ q +:+ ": " +:+ q +:+ "my-app" +:+ q +:+ "," +:+ nl +:+
    "  " +:+ q +:+ "short_name" +:+ q +:+ ": " +:+ q +:+ "my-app" +:+ q +:+ "," +:+ nl +:+
    "  " +:+ q +:+ "description" +:+ q +:+ ": " +:+ q
         +:+ "Generated with angular-chrome-extension-cli" +:+ q +:+ nl +:+
    "}" +:+ nl.
Proof. vm_compute. split; reflexivity. Qed.

(** ** The validators *)

Section ValidatorFacts.

Context {P : Platform}.

(** C5. [validateFeatures] logs an error and exits the process with
    status 1 exactly when the feature list is empty; on any other list
    it returns and leaves the state as it was. *)
Theorem validateFeatures_outcome (features : list Feature) (s : State) :
  validateFeatures features s =
  match features with
  | [] => (Exited 1, emit (LogError (Message "You must select at least 1 feature")) s)
  | _ :: _ => (Returned tt, s)
  end.
Proof. destruct features; reflexivity. Qed.

(** C4, as the code has it.  A name is rejected on pattern grounds
    exactly when it is not a valid name; a valid name is rejected as
    already existing exactly when the path [<cwd>/<name>] exists,
    whatever is there; a rejection logs its message and exits with
    status 1, and otherwise [validateName] returns. *)
Theorem validateName_outcome (name : string) (s : State) :
  let dir := process_cwd (env s) +:+ "/" +:+ name in
  let s' := snd (fs_pathExists_await dir s) in
  (invalidProjectName name = false <-> ValidProjectName name)
  /\ validateName name s =
     if invalidProjectName name
     then (Exited 1,
           emit (LogError (Message "Invalid project name, must match: /^[a-z0-9-_]+$/")) s)
     else if fs_pathExists dir (env s')
          then (Exited 1,
                emit (LogError (Message ("Project '" +:+ name +:+ "' already exists"))) s')
          else (Returned tt, s').
Proof.
  cbv zeta. split; [apply invalidProjectName_spec|].
  unfold validateName, bind, existsAsync, getProjectDir, bind.
  destruct (invalidProjectName name); [reflexivity|].
  cbn [ret]. unfold fs_pathExists_await.
  destruct (next_turn s) as [turn s1]. rewrite idle_warn. cbn [snd].
  now destruct (fs_pathExists _ _).
Qed.

End ValidatorFacts.

(** C4 as the claim states it fails on a regular file: [my-app] is a
    valid name and no directory [/work/my-app] exists, yet
    [validateName] rejects the name as already existing, because a
    file of that name is there. *)
Lemma validateName_file_counterexample :
  invalidProjectName "my-app" = false
  /\ MemFS.is_directory "/work/my-app" Sample.with_file = false
  /\ fst (validateName "my-app" (MemFS.start Sample.with_file [])) = Exited 1
  /\ trace (snd (validateName "my-app" (MemFS.start Sample.with_file [])))
     = [LogError (Message "Project 'my-app' already exists")].
Proof. repeat split; vm_compute; reflexivity. Qed.

(** The scenarios of the spec: [My App] is rejected on pattern
    grounds, [my-app] passes in an empty working directory. *)
Example validateName_scenarios :
  fst (validateName "My App" (MemFS.start Sample.fresh [])) = Exited 1
  /\ trace (snd (validateName "My App" (MemFS.start Sample.fresh [])))
     = [LogError (Message "Invalid project name, must match: /^[a-z0-9-_]+$/")]
  /\ fst (validateName "my-app" (MemFS.start Sample.fresh [])) = Returned tt
  /\ trace (snd (validateName "my-app" (MemFS.start Sample.fresh []))) = [].
Proof. repeat split; vm_compute; reflexivity. Qed.

(** ** Installation *)

Section InstallFacts.

Context {P : Platform}.

(** C10. [process.chdir] runs before the [try]: when it throws,
    [install] throws the same error to its caller and has neither
    logged anything nor started the spinner or the command. *)
Theorem install_chdir_failure_escapes (projectName : string) (s : State) (e : JsError) :
  process_chdir (process_cwd (env s) +:+ "/" +:+ projectName) (env s) = inl e ->
  install projectName s = (Threw e, s).
Proof.
  intros H. unfold install, bind, getProjectDir, chdir. now rewrite H.
Qed.

(** C8. When the directory change has succeeded, [install] returns
    normally in every case; and when the promise of [npm ci] rejects
    with [e], the command having failed or not even started,
    [install] has logged [e] and stopped the spinner. *)
Theorem install_catches_failed_command (projectName : string) (s : State) (w : world) :
  process_chdir (process_cwd (env s) +:+ "/" +:+ projectName) (env s) = inr w ->
  fst (install projectName s) = Returned tt
  /\ forall e s2,
       execAsync "npm ci" (emit (SpinnerStart "installing dependencies...") (set_env w s))
       = (Threw e, s2) ->
       install projectName s
       = (Returned tt, emit (SpinnerStop None) (emit (LogError (Thrown e)) s2)).
Proof.
  intros Hcd.
  assert (Hne : never_exits (execAsync "npm ci"))
    by (unfold execAsync; auto with noexit).
  unfold install, bind, getProjectDir, chdir, try_catch. rewrite Hcd.
  unfold spinner_start, tell. cbn [fst snd].
  specialize (Hne (emit (SpinnerStart "installing dependencies...") (set_env w s))).
  destruct (execAsync "npm ci" (emit (SpinnerStart "installing dependencies...") (set_env w s)))
    as [[[]|e|c] s2]; cbn in *.
  - split; [reflexivity | discriminate].
  - split; [reflexivity|]. intros e' s2' H. now inversion H.
  - exfalso. now apply (Hne c).
Qed.

End InstallFacts.

(** C8 on a generated project whose [npm ci] fails. *)
Lemma install_catches_failed_command_witness :
  MemFS.chdir "/work/my-app" Sample.generated
  = inr (MemFS.mk "/work/my-app" (MemFS.files Sample.generated)
           (MemFS.remotes Sample.generated) (MemFS.failing_commands Sample.generated))
  /\ fst (install "my-app" (MemFS.start Sample.generated [])) = Returned tt
  /\ trace (snd (install "my-app" (MemFS.start Sample.generated [])))
     = [SpinnerStart "installing dependencies...";
        Issued 0 (Exec "npm ci");
        Settled 0 (Exec "npm ci") (Some (mkError "Error" "Command failed: npm ci"));
        LogError (Thrown (mkError "Error" "Command failed: npm ci"));
        SpinnerStop None].
Proof.
  pose (w := MemFS.mk "/work/my-app" (MemFS.files Sample.generated)
               (MemFS.remotes Sample.generated) (MemFS.failing_commands Sample.generated)).
  pose (exec := execAsync (P := MemFS.platform) "npm ci"
                  (emit (SpinnerStart "installing dependencies...")
                     (set_env (P := MemFS.platform) w (MemFS.start Sample.generated [])))).
  assert (Hcd : MemFS.chdir "/work/my-app" Sample.generated = inr w)
    by (vm_compute; reflexivity).
  assert (Hthrew : fst exec = Threw (mkError "Error" "Command failed: npm ci"))
    by (vm_compute; reflexivity).
  assert (Htrace : trace (snd exec)
    = [SpinnerStart "installing dependencies...";
       Issued 0 (Exec "npm ci");
       Settled 0 (Exec "npm ci") (Some (mkError "Error" "Command failed: npm ci"))])
    by (vm_compute; reflexivity).
  destruct (install_catches_failed_command (P := MemFS.platform) "my-app"
              (MemFS.start Sample.generated []) w Hcd) as [Hret Hlog].
  split; [exact Hcd|]. split; [exact Hret|].
  rewrite (Hlog _ (snd exec) (pair_with_fst exec _ Hthrew)).
  unfold emit. cbn [snd trace]. rewrite Htrace. reflexivity.
Defined.

(** C10 in a working directory without the project. *)
Lemma install_chdir_failure_escapes_witness :
  MemFS.chdir "/work/my-app" Sample.fresh
  = inl (mkError "ENOENT" "no such file or directory, chdir '/work/my-app'")
  /\ install "my-app" (MemFS.start Sample.fresh [])
     = (Threw (mkError "ENOENT" "no such file or directory, chdir '/work/my-app'"),
        MemFS.start Sample.fresh []).
Proof.
  assert (Hcd : MemFS.chdir "/work/my-app" Sample.fresh
    = inl (mkError "ENOENT" "no such file or directory, chdir '/work/my-app'"))
    by (vm_compute; reflexivity).
  split; [exact Hcd|].
  exact (install_chdir_failure_escapes (P := MemFS.platform) "my-app"
           (MemFS.start Sample.fresh []) _ Hcd).
Defined.

(** ** Generation *)

Section GenerateFacts.

Context {P : Platform}.
Variable pkg : Package.

Lemma monotone_writePackageJson dir projectName :
  monotone (writePackageJson pkg dir projectName).
Proof. unfold writePackageJson, fs_writeJson. auto 20 with mono. Qed.

Lemma monotone_writeManifestJson dir projectName features :
  monotone (writeManifestJson pkg dir projectName features).
Proof. unfold writeManifestJson, fs_writeJson, gate. auto 30 with mono. Qed.

Lemma never_exits_writePackageJson dir projectName :
  never_exits (writePackageJson pkg dir projectName).
Proof. unfold writePackageJson, fs_writeJson. auto 20 with noexit. Qed.

Lemma never_exits_writeManifestJson dir projectName features :
  never_exits (writeManifestJson pkg dir projectName features).
Proof. unfold writeManifestJson, fs_writeJson, gate. auto 30 with noexit. Qed.

Lemma monotone_report e : monotone (report e).
Proof. unfold report, log_error, spinner_stop. auto with mono. Qed.

(** The clean step starts its three removals and is over: the
    [Promise.all] it returns is given two arrays, no promise, and so
    waits for nothing. *)
Lemma cleanDir_run dir s :
  cleanDir dir s
  = (Returned [VArray [VPromise (next_id s); VPromise (S (next_id s))];
               VArray [VPromise (S (S (next_id s)))]],
     removals_started dir s).
Proof.
  unfold cleanDir, bind, Promise_all. simpl.
  rewrite wait_all_nil. unfold removals_started. simpl.
  now rewrite <- !List.app_assoc.
Qed.

(** Once the clone has succeeded, the rest of [generate] is the two
    rewrites run in the state where the removals have just been
    started, under the [catch] block. *)
Lemma generate_after_clone projectName features s s1 :
  let dir := process_cwd (env s) +:+ "/" +:+ projectName in
  bind (git_clone (url (repository pkg)) dir) await
       (emit (SpinnerStart "creating extension...") s) = (Returned tt, s1) ->
  generate pkg projectName features s
  = try_catch (rewrite_steps pkg dir projectName features) report (removals_started dir s1).
Proof.
  cbv zeta. intros Hclone.
  unfold generate, getProjectDir. unfold bind at 1. unfold try_catch.
  rewrite (bind_returned (spinner_start "creating extension...") _ s tt
             (emit (SpinnerStart "creating extension...") s) eq_refl).
  rewrite (bind_returned _ _ _ _ _ Hclone).
  assert (Hclean : bind (cleanDir (process_cwd (env s) +:+ "/" +:+ projectName))
                        (fun _ => ret tt) s1
                   = (Returned tt,
                      removals_started (process_cwd (env s) +:+ "/" +:+ projectName) s1))
    by (unfold bind; now rewrite cleanDir_run).
  rewrite (bind_returned _ _ _ _ _ Hclean).
  reflexivity.
Qed.

(** The part of C7 that holds: a failure of the clone, or of one of
    the two rewrites, is caught, logged, and ends the run without any
    further step. *)
Lemma generate_catches_clone_failure projectName features s s1 e :
  bind (git_clone (url (repository pkg)) (process_cwd (env s) +:+ "/" +:+ projectName)) await
       (emit (SpinnerStart "creating extension...") s) = (Threw e, s1) ->
  generate pkg projectName features s
  = (Returned tt, emit (SpinnerStop None) (emit (LogError (Thrown e)) s1)).
Proof.
  intros Hclone.
  unfold generate, getProjectDir. unfold bind at 1. unfold try_catch.
  rewrite (bind_returned (spinner_start "creating extension...") _ s tt
             (emit (SpinnerStart "creating extension...") s) eq_refl).
  now rewrite (bind_threw _ _ _ _ _ Hclone).
Qed.

Lemma generate_catches_rewrite_failure projectName features s s1 s2 e :
  let dir := process_cwd (env s) +:+ "/" +:+ projectName in
  bind (git_clone (url (repository pkg)) dir) await
       (emit (SpinnerStart "creating extension...") s) = (Returned tt, s1) ->
  rewrite_steps pkg dir projectName features (removals_started dir s1) = (Threw e, s2) ->
  generate pkg projectName features s
  = (Returned tt, emit (SpinnerStop None) (emit (LogError (Thrown e)) s2)).
Proof.
  cbv zeta. intros Hclone Hsteps.
  rewrite (generate_after_clone _ _ _ _ Hclone). unfold try_catch. now rewrite Hsteps.
Qed.

Lemma generate_returns projectName features s :
  fst (generate pkg projectName features s) = Returned tt.
Proof.
  unfold generate, getProjectDir. unfold bind at 1.
  match goal with |- fst (try_catch ?body ?h ?s0) = _ =>
    assert (Hne : never_exits body)
      by (unfold cleanDir, spinner_start, spinner_stop, git_clone, fs_remove, fs_unlink;
          simpl map_calls;
          auto 30 using never_exits_writePackageJson, never_exits_writeManifestJson
            with noexit);
    unfold try_catch; specialize (Hne s0); destruct (body s0) as [[[]|e|c] s']
  end; simpl in *.
  - reflexivity.
  - reflexivity.
  - exfalso. now apply (Hne c).
Qed.

(** What the rewrites add to the trace starts with the loading of
    package.json. *)
Lemma rewrite_steps_trace dir projectName features s :
  exists rest,
    trace (snd (try_catch (rewrite_steps pkg dir projectName features) report s))
    = trace s ++ Required (dir +:+ "/package.json") :: rest.
Proof.
  assert (Hext : extends (emit (Required (dir +:+ "/package.json")) s)
                   (snd (try_catch (rewrite_steps pkg dir projectName features) report s))).
  { unfold rewrite_steps, writePackageJson, try_catch.
    unfold bind at 1. unfold bind at 1. unfold require.
    destruct (module_require (dir +:+ "/package.json") (env s)) as [e|doc].
    - apply monotone_report.
    - match goal with |- context [bind ?m ?k ?s0] =>
        pose proof (monotone_bind m k) as Hm;
        destruct (bind m k s0) as [[a|e|c] s1] eqn:E
      end;
      (assert (Hs1 : extends (emit (Required (dir +:+ "/package.json")) s) s1)
        by (match type of E with ?lhs = _ =>
              replace s1 with (snd lhs) by now rewrite E end;
            apply Hm; [unfold fs_writeJson; auto with mono | intro; auto with mono])).
      + match goal with |- context [bind ?m ?k s1] =>
          pose proof (monotone_bind m k) as Hm2;
          pose proof (monotone_report) as Hr;
          assert (Hm3 : monotone (bind m k))
            by (apply Hm2; [apply monotone_writeManifestJson
                           | intro; unfold spinner_stop; auto with mono]);
          specialize (Hm3 s1);
          destruct (bind m k s1) as [[a'|e'|c'] s2]
        end; simpl in *.
        * eapply extends_trans; eassumption.
        * eapply extends_trans; [eassumption|].
          eapply extends_trans; [eassumption | apply monotone_report].
        * eapply extends_trans; eassumption.
      + simpl. eapply extends_trans; [eassumption | apply monotone_report].
      + simpl. assumption. }
  destruct Hext as [r Hr]. exists r. rewrite Hr. simpl. now rewrite <- List.app_assoc.
Qed.

End GenerateFacts.

(** ** What removals report has no bearing on generation *)

Section ForgivingFacts.

Context {P : Platform}.

Lemma agree_weaken ids ids' done done' :
  (forall i, List.In i ids' -> List.In i ids) ->
  agree ids done done' -> agree ids' done done'.
Proof.
  intros Hsub H. induction H as [|a b d d' [Hfst Hres] _ IH]; constructor; auto.
Qed.

Lemma agree_app ids d1 d1' d2 d2' :
  agree ids d1 d1' -> agree ids d2 d2' -> agree ids (d1 ++ d2) (d1' ++ d2').
Proof. apply List.Forall2_app. Qed.

Lemma first_rejection_agree ids done done' :
  agree ids done done' -> first_rejection ids done = first_rejection ids done'.
Proof.
  induction 1 as [|[i r] [i' r'] d d' [Hfst Hres] _ IH]; [reflexivity|].
  simpl in Hfst, Hres. subst i'. simpl.
  destruct (existsb (Nat.eqb i) ids) eqn:E.
  - assert (Hin : List.In i ids).
    { apply List.existsb_exists in E as [k [Hk Hik]].
      apply Nat.eqb_eq in Hik. now subst. }
    rewrite <- (Hres Hin). destruct r; [reflexivity | exact IH].
  - destruct r, r'; exact IH.
Qed.

Lemma is_settled_agree ids i (s : @State P) (s' : @State (forgiving P)) :
  agree ids (settled s) (settled s') -> is_settled i s = is_settled i s'.
Proof.
  unfold is_settled. induction 1 as [|a b d d' [Hfst _] _ IH]; [reflexivity|].
  simpl. now rewrite Hfst, IH.
Qed.

Lemma all_settled_agree ids todo (s : @State P) (s' : @State (forgiving P)) :
  agree ids (settled s) (settled s') ->
  forallb (fun i => is_settled i s) todo = forallb (fun i => is_settled i s') todo.
Proof.
  intros Hag. induction todo as [|i todo IH]; simpl; [reflexivity|].
  now rewrite IH, (is_settled_agree ids i s s' Hag).
Qed.

Lemma find_op_In i ops op : find_op i ops = Some op -> List.In (i, op) ops.
Proof.
  induction ops as [|[j o] ops IH]; simpl; [discriminate|].
  destruct (Nat.eqb_spec i j) as [->|Hne].
  - intros H. inversion H. now left.
  - intros H. right. now apply IH.
Qed.

Lemma In_drop_op i j op ops : List.In (i, op) (drop_op j ops) -> List.In (i, op) ops.
Proof.
  induction ops as [|[k o] ops IH]; simpl; [tauto|].
  destruct (Nat.eqb j k); simpl; intuition.
Qed.

(** The completion of an operation keeps two states similar; the
    promises [ids], which stand for no removal, keep equal results. *)
Lemma settle_similar ids j s s' :
  similar s s' -> agree ids (settled s) (settled s') -> guarded ids s ->
  similar (settle j s) (settle j s')
  /\ agree ids (settled (settle j s)) (settled (settle j s'))
  /\ guarded ids (settle j s).
Proof.
  intros [Henv Hpen Hnext Hsch Htr Hset [Hwp Hws]] Hag Hg.
  unfold settle. rewrite <- Hpen.
  destruct (find_op j (pending s)) as [op|] eqn:Hop.
  2:{ repeat split; assumption. }
  apply find_op_In in Hop.
  assert (Hio : @io_complete (forgiving P) op (env s')
                = if is_removal op then (None, snd (@io_complete P op (env s)))
                  else @io_complete P op (env s))
    by (rewrite <- Henv; reflexivity).
  rewrite Hio. clear Hio.
  destruct (@io_complete P op (env s)) as [result w] eqn:Hres.
  assert (Hbound : j < next_id s) by (eapply Hwp; exact Hop).
  assert (Hwf : well_formed
                  (mkState w (trace s ++ [Settled j op result]) (drop_op j (pending s))
                     (settled s ++ [(j, result)]) (next_id s) (schedule s))).
  { split; cbn [pending settled next_id].
    - intros i o Hin. apply (Hwp i o). now apply In_drop_op in Hin.
    - intros i r Hin. apply List.in_app_iff in Hin as [Hin|[Hin|[]]].
      + now apply (Hws i r).
      + now inversion Hin; subst. }
  assert (Hguard : guarded ids
                     (mkState w (trace s ++ [Settled j op result]) (drop_op j (pending s))
                        (settled s ++ [(j, result)]) (next_id s) (schedule s))).
  { intros i o Hi Hin. cbn [pending] in Hin. apply (Hg i o Hi). now apply In_drop_op in Hin. }
  destruct (is_removal op) eqn:Hrem; cbn [snd].
  - split; [|split]; [constructor; cbn; try assumption; try reflexivity | | exact Hguard].
    + rewrite !List.map_app, Htr. cbn. now rewrite Hrem.
    + apply agree_app; [exact Hset|]. constructor; [|constructor]. split; [reflexivity | intros []].
    + apply agree_app; [exact Hag|]. constructor; [|constructor]. split; [reflexivity|].
      cbn. intros Hin. rewrite (Hg j op Hin Hop) in Hrem. discriminate.
  - split; [|split]; [constructor; cbn; try assumption; try reflexivity | | exact Hguard].
    + rewrite !List.map_app, Htr. reflexivity.
    + apply agree_app; [exact Hset|]. constructor; [|constructor]. split; reflexivity.
    + apply agree_app; [exact Hag|]. constructor; [|constructor]. split; reflexivity.
Qed.

Lemma force_similar ids todo s s' :
  (forall i, List.In i todo -> List.In i ids) ->
  similar s s' -> agree ids (settled s) (settled s') -> guarded ids s ->
  fst (force todo s) = fst (force todo s')
  /\ similar (snd (force todo s)) (snd (force todo s')).
Proof.
  revert s s'. induction todo as [|i todo IH]; intros s s' Hsub Hsim Hag Hg.
  - simpl. now split.
  - cbn [force].
    destruct (settle_similar ids i s s' Hsim Hag Hg) as (Hsim1 & Hag1 & Hg1).
    assert (Hone : agree [i] (settled (settle i s)) (settled (settle i s'))).
    { eapply agree_weaken; [|exact Hag1]. intros k [<-|[]]. apply Hsub. now left. }
    rewrite <- (first_rejection_agree _ _ _ Hone).
    destruct (first_rejection [i] (settled (settle i s))); [now split|].
    apply IH; auto. intros k Hk. apply Hsub. now right.
Qed.

Lemma drive_similar ids turn s s' :
  similar s s' -> agree ids (settled s) (settled s') -> guarded ids s ->
  fst (drive ids turn s) = fst (drive ids turn s')
  /\ similar (snd (drive ids turn s)) (snd (drive ids turn s')).
Proof.
  revert s s'. induction turn as [|j turn IH]; intros s s' Hsim Hag Hg; cbn [drive];
    rewrite <- (first_rejection_agree _ _ _ Hag);
    destruct (first_rejection ids (settled s)); try (now split);
    rewrite (all_settled_agree ids ids s s' Hag);
    destruct (forallb (fun i => is_settled i s') ids); try (now split).
  - apply (force_similar ids); auto.
  - destruct (settle_similar ids j s s' Hsim Hag Hg) as (Hsim1 & Hag1 & Hg1).
    now apply IH.
Qed.

Lemma wait_all_similar ids s s' :
  similar s s' -> agree ids (settled s) (settled s') -> guarded ids s ->
  fst (wait_all ids s) = fst (wait_all ids s')
  /\ similar (snd (wait_all ids s)) (snd (wait_all ids s')).
Proof.
  intros Hsim Hag Hg. unfold wait_all.
  rewrite <- (first_rejection_agree _ _ _ Hag).
  destruct (first_rejection ids (settled s)); [now split|].
  rewrite (all_settled_agree ids ids s s' Hag).
  destruct (forallb (fun i => is_settled i s') ids); [now split|].
  unfold next_turn. rewrite <- (sim_schedule _ _ Hsim).
  destruct (schedule s) as [|turn later].
  - now apply drive_similar.
  - apply drive_similar.
    + destruct Hsim. constructor; cbn; try assumption; reflexivity.
    + exact Hag.
    + exact Hg.
Qed.

Lemma sim_ret {X} (x : X) : sim_prog (ret x) (ret x).
Proof. intros s s' H. now split. Qed.

Lemma sim_bind {X Y} (m : @M P X) m' (k : X -> @M P Y) k' :
  sim_prog m m' -> (forall x, sim_prog (k x) (k' x)) -> sim_prog (bind m k) (bind m' k').
Proof.
  intros Hm Hk s s' Hsim. unfold bind. destruct (Hm s s' Hsim) as [Hfst Hsnd].
  destruct (m s) as [o s1], (m' s') as [o' s1']. simpl in Hfst, Hsnd. subst o'.
  destruct o; [now apply Hk | now split | now split].
Qed.

Lemma sim_try_catch {X} (m : @M P X) m' (h : JsError -> @M P X) h' :
  sim_prog m m' -> (forall e, sim_prog (h e) (h' e)) ->
  sim_prog (try_catch m h) (try_catch m' h').
Proof.
  intros Hm Hh s s' Hsim. unfold try_catch. destruct (Hm s s' Hsim) as [Hfst Hsnd].
  destruct (m s) as [o s1], (m' s') as [o' s1']. simpl in Hfst, Hsnd. subst o'.
  destruct o; [now split | now apply Hh | now split].
Qed.

Lemma sim_tell ev : sim_prog (tell ev) (tell ev).
Proof.
  intros s s' [Henv Hpen Hnext Hsch Htr Hset Hwf]. split; [reflexivity|].
  constructor; cbn; try assumption. now rewrite !List.map_app, Htr.
Qed.

Lemma sim_lift {X} (r : JsError + X) : sim_prog (lift r) (lift r).
Proof. destruct r; intros s s' H; now split. Qed.

Lemma sim_getProjectDir projectName :
  sim_prog (getProjectDir projectName) (getProjectDir projectName).
Proof.
  intros s s' H. unfold getProjectDir. cbn [fst snd].
  split; [|exact H]. now rewrite <- (sim_env _ _ H).
Qed.

Lemma sim_require path : sim_prog (require path) (require path).
Proof.
  intros s s' H. unfold require.
  change (@module_require (forgiving P) path (env s')) with (@module_require P path (env s')).
  rewrite <- (sim_env _ _ H).
  destruct (sim_tell (Required path) s s' H) as [_ Hemit].
  destruct (module_require path (env s)); split; try reflexivity; exact Hemit.
Qed.

Lemma sim_issue op : sim_prog (issue op) (issue op).
Proof.
  intros s s' [Henv Hpen Hnext Hsch Htr Hset [Hwp Hws]]. unfold issue. cbn [fst snd].
  destruct s as [w tr pe se n sc], s' as [w' tr' pe' se' n' sc']. cbn in *. subst n'.
  split; [reflexivity|].
  constructor; cbn; try assumption; try congruence.
  - now rewrite !List.map_app, Htr.
  - split; cbn.
    + intros i o Hin. apply List.in_app_iff in Hin as [Hin|[Hin|[]]].
      * apply Hwp in Hin. lia.
      * inversion Hin; subst. lia.
    + intros i r Hin. apply Hws in Hin. lia.
Qed.

Lemma agree_fresh n done done' :
  agree [] done done' -> (forall i r, List.In (i, r) done -> i < n) -> agree [n] done done'.
Proof.
  induction 1 as [|[i r] [i' r'] d d' [Hfst _] _ IH]; intros Hb; constructor.
  - split; [exact Hfst|]. cbn. intros [E|[]].
    specialize (Hb i r (or_introl eq_refl)). lia.
  - apply IH. intros k rk Hin. apply (Hb k rk). now right.
Qed.

(** An operation that is not a removal, started and awaited. *)
Lemma sim_issue_await op :
  is_removal op = false -> sim_prog (bind (issue op) await) (bind (issue op) await).
Proof.
  intros Hop s s' Hsim.
  assert (E : forall (Q : Platform) (t : @State Q),
            bind (issue op) await t = wait_all [next_id t] (snd (issue op t)))
    by reflexivity.
  rewrite (E P s), (E (forgiving P) s'), <- (sim_next_id _ _ Hsim).
  destruct (sim_issue op s s' Hsim) as [_ Hsim1].
  destruct Hsim as [_ _ _ _ _ Hset [Hwp Hws]].
  apply wait_all_similar; [exact Hsim1| |].
  - cbn [issue snd settled]. now apply agree_fresh.
  - intros i o [<-|[]] Hin. cbn [issue snd pending] in Hin.
    apply List.in_app_iff in Hin as [Hin|[Hin|[]]].
    + apply Hwp in Hin. lia.
    + now inversion Hin; subst.
Qed.

Lemma sim_Promise_all_no_promise items :
  promise_ids items = [] -> sim_prog (Promise_all items) (Promise_all items).
Proof.
  intros Hids s s' Hsim. unfold Promise_all. rewrite Hids, !wait_all_nil. now split.
Qed.

End ForgivingFacts.

Create HintDb sim discriminated.
#[export] Hint Resolve sim_ret sim_tell sim_lift sim_getProjectDir sim_require
  sim_issue : sim.
#[export] Hint Extern 1 (sim_prog (bind (issue _) _) (bind (issue _) _)) =>
  apply sim_issue_await; reflexivity : sim.
#[export] Hint Extern 2 (sim_prog (bind _ _) (bind _ _)) =>
  apply sim_bind; [| intro] : sim.
#[export] Hint Extern 2 (sim_prog (try_catch _ _) (try_catch _ _)) =>
  apply sim_try_catch; [| intro] : sim.
#[export] Hint Extern 2 (sim_prog (Promise_all _) (Promise_all _)) =>
  apply sim_Promise_all_no_promise; reflexivity : sim.
#[export] Hint Extern 3 (sim_prog (if ?b then _ else _) (if ?b then _ else _)) =>
  destruct b : sim.

Section ForgivingGenerate.

Context {P : Platform}.
Variable pkg : Package.

Lemma similar_on_forgiving (s : @State P) : well_formed s -> similar s (on_forgiving s).
Proof.
  intros Hwf. constructor; try reflexivity; [|exact Hwf].
  unfold on_forgiving. cbn. induction (settled s); constructor; auto.
Qed.

Lemma sim_generate projectName features :
  sim_prog (generate (P := P) pkg projectName features)
           (generate (P := forgiving P) pkg projectName features).
Proof.
  unfold generate, cleanDir, writePackageJson, writeManifestJson, gate,
    git_clone, fs_remove, fs_unlink, fs_writeJson,
    spinner_start, spinner_stop, log_error.
  cbn [map_calls deleteDirs deleteFiles].
  auto 40 with sim.
Qed.

(** The reach of the defect on the lenient runtime: whatever the
    removals of the clean step report, [generate] ends the same way,
    leaves the same world and does the same things as when every
    removal is reported as a success.  No failure of a removal is ever
    seen by [generate]. *)
Lemma removal_reports_do_not_matter projectName features (s : @State P) :
  well_formed s ->
  fst (generate (P := P) pkg projectName features s)
  = fst (generate (P := forgiving P) pkg projectName features (on_forgiving s))
  /\ env (snd (generate (P := P) pkg projectName features s))
     = env (snd (generate (P := forgiving P) pkg projectName features (on_forgiving s)))
  /\ map quiet (trace (snd (generate (P := P) pkg projectName features s)))
     = map quiet (trace (snd (generate (P := forgiving P) pkg projectName features
                                (on_forgiving s)))).
Proof.
  intros Hwf.
  destruct (sim_generate projectName features s (on_forgiving s)
              (similar_on_forgiving s Hwf)) as [Hfst Hsim].
  split; [exact Hfst|]. split; [apply (sim_env _ _ Hsim) | apply (sim_trace _ _ Hsim)].
Qed.

End ForgivingGenerate.

Section GenerateClaims.

Context {P : Platform}.
Variable pkg : Package.

(** C6, what the code does instead.  In every run in which the clone
    succeeds, the three removals of the clean step are started and
    package.json is loaded at once: step 4 begins while all three
    removals are pending, none of them settled.  The claimed barrier
    is not there: [cleanDir] hands [Promise.all] two arrays of
    promises, which it does not wait for. *)
Theorem generate_rewrite_overtakes_removals
  (projectName : string) (features : list Feature) (s s1 : State) :
  let dir := process_cwd (env s) +:+ "/" +:+ projectName in
  bind (git_clone (url (repository pkg)) dir) await
       (emit (SpinnerStart "creating extension...") s) = (Returned tt, s1) ->
  exists rest,
    trace (snd (generate pkg projectName features s))
    = trace s1
      ++ [Issued (next_id s1) (Remove (dir +:+ "/.git"));
          Issued (S (next_id s1)) (Remove (dir +:+ "/cli"));
          Issued (S (S (next_id s1))) (Unlink (dir +:+ "/README.md"));
          Required (dir +:+ "/package.json")]
      ++ rest.
Proof.
  cbv zeta. intros Hclone.
  rewrite (generate_after_clone pkg _ _ _ _ Hclone).
  destruct (rewrite_steps_trace pkg (process_cwd (env s) +:+ "/" +:+ projectName)
              projectName features
              (removals_started (process_cwd (env s) +:+ "/" +:+ projectName) s1))
    as [rest Hrest].
  exists rest. rewrite Hrest. simpl. now rewrite <- List.app_assoc.
Qed.

End GenerateClaims.

(** C6 on the sample template: the removals are started, and the next
    thing that happens is the loading of package.json. *)
Lemma generate_rewrite_overtakes_removals_witness :
  exists rest,
    trace (snd (generate Sample.pkg "my-app" [POPUP] (MemFS.start Sample.fresh [])))
    = [SpinnerStart "creating extension...";
       Issued 0 (Clone "https://github.com/larscom/angular-chrome-extension.git" "/work/my-app");
       Settled 0 (Clone "https://github.com/larscom/angular-chrome-extension.git" "/work/my-app")
         None;
       Issued 1 (Remove "/work/my-app/.git");
       Issued 2 (Remove "/work/my-app/cli");
       Issued 3 (Unlink "/work/my-app/README.md");
       Required "/work/my-app/package.json"]
      ++ rest.
Proof.
  pose (clone := bind (git_clone (url (repository Sample.pkg)) "/work/my-app") await
                   (emit (SpinnerStart "creating extension...")
                         (MemFS.start Sample.fresh []))).
  assert (Hret : fst clone = Returned tt) by (vm_compute; reflexivity).
  assert (Htrace : trace (snd clone)
    = [SpinnerStart "creating extension...";
       Issued 0 (Clone "https://github.com/larscom/angular-chrome-extension.git" "/work/my-app");
       Settled 0 (Clone "https://github.com/larscom/angular-chrome-extension.git" "/work/my-app")
         None]) by (vm_compute; reflexivity).
  assert (Hid : next_id (snd clone) = 1) by (vm_compute; reflexivity).
  destruct (generate_rewrite_overtakes_removals (P := MemFS.platform) Sample.pkg
              "my-app" [POPUP] (MemFS.start Sample.fresh []) (snd clone)
              (pair_with_fst clone _ Hret)) as [rest Hrest].
  exists rest. rewrite Hrest, Htrace, Hid. reflexivity.
Defined.

(** C7 at a template without README: the removal of README.md is
    rejected while [generate] is waiting for the write of
    package.json.  Nothing is logged, the manifest is rewritten all
    the same, and the run ends as a success.  (This on the lenient
    runtime; on the strict one the process is ended at the rejection,
    and nothing is logged either.) *)
Theorem generate_misses_failed_removal :
  let run := generate Sample.pkg "my-app" [POPUP]
               (MemFS.start Sample.fresh_without_readme [[]; [3]]) in
  fst run = Returned tt
  /\ List.In (Settled 3 (Unlink "/work/my-app/README.md")
                (Some (mkError "ENOENT"
                         "no such file or directory, unlink '/work/my-app/README.md'")))
             (trace (snd run))
  /\ (forall a, ~ List.In (LogError a) (trace (snd run)))
  /\ List.In (Required "/work/my-app/angular/src/manifest.json") (trace (snd run))
  /\ List.last (trace (snd run)) (SpinnerStop None)
     = SpinnerStop (Some "done! created extension in: /work/my-app").
Proof.
  vm_compute. repeat split; try tauto.
  intros a H. repeat (destruct H as [H|H]; [discriminate H|]). exact H.
Qed.

(** ** Absent targets of the clean step *)

Section AbsentTargets.

Context {P : Platform} {R : Runtime}.

Lemma first_rejection_fulfilled ids i done :
  first_rejection ids (done ++ [(i, None)]) = first_rejection ids done.
Proof.
  induction done as [|[j [e|]] done IH]; cbn [app first_rejection].
  - reflexivity.
  - now destruct (existsb (Nat.eqb j) ids).
  - exact IH.
Qed.

Lemma wait_for_nothing (s : State) : wait_all [] s = (Returned tt, s).
Proof. unfold wait_all. now rewrite first_rejection_nil. Qed.

Lemma cleanDir_starts dir (s : State) :
  cleanDir dir s
  = (Returned [VArray [VPromise (next_id s); VPromise (S (next_id s))];
               VArray [VPromise (S (S (next_id s)))]],
     removals_started dir s).
Proof.
  unfold cleanDir, bind, Promise_all. simpl.
  rewrite wait_for_nothing. unfold removals_started. simpl.
  now rewrite <- !List.app_assoc.
Qed.


End AbsentTargets.



(** On a template without the two directories the run goes through
    on the runtime of today, whenever the removals complete: the
    removals of the absent directories are fulfilled like the one of
    README.md. *)
Example generate_without_directories_schedules :
  List.Forall
    (fun sched =>
       let run := generate (R := strict) Sample.pkg "my-app" [POPUP; TAB]
                    (MemFS.start Sample.fresh_without_directories sched) in
       fst run = Returned tt
       /\ List.last (trace (snd run)) (SpinnerStop None)
          = SpinnerStop (Some "done! created extension in: /work/my-app")
       /\ List.In (Settled 1 (Remove "/work/my-app/.git") None) (trace (snd run))
       /\ List.In (Settled 2 (Remove "/work/my-app/cli") None) (trace (snd run)))
    [[[]; [1; 2; 3]]; [[]; [3; 2; 1]]; [[]; [2]; [3; 1]]; [[3; 1]; []; [1; 2; 3]]].
Proof.
  repeat (apply List.Forall_cons; [vm_compute; repeat split; tauto|]).
  apply List.Forall_nil.
Qed.

(** On the lenient runtime the run on the template without README
    ends as a success under other orders of completion as well:
    removals before the first write, in between the writes, or not at
    all before the end. *)
Example generate_without_readme_schedules :
  List.Forall
    (fun sched =>
       let run := generate Sample.pkg "my-app" [POPUP; TAB]
                    (MemFS.start Sample.fresh_without_readme sched) in
       fst run = Returned tt
       /\ List.last (trace (snd run)) (SpinnerStop None)
          = SpinnerStop (Some "done! created extension in: /work/my-app")
       /\ List.existsb (fun ev => match ev with LogError _ => true | _ => false end)
            (trace (snd run)) = false)
    [[]; [[]; [1; 2; 3]]; [[]; [3; 2; 1]]; [[]; [2]; [3; 1]]; [[3; 1]; []; [1; 2; 3]]].
Proof. repeat constructor; vm_compute; reflexivity. Qed.

(** * Further properties of the service *)

(** ** Object spread, in full *)

Lemma mem_In k ks : mem k ks = true <-> List.In k ks.
Proof.
  unfold mem. rewrite List.existsb_exists. split.
  - intros [x [Hin Heq]]. apply String.eqb_eq in Heq. now subst.
  - intros Hin. exists k. split; [assumption | apply String.eqb_refl].
Qed.

Lemma mem_false k ks : mem k ks = false <-> ~ List.In k ks.
Proof.
  rewrite <- mem_In. destruct (mem k ks); split; intros H; congruence.
Qed.

(** Defining a property that is there replaces its value in place. *)
Lemma define_present k v o :
  List.In k (Obj.keys o) -> List.NoDup (Obj.keys o) ->
  Obj.define k v o = map (fun kv => if String.eqb k (fst kv) then (k, v) else kv) o.
Proof.
  induction o as [|[k0 v0] o IH]; simpl; intros Hin Hnd; [destruct Hin|].
  inversion Hnd as [|? ? Hout Hrest]; subst.
  destruct (String.eqb_spec k k0) as [->|Hne].
  - f_equal. symmetry. rewrite <- (List.map_id o) at 2. apply List.map_ext_in.
    intros [k1 v1] H1. simpl.
    destruct (String.eqb_spec k0 k1) as [->|]; [|reflexivity].
    exfalso. apply Hout. apply (List.in_map fst) in H1. exact H1.
  - f_equal. apply IH; [|assumption]. destruct Hin; [congruence | assumption].
Qed.

Lemma keys_define_present k v o :
  List.In k (Obj.keys o) -> Obj.keys (Obj.define k v o) = Obj.keys o.
Proof.
  induction o as [|[k0 v0] o IH]; simpl; intros Hin; [destruct Hin|].
  destruct (String.eqb_spec k k0) as [->|Hne]; simpl; [reflexivity|].
  f_equal. apply IH. destruct Hin; [congruence | assumption].
Qed.

(** Spread of [source] over [target], both with unique keys: the
    properties of the target keep their places and take the values the
    source has for them; the properties only the source has follow, in
    the order of the source. *)
Lemma assign_spread target source :
  List.NoDup (Obj.keys target) -> List.NoDup (Obj.keys source) ->
  Obj.assign target source =
  map (fun kv => (fst kv, match Obj.lookup (fst kv) source with
                          | Some v => v
                          | None => snd kv
                          end)) target
  ++ List.filter (fun kv => negb (mem (fst kv) (Obj.keys target))) source.
Proof.
  unfold Obj.assign. revert target.
  induction source as [|[k v] source IH]; intros target Ht Hs.
  - simpl. rewrite List.app_nil_r. rewrite <- (List.map_id target) at 1.
    apply List.map_ext. now intros [k v].
  - cbn [fold_left fst snd].
    inversion Hs as [|? ? Hk Hs']; subst.
    rewrite (IH _ (NoDup_define k v target Ht) Hs'). clear IH.
    assert (Hfresh : Obj.lookup k source = None) by now apply lookup_None_keys.
    destruct (List.in_dec String.string_dec k (Obj.keys target)) as [Hin|Hout].
    + rewrite (keys_define_present k v target Hin).
      cbn [List.filter fst]. rewrite (proj2 (mem_In k (Obj.keys target)) Hin). cbn [negb].
      f_equal. rewrite (define_present k v target Hin Ht), List.map_map.
      apply List.map_ext. intros [k1 v1]. cbn [fst snd Obj.lookup].
      destruct (String.eqb_spec k k1) as [->|Hne]; cbn [fst snd].
      * rewrite Hfresh, String.eqb_refl. reflexivity.
      * destruct (String.eqb_spec k1 k); [congruence | reflexivity].
    + rewrite (define_fresh k v target Hout).
      cbn [List.filter fst]. rewrite (proj2 (mem_false k (Obj.keys target)) Hout). cbn [negb].
      rewrite List.map_app. cbn [map fst snd]. rewrite Hfresh, <- List.app_assoc.
      cbn [app]. f_equal.
      * apply List.map_ext_in. intros [k1 v1] H1. cbn [fst snd Obj.lookup].
        destruct (String.eqb_spec k1 k) as [->|]; [|reflexivity].
        exfalso. apply Hout. apply (List.in_map fst) in H1. exact H1.
      * f_equal. apply List.filter_ext_in. intros [k1 v1] H1. cbn [fst]. f_equal.
        unfold Obj.keys. rewrite List.map_app. unfold mem. rewrite List.existsb_app.
        cbn. destruct (String.eqb_spec k1 k) as [->|]; [|now rewrite !orb_false_r].
        exfalso. apply Hk. apply (List.in_map fst) in H1. exact H1.
Qed.


(** ** The manifest rewrite, beyond the gated keys *)

Section ManifestMore.

Context {P : Platform}.
Variable pkg : Package.

Lemma rewrites_write_then_await path obj s :
  rewrites path (Obj.document obj)
    s (snd (bind (fs_writeJson path obj jsonFormat) await (emit (Required path) s))).
Proof.
  destruct (write_then_await path obj (emit (Required path) s)) as [rest Hrest].
  exists rest. rewrite Hrest. simpl. now rewrite <- List.app_assoc.
Qed.

Lemma gate_non_null f features current key :
  current <> JNull ->
  gate f features current key
  = ret (if includes f features then read current key else Undefined).
Proof.
  intros Hnn. unfold gate, read.
  destruct (includes f features); [|reflexivity].
  destruct current; try reflexivity. congruence.
Qed.

Lemma writeManifestJson_non_null cloneDir projectName features current s :
  module_require (cloneDir +:+ "/angular/src/manifest.json") (env s) = inr current ->
  current <> JNull ->
  writeManifestJson pkg cloneDir projectName features s
  = bind (fs_writeJson (cloneDir +:+ "/angular/src/manifest.json")
            (merged_with pkg projectName features current) jsonFormat)
         await
         (emit (Required (cloneDir +:+ "/angular/src/manifest.json")) s).
Proof.
  intros Hreq Hnn. unfold writeManifestJson.
  unfold bind at 1. unfold require. rewrite Hreq.
  rewrite !(gate_non_null _ _ _ _ Hnn). reflexivity.
Qed.

Lemma merged_with_object projectName features members :
  merged_with pkg projectName features (JObject members)
  = merged_manifest pkg projectName features members.
Proof. reflexivity. Qed.

Lemma member_document k o :
  List.NoDup (Obj.keys o) ->
  member k (Obj.document o) =
  match Obj.lookup k o with Some (Json v) => Some v | _ => None end.
Proof. intros Hnd. unfold Obj.document, member. now apply lookup_serializable. Qed.

(** X1. Whatever the manifest of the template says about them, the
    written manifest has [name] and [short_name] equal to the project
    name and [description] equal to "Generated with " and the tool's
    package name; this for every manifest that is not [null], an
    object or not. *)
Theorem manifest_identity_fields
  (cloneDir projectName : string) (features : list Feature) (current : json) (s : State) :
  module_require (cloneDir +:+ "/angular/src/manifest.json") (env s) = inr current ->
  current <> JNull ->
  exists doc,
    rewrites (cloneDir +:+ "/angular/src/manifest.json") doc
      s (snd (writeManifestJson pkg cloneDir projectName features s))
    /\ member "name" doc = Some (JString projectName)
    /\ member "short_name" doc = Some (JString projectName)
    /\ member "description" doc = Some (JString ("Generated with " +:+ name pkg)).
Proof.
  intros Hreq Hnn. rewrite (writeManifestJson_non_null _ _ _ _ _ Hreq Hnn).
  exists (Obj.document (merged_with pkg projectName features current)).
  split; [apply rewrites_write_then_await|].
  assert (Hnd : List.NoDup (Obj.keys (merged_with pkg projectName features current)))
    by (unfold merged_with; apply NoDup_assign, NoDup_assign; constructor).
  rewrite !(member_document _ _ Hnd).
  unfold merged_with.
  generalize (Obj.assign [] (Obj.own_enumerable current)) as o. intros o.
  unfold Obj.assign. cbn [fold_left fst snd].
  repeat split; now peel_defines.
Qed.

(** X2. A gated key is in the written manifest exactly when its
    feature is selected and the template's manifest has the key: a
    selected feature whose key the template lacks adds nothing, and
    with no feature selected all three keys go. *)
Theorem manifest_gating_needs_source_key
  (cloneDir projectName : string) (features : list Feature)
  (members : list (string * json)) (s : State) :
  module_require (cloneDir +:+ "/angular/src/manifest.json") (env s) = inr (JObject members) ->
  List.NoDup (Obj.keys members) ->
  exists doc,
    rewrites (cloneDir +:+ "/angular/src/manifest.json") doc
      s (snd (writeManifestJson pkg cloneDir projectName features s))
    /\ forall k f, List.In (k, f) gated ->
         (has_key k doc <-> List.In f features /\ List.In k (Obj.keys members)).
Proof.
  intros Hreq Hnd. rewrite (writeManifestJson_object pkg _ _ _ _ _ Hreq).
  exists (Obj.document (merged_manifest pkg projectName features members)).
  split; [apply rewrites_write_then_await|].
  intros k f Hin.
  rewrite has_key_member, (member_merged_manifest pkg _ _ _ _ Hnd).
  rewrite (lookup_merged_gated pkg _ _ _ _ _ Hnd Hin), <- includes_In.
  destruct (includes f features).
  - destruct (Obj.lookup k members) as [x|] eqn:Hx.
    + apply lookup_Some_keys in Hx. split; [now split | discriminate].
    + apply lookup_None_keys in Hx. split; [congruence | tauto].
  - split; [congruence | intros [H _]; discriminate].
Qed.

(** X3. Only the set of selected features matters to the manifest
    rewrite: two feature lists with the same members, in whatever order
    and with whatever repetitions, give the same run. *)
Theorem manifest_depends_on_feature_set
  (cloneDir projectName : string) (features features' : list Feature) (s : State) :
  (forall f, List.In f features <-> List.In f features') ->
  writeManifestJson pkg cloneDir projectName features s
  = writeManifestJson pkg cloneDir projectName features' s.
Proof.
  intros Hsame.
  assert (Hinc : forall f, includes f features = includes f features').
  { intros f. specialize (Hsame f). rewrite <- !includes_In in Hsame.
    destruct (includes f features), (includes f features'); intuition congruence. }
  unfold writeManifestJson, gate. now rewrite !Hinc.
Qed.

(** X4. A manifest that is [null]: as soon as one feature is selected
    the property read throws a [TypeError], after the file was loaded
    and before any write is started. *)
Theorem manifest_null_throws
  (cloneDir projectName : string) (features : list Feature) (f : Feature) (s : State) :
  module_require (cloneDir +:+ "/angular/src/manifest.json") (env s) = inr JNull ->
  List.In f features ->
  exists e,
    writeManifestJson pkg cloneDir projectName features s
    = (Threw e, emit (Required (cloneDir +:+ "/angular/src/manifest.json")) s)
    /\ err_name e = "TypeError".
Proof.
  intros Hreq Hin.
  assert (Hsome : includes POPUP features = true \/ includes OPTIONS features = true
                  \/ includes TAB features = true)
    by (apply includes_In in Hin; destruct f; tauto).
  unfold writeManifestJson. unfold bind at 1. unfold require. rewrite Hreq.
  unfold gate.
  destruct (includes POPUP features); [eexists; split; reflexivity|].
  destruct (includes OPTIONS features); [eexists; split; reflexivity|].
  destruct (includes TAB features); [eexists; split; reflexivity|].
  destruct Hsome as [H|[H|H]]; discriminate.
Qed.

End ManifestMore.

(** ** Order of keys, and rewriting twice *)

Lemma serializable_app o1 o2 :
  Obj.serializable (o1 ++ o2) = Obj.serializable o1 ++ Obj.serializable o2.
Proof.
  induction o1 as [|[k [|v]] o1 IH]; simpl; [reflexivity | exact IH | now rewrite IH].
Qed.

Lemma serializable_own_enumerable members :
  Obj.serializable (Obj.own_enumerable (JObject members)) = members.
Proof.
  induction members as [|[k v] members IH]; simpl; [reflexivity|]. f_equal. exact IH.
Qed.

Lemma NoDup_serializable o :
  List.NoDup (Obj.keys o) -> List.NoDup (Obj.keys (Obj.serializable o)).
Proof.
  induction o as [|[k [|v]] o IH]; simpl; intros Hnd; [constructor| |];
    inversion Hnd as [|? ? Hout Hrest]; subst; [now apply IH|].
  constructor; [|now apply IH]. intros Hin. apply Hout. now apply keys_serializable.
Qed.

Lemma lookup_absent {V : Type} k (o : list (string * V)) :
  mem k (Obj.keys o) = false -> Obj.lookup k o = None.
Proof. intros H. apply lookup_None_keys. now apply mem_false. Qed.

Section KeyOrder.

Context {P : Platform}.
Variable pkg : Package.

Lemma NoDup_overlay projectName features members :
  List.NoDup (Obj.keys (overlay pkg projectName features members)).
Proof. repeat constructor; simpl; intuition discriminate. Qed.

Lemma merged_manifest_spread projectName features members :
  List.NoDup (Obj.keys members) ->
  merged_manifest pkg projectName features members
  = map (fun kv => (fst kv,
                    match Obj.lookup (fst kv) (overlay pkg projectName features members) with
                    | Some v => v
                    | None => snd kv
                    end))
        (Obj.own_enumerable (JObject members))
    ++ List.filter (fun kv => negb (mem (fst kv) (Obj.keys members)))
         (overlay pkg projectName features members).
Proof.
  intros Hnd. unfold merged_manifest. rewrite (spread_object _ Hnd).
  change (Obj.assign (Obj.own_enumerable (JObject members)) ?l)
    with (Obj.assign (Obj.own_enumerable (JObject members))
            (overlay pkg projectName features members)).
  rewrite assign_spread.
  - now rewrite keys_own_enumerable_object.
  - now rewrite keys_own_enumerable_object.
  - apply NoDup_overlay.
Qed.

(** The value the overlay leaves to a key of the source is
    [undefined] exactly when the key is cleared. *)
Lemma overlay_on_source projectName features members k x :
  List.In k (Obj.keys members) ->
  Obj.serializable
    [(k, match Obj.lookup k (overlay pkg projectName features members) with
         | Some v => v
         | None => Json x
         end)]
  = if cleared features k then [] else
      [(k, match Obj.lookup k (overlay pkg projectName features members) with
           | Some (Json v) => v
           | _ => x
           end)].
Proof.
  intros Hin. destruct (keys_lookup_Some _ _ Hin) as [y Hy].
  unfold overlay, cleared, gated. cbn [Obj.lookup existsb fst snd].
  destruct (String.eqb_spec k "name") as [->|H1]; [reflexivity|].
  destruct (String.eqb_spec k "short_name") as [->|H2]; [reflexivity|].
  destruct (String.eqb_spec k "description") as [->|H3]; [reflexivity|].
  destruct (String.eqb_spec k "browser_action") as [->|H4].
  { rewrite Hy. now destruct (includes POPUP features). }
  destruct (String.eqb_spec k "options_page") as [->|H5].
  { rewrite Hy. now destruct (includes OPTIONS features). }
  destruct (String.eqb_spec k "chrome_url_overrides") as [->|H6].
  { rewrite Hy. now destruct (includes TAB features). }
  reflexivity.
Qed.

Lemma keys_kept projectName features members (l : list (string * json)) :
  (forall k, List.In k (Obj.keys l) -> List.In k (Obj.keys members)) ->
  Obj.keys
    (Obj.serializable
       (map (fun kv => (fst kv,
                        match Obj.lookup (fst kv) (overlay pkg projectName features members) with
                        | Some v => v
                        | None => snd kv
                        end))
            (Obj.own_enumerable (JObject l))))
  = List.filter (fun k => negb (cleared features k)) (Obj.keys l).
Proof.
  induction l as [|[k x] l IH]; intros Hsub; [reflexivity|].
  cbn [Obj.own_enumerable map fst snd Obj.keys List.filter].
  change (?a :: ?b) with ([a] ++ b) at 1.
  rewrite serializable_app.
  rewrite (overlay_on_source projectName features members k x) by (apply Hsub; now left).
  unfold Obj.keys in *. rewrite List.map_app.
  cbn [Obj.own_enumerable] in IH. rewrite IH by (intros k' Hk'; apply Hsub; now right).
  now destruct (cleared features k).
Qed.

Lemma keys_added projectName features members :
  Obj.keys
    (Obj.serializable
       (List.filter (fun kv => negb (mem (fst kv) (Obj.keys members)))
          (overlay pkg projectName features members)))
  = List.filter (fun k => negb (mem k (Obj.keys members)))
      ["name"; "short_name"; "description"].
Proof.
  unfold overlay. cbn [List.filter fst].
  destruct (mem "name" (Obj.keys members));
  destruct (mem "short_name" (Obj.keys members));
  destruct (mem "description" (Obj.keys members));
  destruct (mem "browser_action" (Obj.keys members)) eqn:E4;
  destruct (mem "options_page" (Obj.keys members)) eqn:E5;
  destruct (mem "chrome_url_overrides" (Obj.keys members)) eqn:E6;
  cbn [negb];
  rewrite ?(lookup_absent _ _ E4), ?(lookup_absent _ _ E5), ?(lookup_absent _ _ E6);
  destruct (includes POPUP features), (includes OPTIONS features), (includes TAB features);
  reflexivity.
Qed.

(** X5. The written manifest keeps the keys of the template's
    manifest in their order, less the gated keys that are cleared, and
    puts [name], [short_name] and [description] behind them where the
    template did not have them. *)
Theorem manifest_key_order
  (cloneDir projectName : string) (features : list Feature)
  (members : list (string * json)) (s : State) :
  module_require (cloneDir +:+ "/angular/src/manifest.json") (env s) = inr (JObject members) ->
  List.NoDup (Obj.keys members) ->
  exists doc,
    rewrites (cloneDir +:+ "/angular/src/manifest.json") doc
      s (snd (writeManifestJson pkg cloneDir projectName features s))
    /\ keys_of doc
       = List.filter (fun k => negb (cleared features k)) (Obj.keys members)
         ++ List.filter (fun k => negb (mem k (Obj.keys members)))
              ["name"; "short_name"; "description"].
Proof.
  intros Hreq Hnd. rewrite (writeManifestJson_object pkg _ _ _ _ _ Hreq).
  exists (Obj.document (merged_manifest pkg projectName features members)).
  split; [apply rewrites_write_then_await|].
  unfold Obj.document, keys_of. rewrite (merged_manifest_spread _ _ _ Hnd).
  rewrite serializable_app.
  pose proof (keys_kept projectName features members members (fun k H => H)) as H1.
  pose proof (keys_added projectName features members) as H2.
  unfold Obj.keys in *. now rewrite List.map_app, H1, H2.
Qed.

End KeyOrder.

Lemma In_lookup {V : Type} k (x : V) (o : list (string * V)) :
  List.NoDup (Obj.keys o) -> List.In (k, x) o -> Obj.lookup k o = Some x.
Proof.
  induction o as [|[k0 v0] o IH]; simpl; intros Hnd Hin; [destruct Hin|].
  inversion Hnd as [|? ? Hout Hrest]; subst.
  destruct Hin as [E|Hin].
  - inversion E; subst. now rewrite String.eqb_refl.
  - destruct (String.eqb_spec k k0) as [->|]; [|now apply IH].
    exfalso. apply Hout. apply (List.in_map fst) in Hin. exact Hin.
Qed.

Lemma added_nothing (doc : list (string * json)) (over : jsobject) :
  List.NoDup (Obj.keys over) ->
  (forall k v, Obj.lookup k over = Some (Json v) -> Obj.lookup k doc = Some v) ->
  (forall k, Obj.lookup k over = Some Undefined -> Obj.lookup k doc = None) ->
  Obj.serializable (List.filter (fun kv => negb (mem (fst kv) (Obj.keys doc))) over) = [].
Proof.
  induction over as [|[k v] over IH]; intros Hover Hdef Hundef; [reflexivity|].
  inversion Hover as [|? ? Hout Hrest]; subst.
  assert (Hother : forall k' v', Obj.lookup k' over = Some v' ->
            Obj.lookup k' ((k, v) :: over) = Some v').
  { intros k' v' H'. simpl. destruct (String.eqb_spec k' k) as [->|]; [|exact H'].
    exfalso. apply Hout. now apply lookup_Some_keys in H'. }
  assert (Htail : Obj.serializable
            (List.filter (fun kv => negb (mem (fst kv) (Obj.keys doc))) over) = [])
    by (apply IH; [exact Hrest | intros k' v' H'; apply Hdef; now apply Hother
                  | intros k' H'; apply Hundef; now apply Hother]).
  cbn [List.filter fst].
  destruct (mem k (Obj.keys doc)) eqn:E; cbn [negb]; [exact Htail|].
  destruct v as [|x]; cbn [Obj.serializable]; [exact Htail|].
  assert (Hk : Obj.lookup k doc = Some x)
    by (apply Hdef; simpl; now rewrite String.eqb_refl).
  rewrite (lookup_absent _ _ E) in Hk. discriminate.
Qed.

(** A document is left as it is by a spread whose defined values it
    already has and whose [undefined] keys it lacks. *)
Lemma spread_stable (doc : list (string * json)) (over : jsobject) :
  List.NoDup (Obj.keys doc) -> List.NoDup (Obj.keys over) ->
  (forall k v, Obj.lookup k over = Some (Json v) -> Obj.lookup k doc = Some v) ->
  (forall k, Obj.lookup k over = Some Undefined -> Obj.lookup k doc = None) ->
  Obj.serializable (Obj.assign (Obj.assign [] (Obj.own_enumerable (JObject doc))) over) = doc.
Proof.
  intros Hnd Hover Hdef Hundef.
  rewrite (spread_object _ Hnd), assign_spread, serializable_app;
    [|now rewrite keys_own_enumerable_object | exact Hover].
  rewrite keys_own_enumerable_object.
  rewrite (added_nothing doc over Hover Hdef Hundef), List.app_nil_r.
  assert (Hkept : forall l : list (string * json),
            (forall k x, List.In (k, x) l -> List.In (k, x) doc) ->
            Obj.serializable
              (map (fun kv => (fst kv, match Obj.lookup (fst kv) over with
                                       | Some v => v
                                       | None => snd kv
                                       end))
                   (Obj.own_enumerable (JObject l))) = l).
  { induction l as [|[k x] l IH]; intros Hsub; [reflexivity|].
    cbn [Obj.own_enumerable map fst snd].
    assert (Hx : Obj.lookup k doc = Some x) by (apply In_lookup; [exact Hnd | apply Hsub; now left]).
    assert (Hl : Obj.serializable
              (map (fun kv => (fst kv, match Obj.lookup (fst kv) over with
                                       | Some v => v
                                       | None => snd kv
                                       end))
                   (map (fun kv => (fst kv, Json (snd kv))) l)) = l)
      by (apply IH; intros k' x' H'; apply Hsub; now right).
    destruct (Obj.lookup k over) as [[|v]|] eqn:E; cbn [Obj.serializable].
    - rewrite (Hundef k E) in Hx. discriminate.
    - rewrite (Hdef k v E) in Hx. inversion Hx. now rewrite Hl.
    - now rewrite Hl. }
  apply Hkept. auto.
Qed.

Section RewriteTwice.

Context {P : Platform}.
Variable pkg : Package.

Lemma lookup_merged_identity projectName features members :
  List.NoDup (Obj.keys members) ->
  member "name" (Obj.document (merged_manifest pkg projectName features members))
  = Some (JString projectName)
  /\ member "short_name" (Obj.document (merged_manifest pkg projectName features members))
     = Some (JString projectName)
  /\ member "description" (Obj.document (merged_manifest pkg projectName features members))
     = Some (JString ("Generated with " +:+ name pkg)).
Proof.
  intros Hnd. rewrite !(member_merged_manifest pkg _ _ _ _ Hnd).
  unfold merged_manifest. rewrite (spread_object _ Hnd).
  unfold Obj.assign. cbn [fold_left fst snd]. repeat split; now peel_defines.
Qed.

(** X6. Rewriting a manifest that a rewrite with the same project
    name and features has written writes the same document again: the
    rewrite is idempotent. *)
Theorem manifest_rewrite_idempotent
  (cloneDir projectName : string) (features : list Feature)
  (members : list (string * json)) (s : State) :
  List.NoDup (Obj.keys members) ->
  module_require (cloneDir +:+ "/angular/src/manifest.json") (env s)
  = inr (Obj.document (merged_manifest pkg projectName features members)) ->
  rewrites (cloneDir +:+ "/angular/src/manifest.json")
    (Obj.document (merged_manifest pkg projectName features members))
    s (snd (writeManifestJson pkg cloneDir projectName features s)).
Proof.
  intros Hnd Hreq.
  rewrite (writeManifestJson_object pkg _ _ _ _ _ Hreq).
  set (doc := Obj.serializable (merged_manifest pkg projectName features members)).
  assert (Hdoc : List.NoDup (Obj.keys doc))
    by (apply NoDup_serializable; unfold merged_manifest;
        apply NoDup_assign, NoDup_assign; constructor).
  destruct (lookup_merged_identity projectName features members Hnd) as (Hn & Hs & Hd).
  unfold Obj.document, member in Hn, Hs, Hd. fold doc in Hn, Hs, Hd.
  assert (Hgone : forall k f, List.In (k, f) gated -> includes f features = false ->
            Obj.lookup k doc = None).
  { intros k f Hin Hf.
    pose proof (member_merged_manifest pkg projectName features members k Hnd) as Hm.
    unfold Obj.document, member in Hm. fold doc in Hm.
    now rewrite Hm, (lookup_merged_gated pkg _ _ _ _ _ Hnd Hin), Hf. }
  assert (Hstable : Obj.document (merged_manifest pkg projectName features doc)
                    = JObject doc).
  { unfold Obj.document. f_equal. unfold merged_manifest.
    apply spread_stable; [exact Hdoc | repeat constructor; simpl; intuition discriminate | |].
    - intros k v. cbn [Obj.lookup].
      destruct (String.eqb k "name") eqn:E1;
        [apply String.eqb_eq in E1; subst; intros H; inversion H; subst; exact Hn|].
      destruct (String.eqb k "short_name") eqn:E2;
        [apply String.eqb_eq in E2; subst; intros H; inversion H; subst; exact Hs|].
      destruct (String.eqb k "description") eqn:E3;
        [apply String.eqb_eq in E3; subst; intros H; inversion H; subst; exact Hd|].
      destruct (String.eqb k "browser_action") eqn:E4;
        [apply String.eqb_eq in E4; subst;
         destruct (includes POPUP features); [|discriminate];
         destruct (Obj.lookup "browser_action" doc); intros H; now inversion H|].
      destruct (String.eqb k "options_page") eqn:E5;
        [apply String.eqb_eq in E5; subst;
         destruct (includes OPTIONS features); [|discriminate];
         destruct (Obj.lookup "options_page" doc); intros H; now inversion H|].
      destruct (String.eqb k "chrome_url_overrides") eqn:E6;
        [apply String.eqb_eq in E6; subst;
         destruct (includes TAB features); [|discriminate];
         destruct (Obj.lookup "chrome_url_overrides" doc); intros H; now inversion H|].
      discriminate.
    - intros k. cbn [Obj.lookup].
      destruct (String.eqb k "name"); [discriminate|].
      destruct (String.eqb k "short_name"); [discriminate|].
      destruct (String.eqb k "description"); [discriminate|].
      destruct (String.eqb k "browser_action") eqn:E4;
        [apply String.eqb_eq in E4; subst;
         destruct (includes POPUP features) eqn:Hf;
         [destruct (Obj.lookup "browser_action" doc); [discriminate | reflexivity]
         |intros _; apply (Hgone _ POPUP); [simpl; tauto | exact Hf]]|].
      destruct (String.eqb k "options_page") eqn:E5;
        [apply String.eqb_eq in E5; subst;
         destruct (includes OPTIONS features) eqn:Hf;
         [destruct (Obj.lookup "options_page" doc); [discriminate | reflexivity]
         |intros _; apply (Hgone _ OPTIONS); [simpl; tauto | exact Hf]]|].
      destruct (String.eqb k "chrome_url_overrides") eqn:E6;
        [apply String.eqb_eq in E6; subst;
         destruct (includes TAB features) eqn:Hf;
         [destruct (Obj.lookup "chrome_url_overrides" doc); [discriminate | reflexivity]
         |intros _; apply (Hgone _ TAB); [simpl; tauto | exact Hf]]|].
      discriminate. }
  change (Obj.document (merged_manifest pkg projectName features members)) with (JObject doc).
  rewrite <- Hstable. apply rewrites_write_then_await.
Qed.

End RewriteTwice.

(** ** The rewrite of package.json, beyond objects *)

Section PackageMore.

Context {P : Platform}.
Variable pkg : Package.

Lemma writePackageJson_any cloneDir projectName current s :
  module_require (cloneDir +:+ "/package.json") (env s) = inr current ->
  writePackageJson pkg cloneDir projectName s
  = bind (fs_writeJson (cloneDir +:+ "/package.json")
            (merged_package pkg projectName current) jsonFormat)
         await
         (emit (Required (cloneDir +:+ "/package.json")) s).
Proof.
  intros Hreq. unfold writePackageJson.
  unfold bind at 1. unfold require. now rewrite Hreq.
Qed.

Lemma NoDup_merged_package projectName current :
  List.NoDup (Obj.keys (merged_package pkg projectName current)).
Proof. unfold merged_package. apply NoDup_assign, NoDup_assign. constructor. Qed.

(** X7. The rewrite of package.json does not depend on what kind of
    JSON value the file holds: whenever the file loads, a document with
    [name] and [description] set and without [author] is written; when
    the value has no properties of its own ([null], a boolean, a
    number) these two keys are all there is. *)
Theorem package_json_any_content
  (cloneDir projectName : string) (current : json) (s : State) :
  module_require (cloneDir +:+ "/package.json") (env s) = inr current ->
  exists doc,
    rewrites (cloneDir +:+ "/package.json") doc
      s (snd (writePackageJson pkg cloneDir projectName s))
    /\ member "name" doc = Some (JString projectName)
    /\ member "description" doc = Some (JString ("Generated with " +:+ name pkg))
    /\ ~ has_key "author" doc
    /\ (Obj.own_enumerable current = [] ->
        doc = JObject [("name", JString projectName);
                       ("description", JString ("Generated with " +:+ name pkg))]).
Proof.
  intros Hreq. rewrite (writePackageJson_any _ _ _ _ Hreq).
  exists (Obj.document (merged_package pkg projectName current)).
  split; [apply rewrites_write_then_await|].
  rewrite has_key_member, !(member_document _ _ (NoDup_merged_package projectName current)).
  unfold merged_package.
  split; [|split; [|split]].
  - generalize (Obj.assign [] (Obj.own_enumerable current)) as o. intros o.
    unfold Obj.assign. cbn [fold_left fst snd]. now peel_defines.
  - generalize (Obj.assign [] (Obj.own_enumerable current)) as o. intros o.
    unfold Obj.assign. cbn [fold_left fst snd]. now peel_defines.
  - generalize (Obj.assign [] (Obj.own_enumerable current)) as o. intros o.
    unfold Obj.assign. cbn [fold_left fst snd]. peel_defines. tauto.
  - intros ->. reflexivity.
Qed.

Lemma package_entry (k : string) (x : json) (projectName : string) :
  Obj.serializable
    [(k, match Obj.lookup k [("name", Json (JString projectName));
                             ("description", Json (JString ("Generated with " +:+ name pkg)));
                             ("author", Undefined)] with
         | Some v => v
         | None => Json x
         end)]
  = if String.eqb k "author" then [] else
      [(k, if String.eqb k "name" then JString projectName
           else if String.eqb k "description"
                then JString ("Generated with " +:+ name pkg)
                else x)].
Proof.
  cbn [Obj.lookup].
  destruct (String.eqb_spec k "name") as [->|]; [reflexivity|].
  destruct (String.eqb_spec k "description") as [->|]; [reflexivity|].
  now destruct (String.eqb k "author").
Qed.

(** X8. The written package.json keeps the keys of the original in
    their order, less [author], each with its value, except that
    [name] and [description] take the new values, and puts [name] and
    [description] behind them where the original did not have
    them. *)
Theorem package_json_layout
  (cloneDir projectName : string) (members : list (string * json)) (s : State) :
  module_require (cloneDir +:+ "/package.json") (env s) = inr (JObject members) ->
  List.NoDup (Obj.keys members) ->
  rewrites (cloneDir +:+ "/package.json")
    (JObject
       (map (fun kv =>
               (fst kv,
                if String.eqb (fst kv) "name" then JString projectName
                else if String.eqb (fst kv) "description"
                     then JString ("Generated with " +:+ name pkg)
                     else snd kv))
            (List.filter (fun kv => negb (String.eqb (fst kv) "author")) members)
        ++ (if mem "name" (Obj.keys members) then []
            else [("name", JString projectName)])
        ++ (if mem "description" (Obj.keys members) then []
            else [("description", JString ("Generated with " +:+ name pkg))])))
    s (snd (writePackageJson pkg cloneDir projectName s)).
Proof.
  intros Hreq Hnd. rewrite (writePackageJson_any _ _ _ _ Hreq).
  match goal with |- rewrites _ ?d _ _ =>
    replace d with (Obj.document (merged_package pkg projectName (JObject members)))
  end; [apply rewrites_write_then_await|].
  unfold Obj.document, merged_package. f_equal.
  rewrite (spread_object _ Hnd), assign_spread, serializable_app;
    [|now rewrite keys_own_enumerable_object | repeat constructor; simpl; intuition discriminate].
  rewrite keys_own_enumerable_object. f_equal.
  - clear. induction members as [|[k x] members IH]; [reflexivity|].
    cbn [Obj.own_enumerable map fst snd List.filter] in *.
    change (?a :: ?b) with ([a] ++ b) at 1. rewrite serializable_app, package_entry, IH.
    now destruct (String.eqb k "author").
  - cbn [List.filter fst].
    destruct (mem "name" (Obj.keys members)), (mem "description" (Obj.keys members)),
      (mem "author" (Obj.keys members)); reflexivity.
Qed.

(** X9. Rewriting a package.json that a rewrite with the same project
    name has written writes the same document again. *)
Theorem package_json_rewrite_idempotent
  (cloneDir projectName : string) (current : json) (s : State) :
  module_require (cloneDir +:+ "/package.json") (env s)
  = inr (Obj.document (merged_package pkg projectName current)) ->
  rewrites (cloneDir +:+ "/package.json")
    (Obj.document (merged_package pkg projectName current))
    s (snd (writePackageJson pkg cloneDir projectName s)).
Proof.
  intros Hreq. rewrite (writePackageJson_any _ _ _ _ Hreq).
  set (doc := Obj.serializable (merged_package pkg projectName current)).
  assert (Hdoc : List.NoDup (Obj.keys doc))
    by (apply NoDup_serializable, NoDup_merged_package).
  assert (Hlk : forall k, Obj.lookup k doc =
            match Obj.lookup k (merged_package pkg projectName current) with
            | Some (Json v) => Some v
            | _ => None
            end)
    by (intros k; apply lookup_serializable, NoDup_merged_package).
  unfold merged_package in Hlk.
  revert Hlk. generalize (Obj.assign [] (Obj.own_enumerable current)) as o. intros o Hlk.
  unfold Obj.assign in Hlk. cbn [fold_left fst snd] in Hlk.
  assert (Hstable : Obj.document (merged_package pkg projectName (JObject doc)) = JObject doc).
  { unfold Obj.document, merged_package. f_equal.
    apply spread_stable; [exact Hdoc | repeat constructor; simpl; intuition discriminate | |].
    - intros k v. cbn [Obj.lookup].
      destruct (String.eqb k "name") eqn:E1;
        [apply String.eqb_eq in E1; subst; intros H; inversion H; subst;
         rewrite Hlk; now peel_defines|].
      destruct (String.eqb k "description") eqn:E2;
        [apply String.eqb_eq in E2; subst; intros H; inversion H; subst;
         rewrite Hlk; now peel_defines|].
      destruct (String.eqb k "author"); discriminate.
    - intros k. cbn [Obj.lookup].
      destruct (String.eqb k "name"); [discriminate|].
      destruct (String.eqb k "description"); [discriminate|].
      destruct (String.eqb k "author") eqn:E3; [|discriminate].
      apply String.eqb_eq in E3. subst. intros _. rewrite Hlk. now peel_defines. }
  change (Obj.document (merged_package pkg projectName current)) with (JObject doc).
  pose proof (rewrites_write_then_await (cloneDir +:+ "/package.json")
                (merged_package pkg projectName (JObject doc)) s) as Hw.
  rewrite Hstable in Hw. exact Hw.
Qed.

End PackageMore.

(** ** A wait ends as its own promise settles *)

Section OwnResult.

Context {P : Platform}.

Lemma first_rejection_unsettled n (s : State) :
  is_settled n s = false -> first_rejection [n] (settled s) = None.
Proof.
  unfold is_settled. induction (settled s) as [|[i r] done IH]; [reflexivity|].
  cbn [existsb fst first_rejection]. rewrite orb_false_iff. intros [Hi Hrest].
  rewrite Nat.eqb_sym in Hi. cbn. rewrite Hi. destruct r; now apply IH.
Qed.

Lemma first_rejection_last n done result :
  first_rejection [n] done = None ->
  first_rejection [n] (done ++ [(n, result)]) = result.
Proof.
  induction done as [|[i r] done IH]; cbn.
  - rewrite Nat.eqb_refl. now destruct result.
  - destruct r as [e|]; [|exact IH].
    destruct (Nat.eqb i n); [discriminate | exact IH].
Qed.

Lemma settle_other n j op (s : State) :
  j <> n -> find_op n (pending s) = Some op -> is_settled n s = false ->
  find_op n (pending (settle j s)) = Some op /\ is_settled n (settle j s) = false.
Proof.
  intros Hne Hop Hns. unfold settle.
  destruct (find_op j (pending s)) as [o|]; [|now split].
  destruct (io_complete o (env s)) as [result w]. cbn [pending settled].
  split; [now rewrite find_op_drop_ne by congruence|].
  unfold is_settled in *. cbn [settled]. rewrite List.existsb_app, Hns. cbn.
  destruct (Nat.eqb_spec n j); [congruence | reflexivity].
Qed.

(** The completion of the awaited operation ends the wait. *)
Lemma settle_awaited n op (s : State) :
  find_op n (pending s) = Some op -> is_settled n s = false ->
  exists result,
    trace (settle n s) = trace s ++ [Settled n op result]
    /\ first_rejection [n] (settled (settle n s)) = result
    /\ is_settled n (settle n s) = true.
Proof.
  intros Hop Hns. unfold settle. rewrite Hop.
  destruct (io_complete op (env s)) as [result w]. exists result.
  cbn [trace settled]. split; [reflexivity|]. split.
  - apply first_rejection_last. now apply first_rejection_unsettled.
  - unfold is_settled. cbn [settled]. rewrite List.existsb_app. cbn.
    rewrite Nat.eqb_refl. apply orb_true_r.
Qed.

Lemma force_own_result n op (s : State) :
  find_op n (pending s) = Some op -> is_settled n s = false ->
  exists result,
    trace (snd (force [n] s)) = trace s ++ [Settled n op result]
    /\ fst (force [n] s) = outcome_of result.
Proof.
  intros Hop Hns. destruct (settle_awaited n op s Hop Hns) as (result & Htr & Hrej & _).
  exists result. cbn [force]. rewrite Hrej. now destruct result.
Qed.

Lemma drive_own_result n op turn (s : State) :
  find_op n (pending s) = Some op -> is_settled n s = false ->
  exists result rest,
    trace (snd (drive [n] turn s)) = trace s ++ rest
    /\ List.In (Settled n op result) rest
    /\ List.Forall completion rest
    /\ fst (drive [n] turn s) = outcome_of result.
Proof.
  revert s. induction turn as [|j turn IH]; intros s Hop Hns.
  - cbn [drive]. rewrite (first_rejection_unsettled n s Hns). cbn [forallb].
    rewrite Hns. cbn [andb].
    destruct (force_own_result n op s Hop Hns) as (result & Htr & Hout).
    exists result, [Settled n op result]. repeat split; auto.
    + now left.
    + repeat constructor.
  - cbn [drive]. rewrite (first_rejection_unsettled n s Hns). cbn [forallb].
    rewrite Hns. cbn [andb]. rewrite unhandled_warn.
    destruct (Nat.eq_dec j n) as [->|Hne].
    + destruct (settle_awaited n op s Hop Hns) as (result & Htr & Hrej & Hdone).
      exists result, [Settled n op result].
      assert (Hend : drive [n] turn (settle n s) = (outcome_of result, settle n s)).
      { destruct turn; cbn [drive forallb]; rewrite Hrej, ?Hdone; now destruct result. }
      rewrite Hend. repeat split; auto.
      * now left.
      * repeat constructor.
    + destruct (settle_other n j op s Hne Hop Hns) as [Hop' Hns'].
      destruct (IH _ Hop' Hns') as (result & rest & Htr & Hin & Hio & Hout).
      assert (Hstep : exists r1, trace (settle j s) = trace s ++ r1 /\ List.Forall completion r1).
      { unfold settle. destruct (find_op j (pending s)) as [o|].
        - destruct (io_complete o (env s)) as [res w]. eexists. split; [reflexivity|].
          repeat constructor.
        - exists []. now rewrite List.app_nil_r. }
      destruct Hstep as (r1 & Hr1 & Hio1).
      exists result, (r1 ++ rest). repeat split.
      * now rewrite Htr, Hr1, List.app_assoc.
      * apply List.in_app_iff. now right.
      * now apply List.Forall_app.
      * exact Hout.
Qed.

Lemma find_op_fresh n op (s : State) :
  well_formed s -> n = next_id s ->
  find_op n (pending s ++ [(n, op)]) = Some op.
Proof.
  intros [Hwp _] ->. rewrite find_op_app.
  destruct (find_op (next_id s) (pending s)) as [o|] eqn:E.
  - apply find_op_In, Hwp in E. lia.
  - cbn. now rewrite Nat.eqb_refl.
Qed.

Lemma is_settled_fresh (s : State) : well_formed s -> is_settled (next_id s) s = false.
Proof.
  intros [_ Hws]. unfold is_settled.
  destruct (existsb _ (settled s)) eqn:E; [|reflexivity].
  apply List.existsb_exists in E as [[i r] [Hin Heq]].
  apply Nat.eqb_eq in Heq. cbn in Heq. subst i. apply Hws in Hin. lia.
Qed.

(** An operation started and awaited from a well-formed state: the
    call ends as the operation itself completes, fulfilled or rejected,
    whatever other operations complete in the meantime. *)
Lemma await_own_result op (s : State) :
  well_formed s ->
  exists result rest,
    trace (snd (bind (issue op) await s))
    = trace s ++ Issued (next_id s) op :: rest
    /\ List.In (Settled (next_id s) op result) rest
    /\ List.Forall completion rest
    /\ fst (bind (issue op) await s) = outcome_of result.
Proof.
  intros Hwf.
  assert (E : bind (issue op) await s = wait_all [next_id s] (snd (issue op s)))
    by reflexivity.
  rewrite E. unfold wait_all.
  assert (Hop : find_op (next_id s) (pending (snd (issue op s))) = Some op)
    by (cbn; now apply find_op_fresh).
  assert (Hns : is_settled (next_id s) (snd (issue op s)) = false)
    by (apply (is_settled_fresh s Hwf)).
  rewrite (first_rejection_unsettled _ _ Hns). cbn [forallb]. rewrite Hns. cbn [andb].
  unfold next_turn.
  destruct (schedule (snd (issue op s))) as [|turn later] eqn:Hsch.
  - destruct (drive_own_result (next_id s) op [] _ Hop Hns)
      as (result & rest & Htr & Hin & Hio & Hout).
    exists result, rest. repeat split; auto.
    rewrite Htr. cbn. now rewrite <- List.app_assoc.
  - match goal with |- context [drive _ turn ?s0] =>
      destruct (drive_own_result (next_id s) op turn s0 Hop Hns)
        as (result & rest & Htr & Hin & Hio & Hout)
    end.
    exists result, rest. repeat split; auto.
    rewrite Htr. cbn. now rewrite <- List.app_assoc.
Qed.

End OwnResult.

(** ** What a run adds to the trace *)

Section Additions.

Context {P : Platform} {R : Runtime}.
Variable Q : Event -> Prop.
Hypothesis Q_completion : forall i op result, Q (Settled i op result).

Lemma adds_ret {A} (a : A) : adds Q (ret a).
Proof. intros s. exists []. now rewrite List.app_nil_r. Qed.

Lemma adds_throw {A} e : adds Q (throw (A := A) e).
Proof. intros s. exists []. now rewrite List.app_nil_r. Qed.

Lemma adds_lift {A} (r : JsError + A) : adds Q (lift r).
Proof. destruct r; [apply adds_throw | apply adds_ret]. Qed.

Lemma adds_tell ev : Q ev -> adds Q (tell ev).
Proof. intros H s. exists [ev]. split; [reflexivity | now constructor]. Qed.

Lemma adds_issue op : (forall i, Q (Issued i op)) -> adds Q (issue op).
Proof. intros H s. exists [Issued (next_id s) op]. split; [reflexivity | now constructor]. Qed.

Lemma adds_require path : Q (Required path) -> adds Q (require path).
Proof.
  intros H s. exists [Required path]. unfold require.
  destruct (module_require path (env s)); (split; [reflexivity | now constructor]).
Qed.

Lemma adds_bind {A B} (m : M A) (k : A -> M B) :
  adds Q m -> (forall a, adds Q (k a)) -> adds Q (bind m k).
Proof.
  intros Hm Hk s. destruct (Hm s) as (r1 & H1 & Q1). unfold bind.
  destruct (m s) as [[a|e|c] s1]; cbn [snd] in *; try (now exists r1).
  destruct (Hk a s1) as (r2 & H2 & Q2). exists (r1 ++ r2). split.
  - now rewrite H2, H1, List.app_assoc.
  - now apply List.Forall_app.
Qed.

Lemma adds_try_catch {A} (body : M A) handler :
  adds Q body -> (forall e, adds Q (handler e)) -> adds Q (try_catch body handler).
Proof.
  intros Hm Hk s. destruct (Hm s) as (r1 & H1 & Q1). unfold try_catch.
  destruct (body s) as [[a|e|c] s1]; cbn [snd] in *; try (now exists r1).
  destruct (Hk e s1) as (r2 & H2 & Q2). exists (r1 ++ r2). split.
  - now rewrite H2, H1, List.app_assoc.
  - now apply List.Forall_app.
Qed.

Lemma settle_adds i (s : State) :
  exists r, trace (settle i s) = trace s ++ r /\ List.Forall Q r.
Proof.
  unfold settle. destruct (find_op i (pending s)) as [op|].
  - destruct (io_complete op (env s)) as [result w]. eexists. split; [reflexivity|].
    constructor; [apply Q_completion | constructor].
  - exists []. now rewrite List.app_nil_r.
Qed.

Lemma force_adds ids (s : State) :
  exists r, trace (snd (force ids s)) = trace s ++ r /\ List.Forall Q r.
Proof.
  revert s. induction ids as [|i ids IH]; intros s; cbn [force].
  - exists []. now rewrite List.app_nil_r.
  - destruct (settle_adds i s) as (r1 & H1 & Q1).
    destruct (first_rejection [i] (settled (settle i s))); [now exists r1|].
    destruct (IH (settle i s)) as (r2 & H2 & Q2). exists (r1 ++ r2). split.
    + now rewrite H2, H1, List.app_assoc.
    + now apply List.Forall_app.
Qed.

Lemma drive_adds ids turn (s : State) :
  exists r, trace (snd (drive ids turn s)) = trace s ++ r /\ List.Forall Q r.
Proof.
  revert s. induction turn as [|j turn IH]; intros s; cbn [drive];
    (destruct (first_rejection ids (settled s));
      [exists []; now rewrite List.app_nil_r|]);
    (destruct (forallb _ ids); [exists []; now rewrite List.app_nil_r|]).
  - apply force_adds.
  - destruct (settle_adds j s) as (r1 & H1 & Q1).
    destruct (unhandled ids j s); [now exists r1|].
    destruct (IH (settle j s)) as (r2 & H2 & Q2). exists (r1 ++ r2). split.
    + now rewrite H2, H1, List.app_assoc.
    + now apply List.Forall_app.
Qed.

Lemma adds_wait_all ids : adds Q (wait_all ids).
Proof.
  intros s. unfold wait_all.
  destruct (first_rejection ids (settled s)); [exists []; now rewrite List.app_nil_r|].
  destruct (forallb _ ids); [exists []; now rewrite List.app_nil_r|].
  unfold next_turn. destruct (schedule s) as [|turn later].
  - apply drive_adds.
  - match goal with |- context [drive ids turn ?s0] =>
      destruct (drive_adds ids turn s0) as (r & H & HQ) end.
    now exists r.
Qed.

Lemma adds_await v : adds Q (await v).
Proof. destruct v; [apply adds_ret | apply adds_wait_all | apply adds_ret]. Qed.

Lemma adds_Promise_all items : adds Q (Promise_all items).
Proof.
  intros s. destruct (adds_wait_all (promise_ids items) s) as (r & H & HQ).
  unfold Promise_all. destruct (wait_all (promise_ids items) s) as [[a|e|c] s1]; now exists r.
Qed.

End Additions.

Section Confinement.

Context {P : Platform} {R : Runtime}.
Variable pkg : Package.

Lemma adds_cleanDir (Q : Event -> Prop) dir :
  (forall i op result, Q (Settled i op result)) ->
  (forall i, Q (Issued i (Remove (dir +:+ "/.git")))) ->
  (forall i, Q (Issued i (Remove (dir +:+ "/cli")))) ->
  (forall i, Q (Issued i (Unlink (dir +:+ "/README.md")))) ->
  adds Q (cleanDir dir).
Proof.
  intros Hs H1 H2 H3. unfold cleanDir, deleteDirs, deleteFiles, fs_remove, fs_unlink.
  cbn [map_calls].
  repeat first [ apply adds_ret
               | apply adds_Promise_all; assumption
               | apply adds_issue; intros i; first [apply H1 | apply H2 | apply H3]
               | apply adds_bind; [| intro] ].
Qed.

Lemma adds_writePackageJson (Q : Event -> Prop) dir projectName :
  (forall i op result, Q (Settled i op result)) ->
  Q (Required (dir +:+ "/package.json")) ->
  (forall i doc, Q (Issued i (WriteJson (dir +:+ "/package.json") doc 2))) ->
  adds Q (writePackageJson pkg dir projectName).
Proof.
  intros Hs Hr Hw. unfold writePackageJson, fs_writeJson. cbv zeta.
  apply adds_bind; [now apply adds_require|]. intros current.
  apply adds_bind; [apply adds_issue; intros i; apply Hw|]. intros p.
  now apply adds_await.
Qed.

Lemma adds_writeManifestJson (Q : Event -> Prop) dir projectName features :
  (forall i op result, Q (Settled i op result)) ->
  Q (Required (dir +:+ "/angular/src/manifest.json")) ->
  (forall i doc, Q (Issued i (WriteJson (dir +:+ "/angular/src/manifest.json") doc 2))) ->
  adds Q (writeManifestJson pkg dir projectName features).
Proof.
  intros Hs Hr Hw. unfold writeManifestJson, fs_writeJson, gate. cbv zeta.
  apply adds_bind; [now apply adds_require|]. intros current.
  repeat (apply adds_bind;
          [match goal with |- adds _ (if ?b then _ else _) =>
             destruct b; [apply adds_lift | apply adds_ret] end | intro]).
  apply adds_bind; [apply adds_issue; intros i; apply Hw|]. intros p.
  now apply adds_await.
Qed.

(** X10. Whatever the outcome, [generate] stays within the project
    directory [<cwd>/<projectName>]: the operations it starts are the
    clone of the template into it, the removals of its [.git], [cli]
    and [README.md], and the writes, indented by 2, of its
    [package.json] and [angular/src/manifest.json]; these two files
    are the only ones it loads; it runs no command and logs nothing
    but a caught error. *)
Theorem generate_confined (projectName : string) (features : list Feature) (s : State) :
  exists added,
    trace (snd (generate pkg projectName features s)) = trace s ++ added
    /\ List.Forall
         (generate_event (url (repository pkg)) (process_cwd (env s) +:+ "/" +:+ projectName))
         added.
Proof.
  unfold generate, getProjectDir. unfold bind at 1.
  set (dir := process_cwd (env s) +:+ "/" +:+ projectName).
  match goal with |- context [try_catch ?body ?h s] =>
    assert (H : adds (generate_event (url (repository pkg)) dir) (try_catch body h))
  end.
  { assert (Hs : forall i op result,
               generate_event (url (repository pkg)) dir (Settled i op result))
      by (intros; exact I).
    apply adds_try_catch.
    - unfold spinner_start, spinner_stop, git_clone.
      apply adds_bind; [apply adds_tell; reflexivity | intros _].
      apply adds_bind.
      { apply adds_bind; [apply adds_issue; intros; now split | intro].
        now apply adds_await. }
      intros _. apply adds_bind.
      { apply adds_bind; [| intro; apply adds_ret].
        apply adds_cleanDir; cbn; auto. }
      intros _. apply adds_bind.
      { apply adds_writePackageJson; cbn; auto. }
      intros _. apply adds_bind.
      { apply adds_writeManifestJson; cbn; auto. }
      intros _. apply adds_tell. exact I.
    - intros e. unfold log_error, spinner_stop.
      apply adds_bind; [apply adds_tell; exact I | intros _; apply adds_tell; exact I]. }
  exact (H s).
Qed.

End Confinement.

(** ** Promise identifiers stay in use *)

Section WellFormed.

Context {P : Platform}.

Lemma well_formed_emit ev (s : State) : well_formed s -> well_formed (emit ev s).
Proof. intros H. exact H. Qed.

Lemma well_formed_issue op (s : State) : well_formed s -> well_formed (snd (issue op s)).
Proof.
  intros [Hp Hs]. split; cbn [issue snd pending settled next_id].
  - intros i o Hin. apply List.in_app_iff in Hin as [Hin|[Heq|[]]].
    + apply Hp in Hin. lia.
    + inversion Heq. lia.
  - intros i r Hin. apply Hs in Hin. lia.
Qed.

Lemma well_formed_settle i (s : State) : well_formed s -> well_formed (settle i s).
Proof.
  intros [Hp Hs]. unfold settle.
  destruct (find_op i (pending s)) as [op|] eqn:E; [|now split].
  destruct (io_complete op (env s)) as [result w]. split; cbn [pending settled next_id].
  - intros j o Hin. apply In_drop_op in Hin. now apply Hp in Hin.
  - intros j r Hin. apply List.in_app_iff in Hin as [Hin|[Heq|[]]].
    + now apply Hs in Hin.
    + inversion Heq; subst. apply find_op_In in E. now apply Hp in E.
Qed.

Lemma well_formed_force ids (s : State) : well_formed s -> well_formed (snd (force ids s)).
Proof.
  revert s. induction ids as [|i ids IH]; intros s H; cbn [force]; [exact H|].
  destruct (first_rejection [i] (settled (settle i s))).
  - now apply well_formed_settle.
  - now apply IH, well_formed_settle.
Qed.

Lemma well_formed_drive ids turn (s : State) :
  well_formed s -> well_formed (snd (drive ids turn s)).
Proof.
  revert s. induction turn as [|j turn IH]; intros s H; cbn [drive];
    (destruct (first_rejection ids (settled s)); [exact H|]);
    (destruct (forallb _ ids); [exact H|]).
  - now apply well_formed_force.
  - now apply IH, well_formed_settle.
Qed.

Lemma well_formed_wait_all ids (s : State) :
  well_formed s -> well_formed (snd (wait_all ids s)).
Proof.
  intros H. unfold wait_all.
  destruct (first_rejection ids (settled s)); [exact H|].
  destruct (forallb _ ids); [exact H|].
  unfold next_turn. destruct (schedule s) as [|turn later];
    apply well_formed_drive; exact H.
Qed.

Lemma steady_of {A} (m : M A) :
  monotone m -> (forall s, well_formed s -> well_formed (snd (m s))) -> steady m.
Proof. intros Hm Hw s H. split; [now apply Hw | apply Hm]. Qed.

Lemma steady_ret {A} (a : A) : steady (ret a).
Proof. apply steady_of; [apply monotone_ret | now intros]. Qed.

Lemma steady_lift {A} (r : JsError + A) : steady (lift r).
Proof. apply steady_of; [apply monotone_lift | destruct r; now intros]. Qed.

Lemma steady_tell ev : steady (tell ev).
Proof. apply steady_of; [apply monotone_tell | now intros]. Qed.

Lemma steady_issue op : steady (issue op).
Proof. apply steady_of; [apply monotone_issue | apply well_formed_issue]. Qed.

Lemma steady_require path : steady (require path).
Proof.
  apply steady_of; [apply monotone_require|].
  intros s H. unfold require. now destruct (module_require path (env s)).
Qed.

Lemma steady_wait_all ids : steady (wait_all ids).
Proof. apply steady_of; [apply monotone_wait_all | apply well_formed_wait_all]. Qed.

Lemma steady_await v : steady (await v).
Proof. destruct v; [apply steady_ret | apply steady_wait_all | apply steady_ret]. Qed.

Lemma steady_Promise_all items : steady (Promise_all items).
Proof.
  apply steady_of; [apply monotone_Promise_all|].
  intros s H. pose proof (well_formed_wait_all (promise_ids items) s H) as Hw.
  unfold Promise_all. now destruct (wait_all (promise_ids items) s) as [[a|e|c] s1].
Qed.

Lemma steady_bind {A B} (m : M A) (k : A -> M B) :
  steady m -> (forall a, steady (k a)) -> steady (bind m k).
Proof.
  intros Hm Hk s H. destruct (Hm s H) as [Hw (r1 & H1)]. unfold bind.
  destruct (m s) as [[a|e|c] s1]; cbn [snd] in *; try (split; [exact Hw | now exists r1]).
  destruct (Hk a s1 Hw) as [Hw2 (r2 & H2)]. split; [exact Hw2|].
  exists (r1 ++ r2). now rewrite H2, H1, List.app_assoc.
Qed.

Lemma steady_map_calls (f : string -> M value) items :
  (forall x, steady (f x)) -> steady (map_calls f items).
Proof.
  intros Hf. induction items as [|x items IH]; cbn [map_calls].
  - apply steady_ret.
  - apply steady_bind; [apply Hf|]. intros v.
    apply steady_bind; [apply IH|]. intros vs. apply steady_ret.
Qed.

Lemma steady_cleanDir dir : steady (cleanDir dir).
Proof.
  unfold cleanDir, fs_remove, fs_unlink.
  apply steady_bind; [apply steady_map_calls; intro; apply steady_issue|]. intros dirs.
  apply steady_bind; [apply steady_map_calls; intro; apply steady_issue|]. intros files.
  apply steady_Promise_all.
Qed.

(** A program that ensures an event, followed by any steady one. *)
Lemma ensures_then (E : Event -> Prop) {A B} (m : M A) (k : A -> M B) :
  ensures E m -> (forall a, steady (k a)) -> ensures E (bind m k).
Proof.
  intros Hm Hk s H. destruct (Hm s H) as [Hw (r1 & H1 & HE)]. unfold bind.
  destruct (m s) as [[a|e|c] s1]; cbn [fst snd] in *;
    try (split; [exact Hw | exists r1; split; [exact H1 | discriminate]]).
  destruct (Hk a s1 Hw) as [Hw2 (r2 & H2)]. split; [exact Hw2|].
  exists (r1 ++ r2). split; [now rewrite H2, H1, List.app_assoc|].
  intros b _. apply List.Exists_app. left. now apply (HE a).
Qed.

(** A steady program followed by one that ensures an event. *)
Lemma ensures_after (E : Event -> Prop) {A B} (m : M A) (k : A -> M B) :
  steady m -> (forall a, ensures E (k a)) -> ensures E (bind m k).
Proof.
  intros Hm Hk s H. destruct (Hm s H) as [Hw (r1 & H1)]. unfold bind.
  destruct (m s) as [[a|e|c] s1]; cbn [fst snd] in *;
    try (split; [exact Hw | exists r1; split; [exact H1 | discriminate]]).
  destruct (Hk a s1 Hw) as [Hw2 (r2 & H2 & HE)]. split; [exact Hw2|].
  exists (r1 ++ r2). split; [now rewrite H2, H1, List.app_assoc|].
  intros b Hb. apply List.Exists_app. right. now apply (HE b).
Qed.

Lemma ensures_steady (E : Event -> Prop) {A} (m : M A) : ensures E m -> steady m.
Proof.
  intros Hm s H. destruct (Hm s H) as [Hw (r & Hr & _)]. split; [exact Hw | now exists r].
Qed.

(** An operation that is started and awaited has completed without
    error when the wait returns. *)
Lemma ensures_issue_await (E : Event -> Prop) op :
  (forall i, E (Settled i op None)) -> ensures E (bind (issue op) await).
Proof.
  intros HE s H.
  assert (Hst : steady (bind (issue op) await))
    by (apply steady_bind; [apply steady_issue | intro; apply steady_await]).
  destruct (Hst s H) as [Hw _]. split; [exact Hw|].
  destruct (await_own_result op s H) as (result & rest & Htr & Hin & _ & Hout).
  eexists. split; [exact Htr|]. intros a Ha. rewrite Ha in Hout.
  destruct result; [discriminate|].
  apply List.Exists_cons_tl. apply List.Exists_exists. eexists. split; [exact Hin | apply HE].
Qed.

End WellFormed.

(** ** The course of a generation *)

Section Exits.

Context {P : Platform} {R : Runtime}.

Lemma exits_ret {A} (a : A) : exits_by_rejection (ret a).
Proof. intros s c H. discriminate H. Qed.

Lemma exits_throw {A} e : exits_by_rejection (throw (A := A) e).
Proof. intros s c H. discriminate H. Qed.

Lemma exits_lift {A} (r : JsError + A) : exits_by_rejection (lift r).
Proof. destruct r; [apply exits_throw | apply exits_ret]. Qed.

Lemma exits_tell ev : exits_by_rejection (tell ev).
Proof. intros s c H. discriminate H. Qed.

Lemma exits_issue op : exits_by_rejection (issue op).
Proof. intros s c H. discriminate H. Qed.

Lemma exits_require path : exits_by_rejection (require path).
Proof.
  intros s c H. unfold require in H.
  destruct (module_require path (env s)); discriminate H.
Qed.

Lemma exits_bind {A B} (m : M A) (k : A -> M B) :
  exits_by_rejection m -> (forall a, exits_by_rejection (k a)) ->
  exits_by_rejection (bind m k).
Proof.
  intros Hm Hk s c. unfold bind. specialize (Hm s).
  destruct (m s) as [[a|e|c'] s1]; cbn [fst] in *.
  - apply Hk.
  - discriminate.
  - intros H. inversion H. subst. now apply Hm.
Qed.

Lemma exits_try_catch {A} (body : M A) handler :
  exits_by_rejection body -> (forall e, exits_by_rejection (handler e)) ->
  exits_by_rejection (try_catch body handler).
Proof.
  intros Hm Hk s c. unfold try_catch. specialize (Hm s).
  destruct (body s) as [[a|e|c'] s1]; cbn [fst] in *.
  - discriminate.
  - apply Hk.
  - intros H. inversion H. subst. now apply Hm.
Qed.

Lemma drive_exits ids turn (s : State) code :
  fst (drive ids turn s) = Exited code -> code = 1%Z /\ unhandled_rejections = Throw.
Proof.
  revert s. induction turn as [|j turn IH]; intros s; cbn [drive];
    (destruct (first_rejection ids (settled s)); [discriminate|]);
    (destruct (forallb _ ids); [discriminate|]).
  - intros H. now apply force_never_exits in H.
  - destruct (unhandled ids j s) eqn:E; [|apply IH].
    cbn [fst]. intros H. inversion H. split; [reflexivity|].
    unfold unhandled in E. now destruct unhandled_rejections.
Qed.

Lemma exits_wait_all ids : exits_by_rejection (wait_all ids).
Proof.
  intros s c. unfold wait_all.
  destruct (first_rejection ids (settled s)); [discriminate|].
  destruct (forallb _ ids); [discriminate|].
  unfold next_turn. destruct (schedule s) as [|turn later]; apply drive_exits.
Qed.

Lemma exits_await v : exits_by_rejection (await v).
Proof. destruct v; [apply exits_ret | apply exits_wait_all | apply exits_ret]. Qed.

Lemma exits_Promise_all items : exits_by_rejection (Promise_all items).
Proof.
  intros s c. pose proof (exits_wait_all (promise_ids items) s) as H.
  unfold Promise_all. destruct (wait_all (promise_ids items) s) as [[a|e|c'] s1];
    cbn [fst] in *; [discriminate | discriminate |].
  intros Hc. inversion Hc. subst. now apply H.
Qed.

End Exits.

Section GenerateRun.

Context {P : Platform} {R : Runtime}.
Variable pkg : Package.

Lemma closes_tell (Q : Event -> Prop) ev : closes_with Q ev (tell ev).
Proof. intros s. exists []. split; [constructor | reflexivity]. Qed.

Lemma closes_bind (Q : Event -> Prop) ev {A B} (m : M A) (k : A -> M B) :
  adds Q m -> exits_by_rejection m -> (forall a, closes_with Q ev (k a)) ->
  closes_with Q ev (bind m k).
Proof.
  intros Hm Hne Hk s. destruct (Hm s) as (r1 & H1 & Q1). specialize (Hne s).
  unfold bind. destruct (m s) as [[a|e|c] s1]; cbn [fst snd] in *.
  - destruct (Hk a s1) as (mid & Qmid & Hmid). exists (r1 ++ mid).
    split; [now apply List.Forall_app|].
    destruct (fst (k a s1)); [| |destruct Hmid as (Hmid & Hcode); split; [|exact Hcode]];
      rewrite Hmid, H1; now rewrite <- ?List.app_assoc.
  - exists r1. now split.
  - exists r1. split; [exact Q1|]. split; [exact H1 | now apply Hne].
Qed.

Lemma exits_cleanDir dir : exits_by_rejection (cleanDir dir).
Proof.
  unfold cleanDir, fs_remove, fs_unlink, deleteDirs, deleteFiles. cbn [map_calls].
  repeat first [ apply exits_ret | apply exits_issue | apply exits_Promise_all
               | apply exits_bind; [| intro] ].
Qed.

Lemma exits_clone remote dir : exits_by_rejection (bind (git_clone remote dir) await).
Proof. apply exits_bind; [apply exits_issue | intro; apply exits_await]. Qed.

Lemma exits_writePackageJson dir projectName :
  exits_by_rejection (writePackageJson pkg dir projectName).
Proof.
  unfold writePackageJson, fs_writeJson. cbv zeta.
  apply exits_bind; [apply exits_require | intro].
  apply exits_bind; [apply exits_issue | intro; apply exits_await].
Qed.

Lemma exits_writeManifestJson dir projectName features :
  exits_by_rejection (writeManifestJson pkg dir projectName features).
Proof.
  unfold writeManifestJson, fs_writeJson, gate. cbv zeta.
  apply exits_bind; [apply exits_require | intro].
  repeat (apply exits_bind;
          [match goal with |- exits_by_rejection (if ?b then _ else _) =>
             destruct b; [apply exits_lift | apply exits_ret] end | intro]).
  apply exits_bind; [apply exits_issue | intro; apply exits_await].
Qed.

Lemma io_completion i op result : io_event (Settled i op result).
Proof. exact I. Qed.

(** The steps of [generate] after the spinner was started. *)
Lemma generate_steps_close dir projectName features :
  closes_with io_event (SpinnerStop (Some ("done! created extension in: " +:+ dir)))
    (bind (bind (git_clone (url (repository pkg)) dir) await) (fun _ =>
     bind (bind (cleanDir dir) (fun _ => ret tt)) (fun _ =>
     bind (writePackageJson pkg dir projectName) (fun _ =>
     bind (writeManifestJson pkg dir projectName features) (fun _ =>
     spinner_stop (Some ("done! created extension in: " +:+ dir))))))).
Proof.
  apply closes_bind.
  { unfold git_clone. apply adds_bind; [apply adds_issue; now intros | intro].
    apply adds_await. exact io_completion. }
  { apply exits_clone. }
  intros _. apply closes_bind.
  { apply adds_bind; [| intro; apply adds_ret].
    apply adds_cleanDir; now intros. }
  { apply exits_bind; [apply exits_cleanDir | intro; apply exits_ret]. }
  intros _. apply closes_bind.
  { apply adds_writePackageJson; now intros. }
  { apply exits_writePackageJson. }
  intros _. apply closes_bind.
  { apply adds_writeManifestJson; now intros. }
  { apply exits_writeManifestJson. }
  intros _. apply closes_tell.
Qed.

(** [generate] is these steps run once the spinner was started, under
    the [catch] block. *)
Lemma generate_steps projectName features s :
  let dir := process_cwd (env s) +:+ "/" +:+ projectName in
  generate pkg projectName features s
  = match
      bind (bind (git_clone (url (repository pkg)) dir) await) (fun _ =>
      bind (bind (cleanDir dir) (fun _ => ret tt)) (fun _ =>
      bind (writePackageJson pkg dir projectName) (fun _ =>
      bind (writeManifestJson pkg dir projectName features) (fun _ =>
      spinner_stop (Some ("done! created extension in: " +:+ dir))))))
        (emit (SpinnerStart "creating extension...") s)
    with
    | (Threw e, s') =>
        (Returned tt, emit (SpinnerStop None) (emit (LogError (Thrown e)) s'))
    | other => other
    end.
Proof. reflexivity. Qed.

(** X11. What a call of [generate] shows, on either runtime: the
    spinner started with "creating extension...", then input and
    output only, and then one of three endings.  The call returns
    normally with the spinner stopped with the success message that
    names the project directory; or it returns normally with one
    caught error logged and the spinner stopped without a message; or,
    only where the runtime throws on unhandled rejections, the process
    is ended with status 1 in the middle of the input and output,
    neither ending shown.  [generate] never throws to its caller, and
    where unhandled rejections only warn it always returns. *)
Theorem generate_run_shape (projectName : string) (features : list Feature) (s : State) :
  let dir := process_cwd (env s) +:+ "/" +:+ projectName in
  exists mid ending,
    trace (snd (generate pkg projectName features s))
    = trace s ++ SpinnerStart "creating extension..." :: mid ++ ending
    /\ List.Forall io_event mid
    /\ ((fst (generate pkg projectName features s) = Returned tt
         /\ (ending = [SpinnerStop (Some ("done! created extension in: " +:+ dir))]
             \/ exists e, ending = [LogError (Thrown e); SpinnerStop None]))
        \/ (fst (generate pkg projectName features s) = Exited 1
            /\ ending = []
            /\ unhandled_rejections = Throw)).
Proof.
  cbv zeta. rewrite generate_steps. cbv zeta.
  set (dir := process_cwd (env s) +:+ "/" +:+ projectName).
  destruct (generate_steps_close dir projectName features
              (emit (SpinnerStart "creating extension...") s)) as (mid & Qmid & Hmid).
  match type of Hmid with match fst ?run with _ => _ end =>
    destruct run as [[[]|e|c] s1]
  end; cbn [fst snd] in Hmid.
  - exists mid, [SpinnerStop (Some ("done! created extension in: " +:+ dir))].
    cbn [fst snd]. rewrite Hmid. cbn [emit trace].
    split; [now rewrite <- List.app_assoc|]. split; [exact Qmid|]. left. auto.
  - exists mid, [LogError (Thrown e); SpinnerStop None].
    cbn [fst snd emit trace]. rewrite Hmid. cbn [emit trace].
    split; [now rewrite <- !List.app_assoc|]. split; [exact Qmid|]. left. eauto.
  - destruct Hmid as (Hmid & -> & Hmode). exists mid, [].
    cbn [fst snd]. rewrite Hmid. cbn [emit trace].
    split; [now rewrite List.app_nil_r, <- List.app_assoc|]. split; [exact Qmid|].
    right. auto.
Qed.

End GenerateRun.

Section GenerateOutcome.

Context {P : Platform}.
Variable pkg : Package.

Lemma steady_clone remote dir : steady (bind (git_clone remote dir) await).
Proof. apply steady_bind; [apply steady_issue | intro; apply steady_await]. Qed.

Lemma ensures_writePackageJson dir projectName :
  ensures (written (dir +:+ "/package.json")) (writePackageJson pkg dir projectName).
Proof.
  unfold writePackageJson, fs_writeJson. cbv zeta.
  apply ensures_after; [apply steady_require|]. intros current.
  apply (ensures_issue_await (written (dir +:+ "/package.json"))). intros i. now split.
Qed.

Lemma steady_gate f features current key : steady (gate f features current key).
Proof. unfold gate. destruct (includes f features); [apply steady_lift | apply steady_ret]. Qed.

Lemma ensures_writeManifestJson dir projectName features :
  ensures (written (dir +:+ "/angular/src/manifest.json"))
    (writeManifestJson pkg dir projectName features).
Proof.
  unfold writeManifestJson, fs_writeJson. cbv zeta.
  apply ensures_after; [apply steady_require|]. intros current.
  do 3 (apply ensures_after; [apply steady_gate | intro]).
  apply (ensures_issue_await (written (dir +:+ "/angular/src/manifest.json"))).
  intros i. now split.
Qed.

Lemma steady_clean dir : steady (bind (cleanDir dir) (fun _ => ret tt)).
Proof. apply steady_bind; [apply steady_cleanDir | intro; apply steady_ret]. Qed.

(** What the steps of [generate] have seen complete without error when
    they return. *)
Lemma generate_steps_ensure dir projectName features :
  let steps :=
    bind (bind (git_clone (url (repository pkg)) dir) await) (fun _ =>
    bind (bind (cleanDir dir) (fun _ => ret tt)) (fun _ =>
    bind (writePackageJson pkg dir projectName) (fun _ =>
    bind (writeManifestJson pkg dir projectName features) (fun _ =>
    spinner_stop (Some ("done! created extension in: " +:+ dir)))))) in
  ensures (cloned_into (url (repository pkg)) dir) steps
  /\ ensures (written (dir +:+ "/package.json")) steps
  /\ ensures (written (dir +:+ "/angular/src/manifest.json")) steps.
Proof.
  cbv zeta.
  assert (Hstop : forall t, steady (spinner_stop t)) by (intro; apply steady_tell).
  assert (Hwm : steady (writeManifestJson pkg dir projectName features))
    by (eapply ensures_steady, ensures_writeManifestJson).
  assert (Hwp : steady (writePackageJson pkg dir projectName))
    by (eapply ensures_steady, ensures_writePackageJson).
  split; [|split].
  - apply ensures_then.
    + unfold git_clone.
      apply (ensures_issue_await (cloned_into (url (repository pkg)) dir)).
      intros i. now split.
    + intros _. apply steady_bind; [apply steady_clean | intros _].
      apply steady_bind; [exact Hwp | intros _].
      apply steady_bind; [exact Hwm | intros _; apply Hstop].
  - apply ensures_after; [apply steady_clone | intros _].
    apply ensures_after; [apply steady_clean | intros _].
    apply ensures_then; [apply ensures_writePackageJson | intros _].
    apply steady_bind; [exact Hwm | intros _; apply Hstop].
  - apply ensures_after; [apply steady_clone | intros _].
    apply ensures_after; [apply steady_clean | intros _].
    apply ensures_after; [exact Hwp | intros _].
    apply ensures_then; [apply ensures_writeManifestJson | intros _; apply Hstop].
Qed.

Lemma generate_success_after (E : Event -> Prop) projectName features (s : State) :
  let dir := process_cwd (env s) +:+ "/" +:+ projectName in
  well_formed s ->
  (forall t, ~ E (SpinnerStop t)) ->
  ensures E
    (bind (bind (git_clone (url (repository pkg)) dir) await) (fun _ =>
     bind (bind (cleanDir dir) (fun _ => ret tt)) (fun _ =>
     bind (writePackageJson pkg dir projectName) (fun _ =>
     bind (writeManifestJson pkg dir projectName features) (fun _ =>
     spinner_stop (Some ("done! created extension in: " +:+ dir))))))) ->
  forall before message,
    trace (snd (generate pkg projectName features s))
    = before ++ [SpinnerStop (Some message)] ->
    exists mid,
      before = trace s ++ SpinnerStart "creating extension..." :: mid
      /\ List.Exists E mid.
Proof.
  cbv zeta. intros Hwf HE Hens before message.
  rewrite generate_steps. cbv zeta.
  set (dir := process_cwd (env s) +:+ "/" +:+ projectName) in *.
  set (s0 := emit (SpinnerStart "creating extension...") s).
  destruct (generate_steps_close pkg dir projectName features s0) as (mid & _ & Hmid).
  destruct (Hens s0 (well_formed_emit _ s Hwf)) as (_ & r0 & Hr0 & Hex).
  match type of Hmid with match fst ?run with _ => _ end =>
    destruct run as [[[]|e|c] s1]
  end; cbn [fst snd] in *; [| |destruct Hmid as (_ & _ & Hmode); discriminate Hmode].
  - intros Hlast. rewrite Hmid in Hlast.
    replace (trace s0 ++ mid ++ [SpinnerStop (Some ("done! created extension in: " +:+ dir))])
      with ((trace s0 ++ mid)
              ++ [SpinnerStop (Some ("done! created extension in: " +:+ dir))]) in Hlast
      by now rewrite <- List.app_assoc.
    apply List.app_inj_tail in Hlast as [Hbefore _].
    exists mid. split.
    + rewrite <- Hbefore. unfold s0. cbn [emit trace]. now rewrite <- List.app_assoc.
    + rewrite Hmid in Hr0. apply List.app_inv_head in Hr0. subst r0.
      specialize (Hex tt eq_refl). apply List.Exists_app in Hex as [Hex|Hex]; [exact Hex|].
      inversion Hex as [? ? Hbad|? ? Hbad]; [now apply HE in Hbad | inversion Hbad].
  - cbn [emit trace]. intros Hlast.
    apply List.app_inj_tail in Hlast as [_ Hbad]. discriminate.
Qed.

(** X12. The success message means that the clone and both rewrites
    went through: when a run of [generate] ends by stopping the
    spinner with a message, then during that run a clone of the
    template into the project directory, a write of [package.json] and
    a write of [angular/src/manifest.json] have each completed without
    error.  Of the removals nothing of the kind holds. *)
Theorem generate_success_needs
  (projectName : string) (features : list Feature) (s : State)
  (before : list Event) (message : string) :
  let dir := process_cwd (env s) +:+ "/" +:+ projectName in
  well_formed s ->
  trace (snd (generate pkg projectName features s))
  = before ++ [SpinnerStop (Some message)] ->
  exists mid,
    before = trace s ++ SpinnerStart "creating extension..." :: mid
    /\ List.Exists (cloned_into (url (repository pkg)) dir) mid
    /\ List.Exists (written (dir +:+ "/package.json")) mid
    /\ List.Exists (written (dir +:+ "/angular/src/manifest.json")) mid.
Proof.
  cbv zeta. intros Hwf Hlast.
  destruct (generate_steps_ensure (process_cwd (env s) +:+ "/" +:+ projectName)
              projectName features) as (H1 & H2 & H3).
  destruct (generate_success_after _ projectName features s Hwf
              (fun t (H : cloned_into _ _ (SpinnerStop t)) => H) H1 _ _ Hlast)
    as (mid & Hmid & E1).
  destruct (generate_success_after _ projectName features s Hwf
              (fun t (H : written _ (SpinnerStop t)) => H) H2 _ _ Hlast)
    as (mid2 & Hmid2 & E2).
  destruct (generate_success_after _ projectName features s Hwf
              (fun t (H : written _ (SpinnerStop t)) => H) H3 _ _ Hlast)
    as (mid3 & Hmid3 & E3).
  rewrite Hmid in Hmid2, Hmid3.
  apply List.app_inv_head in Hmid2, Hmid3.
  assert (mid2 = mid) by congruence. assert (mid3 = mid) by congruence. subst mid2 mid3.
  exists mid. auto.
Qed.

(** X13. Nothing is started before the clone has completed, and a
    failed clone ends the run: when the clone completes with an error,
    [generate] logs that error and stops the spinner without a
    message, and has started no removal, loaded no file and written
    nothing. *)
Theorem generate_stops_at_failed_clone
  (projectName : string) (features : list Feature) (s : State) :
  let dir := process_cwd (env s) +:+ "/" +:+ projectName in
  let clone := Clone (url (repository pkg)) dir in
  well_formed s ->
  exists result waiting after,
    trace (snd (generate pkg projectName features s))
    = trace s ++ SpinnerStart "creating extension..."
        :: Issued (next_id s) clone :: waiting ++ after
    /\ List.In (Settled (next_id s) clone result) waiting
    /\ List.Forall completion waiting
    /\ forall e, result = Some e -> after = [LogError (Thrown e); SpinnerStop None].
Proof.
  cbv zeta. intros Hwf. rewrite generate_steps. cbv zeta.
  set (dir := process_cwd (env s) +:+ "/" +:+ projectName).
  set (s0 := emit (SpinnerStart "creating extension...") s).
  destruct (await_own_result (Clone (url (repository pkg)) dir) s0
              (well_formed_emit _ s Hwf)) as (result & rest & Htr & Hin & Hio & Hout).
  change (next_id s0) with (next_id s) in *.
  exists result, rest.
  match goal with |- context [bind ?m ?k s0] =>
    change (bind m k s0) with
      (match m s0 with
       | (Returned a, s') => k a s'
       | (Threw e, s') => (Threw e, s')
       | (Exited c, s') => (Exited c, s')
       end);
    assert (Hrest : adds (fun _ => True) (try_catch (k tt) (report (P := P))))
  end.
  { apply adds_try_catch.
    - apply adds_bind;
        [apply adds_bind; [apply adds_cleanDir; now intros | intro; now apply adds_ret]|].
      intros _. apply adds_bind; [apply adds_writePackageJson; now intros|].
      intros _. apply adds_bind; [apply adds_writeManifestJson; now intros|].
      intros _. now apply adds_tell.
    - intros e. unfold report, log_error, spinner_stop.
      apply adds_bind; [now apply adds_tell | intros _; now apply adds_tell]. }
  unfold git_clone in *.
  destruct (bind (issue (Clone (url (repository pkg)) dir)) await s0) as [o s1].
  cbn [fst snd] in Htr, Hout. subst o.
  destruct result as [e|]; cbn [outcome_of].
  - exists [LogError (Thrown e); SpinnerStop None]. cbn [snd emit trace].
    rewrite Htr. unfold s0. cbn [emit trace].
    repeat split; auto.
    + now rewrite <- !List.app_assoc.
    + intros e' He'. now inversion He'.
  - destruct (Hrest s1) as (more & Hmore & _). exists more.
    split; [|repeat split; auto; discriminate].
    transitivity (trace s1 ++ more); [exact Hmore|].
    rewrite Htr. unfold s0. cbn [emit trace]. now rewrite <- !List.app_assoc.
Qed.

(** X14. A template without a loadable [package.json]: once the clone
    has succeeded, the three removals are started and are left to
    themselves, the load throws, the error is logged and the spinner
    stopped without a message; no file is written and the manifest is
    not even loaded. *)
Theorem generate_unreadable_package
  (projectName : string) (features : list Feature) (s : State) (e : JsError) :
  let dir := process_cwd (env s) +:+ "/" +:+ projectName in
  let cloned := bind (git_clone (url (repository pkg)) dir) await
                  (emit (SpinnerStart "creating extension...") s) in
  fst cloned = Returned tt ->
  module_require (dir +:+ "/package.json") (env (snd cloned)) = inl e ->
  generate pkg projectName features s
  = (Returned tt,
     emit (SpinnerStop None)
       (emit (LogError (Thrown e))
          (emit (Required (dir +:+ "/package.json"))
             (removals_started dir (snd cloned))))).
Proof.
  cbv zeta. intros Hclone Hreq. rewrite generate_steps. cbv zeta.
  set (dir := process_cwd (env s) +:+ "/" +:+ projectName) in *.
  unfold bind at 1.
  destruct (bind (git_clone (url (repository pkg)) dir) await
              (emit (SpinnerStart "creating extension...") s)) as [o s1].
  cbn [fst snd] in *. subst o.
  unfold bind at 1. unfold bind at 1. rewrite cleanDir_run. cbn [ret].
  unfold bind at 1. unfold writePackageJson. unfold bind at 1. unfold require.
  change (env (removals_started dir s1)) with (env s1). rewrite Hreq. reflexivity.
Qed.

End GenerateOutcome.

(** ** Commands and installation *)

Section CommandRun.

Context {P : Platform}.


(** [install] once the directory change went through. *)
Lemma install_after_chdir projectName (s : State) w :
  process_chdir (process_cwd (env s) +:+ "/" +:+ projectName) (env s) = inr w ->
  install projectName s
  = match execAsync "npm ci"
            (emit (SpinnerStart "installing dependencies...") (set_env w s)) with
    | (Returned _, s') =>
        (Returned tt, emit (SpinnerStop (Some "done! installed dependencies")) s')
    | (Threw e, s') =>
        (Returned tt, emit (SpinnerStop None) (emit (LogError (Thrown e)) s'))
    | (Exited c, s') => (Exited c, s')
    end.
Proof.
  intros Hcd.
  unfold install, getProjectDir. unfold bind at 1. unfold bind at 1. unfold chdir.
  rewrite Hcd. unfold try_catch. unfold bind at 1. unfold spinner_start at 1, tell at 1.
  unfold bind at 1.
  destruct (execAsync "npm ci" _) as [[[]|e|c] s']; reflexivity.
Qed.


(** X17. [install] does not change the directory back.  On a platform
    where [process.chdir] makes its argument the working directory and
    no operation moves the process, a run of [install] that got past
    the directory change ends inside the project directory, the
    command having failed or not; a project of the same name would then
    be looked for one level further down. *)
Theorem install_stays_in_project (projectName : string) (s : State) (w : world) :
  let dir := process_cwd (env s) +:+ "/" +:+ projectName in
  (forall op w', process_cwd (snd (io_complete op w')) = process_cwd w') ->
  process_chdir dir (env s) = inr w ->
  process_cwd w = dir ->
  process_cwd (env (snd (install projectName s))) = dir
  /\ fst (getProjectDir projectName (snd (install projectName s)))
     = Returned (dir +:+ "/" +:+ projectName).
Proof.
  cbv zeta. intros Hio Hcd Hcwd.
  set (dir := process_cwd (env s) +:+ "/" +:+ projectName) in *.
  assert (Hsettle : forall i (t : State), process_cwd (env (settle i t)) = process_cwd (env t)).
  { intros i t. unfold settle. destruct (find_op i (pending t)) as [op|]; [|reflexivity].
    specialize (Hio op (env t)). now destruct (io_complete op (env t)). }
  assert (Hforce : forall ids (t : State),
             process_cwd (env (snd (force ids t))) = process_cwd (env t)).
  { induction ids as [|i ids IH]; intros t; cbn [force]; [reflexivity|].
    destruct (first_rejection [i] (settled (settle i t))); cbn [snd];
      [apply Hsettle | rewrite IH; apply Hsettle]. }
  assert (Hdrive : forall ids turn (t : State),
             process_cwd (env (snd (drive ids turn t))) = process_cwd (env t)).
  { intros ids turn. induction turn as [|j turn IH]; intros t; cbn [drive];
      (destruct (first_rejection ids (settled t)); [reflexivity|]);
      (destruct (forallb _ ids); [reflexivity|]).
    - apply Hforce.
    - rewrite unhandled_warn, IH. apply Hsettle. }
  assert (Hwait : forall ids (t : State),
             process_cwd (env (snd (wait_all ids t))) = process_cwd (env t)).
  { intros ids t. unfold wait_all.
    destruct (first_rejection ids (settled t)); [reflexivity|].
    destruct (forallb _ ids); [reflexivity|].
    unfold next_turn. destruct (schedule t) as [|turn later]; now rewrite Hdrive. }
  assert (Hend : process_cwd (env (snd (install projectName s))) = dir).
  { rewrite (install_after_chdir _ _ _ Hcd).
    set (s0 := emit (SpinnerStart "installing dependencies...") (set_env w s)).
    assert (Hexec : process_cwd (env (snd (execAsync "npm ci" s0))) = process_cwd w).
    { unfold execAsync, bind, issue. cbn [await].
      match goal with |- context [wait_all ?ids ?t] =>
        pose proof (Hwait ids t) as Hw; destruct (wait_all ids t) as [[[]|e|c] s1]
      end; exact Hw. }
    destruct (execAsync "npm ci" s0) as [[[]|e|c] s1]; cbn [snd env emit] in *;
      now rewrite Hexec. }
  split; [exact Hend|].
  unfold getProjectDir. cbn [fst]. now rewrite Hend.
Qed.

End CommandRun.

(** ** The rewrites wait for their write *)

Section AwaitedWrites.

Context {P : Platform}.
Variable pkg : Package.



End AwaitedWrites.

(** ** The further properties at the sample worlds *)

Lemma well_formed_start (w : MemFS.t) sched : well_formed (MemFS.start w sched).
Proof. split; intros i x []. Qed.

Lemma complete_keeps_cwd (op : IoOp) (w : MemFS.t) :
  MemFS.cwd (snd (MemFS.complete op w)) = MemFS.cwd w.
Proof.
  destruct op as [remote dir|path|path|path doc n|command]; cbn [MemFS.complete].
  - destruct (Obj.lookup remote (MemFS.remotes w)); [|reflexivity].
    destruct (MemFS.files w !! dir) as [[|c]|]; [destruct (negb _)| |]; reflexivity.
  - reflexivity.
  - destruct (MemFS.files w !! path) as [[|c]|]; reflexivity.
  - destruct (MemFS.files w !! path) as [[|c]|]; [| |destruct (MemFS.parent_is_directory _ _)];
      reflexivity.
  - reflexivity.
Qed.

(** X1 at the sample project. *)
Lemma manifest_identity_fields_witness :
  let s := MemFS.start Sample.cloned [] in
  MemFS.load "/work/my-app/angular/src/manifest.json" Sample.cloned
  = inr (JObject Sample.manifest)
  /\ JObject Sample.manifest <> JNull
  /\ exists doc,
       rewrites "/work/my-app/angular/src/manifest.json" doc
         s (snd (writeManifestJson Sample.pkg "/work/my-app" "my-app" [POPUP] s))
       /\ member "name" doc = Some (JString "my-app")
       /\ member "short_name" doc = Some (JString "my-app")
       /\ member "description" doc
          = Some (JString "Generated with angular-chrome-extension-cli").
Proof.
  cbv zeta.
  assert (Hreq : MemFS.load "/work/my-app/angular/src/manifest.json" Sample.cloned
                 = inr (JObject Sample.manifest)) by (vm_compute; reflexivity).
  assert (Hnn : JObject Sample.manifest <> JNull) by discriminate.
  split; [exact Hreq|]. split; [exact Hnn|].
  exact (manifest_identity_fields (P := MemFS.platform) Sample.pkg
           "/work/my-app" "my-app" [POPUP] (JObject Sample.manifest)
           (MemFS.start Sample.cloned []) Hreq Hnn).
Defined.

(** X2 at the sample project, with the tab feature only. *)
Lemma manifest_gating_needs_source_key_witness :
  let s := MemFS.start Sample.cloned [] in
  MemFS.load "/work/my-app/angular/src/manifest.json" Sample.cloned
  = inr (JObject Sample.manifest)
  /\ List.NoDup (Obj.keys Sample.manifest)
  /\ exists doc,
       rewrites "/work/my-app/angular/src/manifest.json" doc
         s (snd (writeManifestJson Sample.pkg "/work/my-app" "my-app" [TAB] s))
       /\ forall k f, List.In (k, f) gated ->
            (has_key k doc <-> List.In f [TAB] /\ List.In k (Obj.keys Sample.manifest)).
Proof.
  cbv zeta.
  assert (Hreq : MemFS.load "/work/my-app/angular/src/manifest.json" Sample.cloned
                 = inr (JObject Sample.manifest)) by (vm_compute; reflexivity).
  split; [exact Hreq|]. split; [exact NoDup_sample_manifest|].
  exact (manifest_gating_needs_source_key (P := MemFS.platform) Sample.pkg
           "/work/my-app" "my-app" [TAB] Sample.manifest
           (MemFS.start Sample.cloned []) Hreq NoDup_sample_manifest).
Defined.

(** X3 with a selection given twice over. *)
Lemma manifest_depends_on_feature_set_witness :
  let s := MemFS.start Sample.cloned [] in
  (forall f, List.In f [POPUP; TAB] <-> List.In f [TAB; POPUP; TAB])
  /\ writeManifestJson Sample.pkg "/work/my-app" "my-app" [POPUP; TAB] s
     = writeManifestJson Sample.pkg "/work/my-app" "my-app" [TAB; POPUP; TAB] s.
Proof.
  cbv zeta.
  assert (Hsame : forall f, List.In f [POPUP; TAB] <-> List.In f [TAB; POPUP; TAB])
    by (intros f; simpl; tauto).
  split; [exact Hsame|].
  exact (manifest_depends_on_feature_set (P := MemFS.platform) Sample.pkg
           "/work/my-app" "my-app" [POPUP; TAB] [TAB; POPUP; TAB]
           (MemFS.start Sample.cloned []) Hsame).
Defined.

(** X4 on a manifest that is [null]. *)
Lemma manifest_null_throws_witness :
  let s := MemFS.start Sample.null_manifest [] in
  MemFS.load "/work/my-app/angular/src/manifest.json" Sample.null_manifest = inr JNull
  /\ List.In POPUP [POPUP]
  /\ exists e,
       writeManifestJson Sample.pkg "/work/my-app" "my-app" [POPUP] s
       = (Threw e, emit (Required "/work/my-app/angular/src/manifest.json") s)
       /\ err_name e = "TypeError".
Proof.
  cbv zeta.
  assert (Hreq : MemFS.load "/work/my-app/angular/src/manifest.json" Sample.null_manifest
                 = inr JNull) by (vm_compute; reflexivity).
  assert (Hin : List.In POPUP [POPUP]) by now left.
  split; [exact Hreq|]. split; [exact Hin|].
  exact (manifest_null_throws (P := MemFS.platform) Sample.pkg
           "/work/my-app" "my-app" [POPUP] POPUP
           (MemFS.start Sample.null_manifest []) Hreq Hin).
Defined.

(** X5 at the sample project, with the tab feature only. *)
Lemma manifest_key_order_witness :
  let s := MemFS.start Sample.cloned [] in
  MemFS.load "/work/my-app/angular/src/manifest.json" Sample.cloned
  = inr (JObject Sample.manifest)
  /\ List.NoDup (Obj.keys Sample.manifest)
  /\ exists doc,
       rewrites "/work/my-app/angular/src/manifest.json" doc
         s (snd (writeManifestJson Sample.pkg "/work/my-app" "my-app" [TAB] s))
       /\ keys_of doc
          = ["manifest_version"; "chrome_url_overrides"; "foo";
             "name"; "short_name"; "description"].
Proof.
  cbv zeta.
  assert (Hreq : MemFS.load "/work/my-app/angular/src/manifest.json" Sample.cloned
                 = inr (JObject Sample.manifest)) by (vm_compute; reflexivity).
  split; [exact Hreq|]. split; [exact NoDup_sample_manifest|].
  exact (manifest_key_order (P := MemFS.platform) Sample.pkg
           "/work/my-app" "my-app" [TAB] Sample.manifest
           (MemFS.start Sample.cloned []) Hreq NoDup_sample_manifest).
Defined.

(** X6 at a project that was generated with the popup feature. *)
Lemma manifest_rewrite_idempotent_witness :
  let s := MemFS.start Sample.regenerated [] in
  List.NoDup (Obj.keys Sample.manifest)
  /\ MemFS.load "/work/my-app/angular/src/manifest.json" Sample.regenerated
     = inr (Obj.document (merged_manifest Sample.pkg "my-app" [POPUP] Sample.manifest))
  /\ rewrites "/work/my-app/angular/src/manifest.json"
       (Obj.document (merged_manifest Sample.pkg "my-app" [POPUP] Sample.manifest))
       s (snd (writeManifestJson Sample.pkg "/work/my-app" "my-app" [POPUP] s)).
Proof.
  cbv zeta.
  assert (Hreq : MemFS.load "/work/my-app/angular/src/manifest.json" Sample.regenerated
                 = inr (Obj.document
                          (merged_manifest Sample.pkg "my-app" [POPUP] Sample.manifest)))
    by (vm_compute; reflexivity).
  split; [exact NoDup_sample_manifest|]. split; [exact Hreq|].
  exact (manifest_rewrite_idempotent (P := MemFS.platform) Sample.pkg
           "/work/my-app" "my-app" [POPUP] Sample.manifest
           (MemFS.start Sample.regenerated []) NoDup_sample_manifest Hreq).
Defined.

(** X7 at the sample project. *)
Lemma package_json_any_content_witness :
  let s := MemFS.start Sample.cloned [] in
  MemFS.load "/work/my-app/package.json" Sample.cloned = inr (JObject Sample.package)
  /\ exists doc,
       rewrites "/work/my-app/package.json" doc
         s (snd (writePackageJson Sample.pkg "/work/my-app" "my-app" s))
       /\ member "name" doc = Some (JString "my-app")
       /\ member "description" doc
          = Some (JString "Generated with angular-chrome-extension-cli")
       /\ ~ has_key "author" doc
       /\ (Obj.own_enumerable (JObject Sample.package) = [] ->
           doc = JObject [("name", JString "my-app");
                          ("description",
                           JString "Generated with angular-chrome-extension-cli")]).
Proof.
  cbv zeta.
  assert (Hreq : MemFS.load "/work/my-app/package.json" Sample.cloned
                 = inr (JObject Sample.package)) by (vm_compute; reflexivity).
  split; [exact Hreq|].
  exact (package_json_any_content (P := MemFS.platform) Sample.pkg
           "/work/my-app" "my-app" (JObject Sample.package)
           (MemFS.start Sample.cloned []) Hreq).
Defined.

(** X8 at the sample project: the author is gone, the name is
    replaced in place, the description comes last. *)
Lemma package_json_layout_witness :
  let s := MemFS.start Sample.cloned [] in
  MemFS.load "/work/my-app/package.json" Sample.cloned = inr (JObject Sample.package)
  /\ List.NoDup (Obj.keys Sample.package)
  /\ rewrites "/work/my-app/package.json"
       (JObject [("name", JString "my-app");
                 ("version", JString "1.0.0");
                 ("dependencies", JObject [("rxjs", JString "^6.5.0")]);
                 ("description", JString "Generated with angular-chrome-extension-cli")])
       s (snd (writePackageJson Sample.pkg "/work/my-app" "my-app" s)).
Proof.
  cbv zeta.
  assert (Hreq : MemFS.load "/work/my-app/package.json" Sample.cloned
                 = inr (JObject Sample.package)) by (vm_compute; reflexivity).
  split; [exact Hreq|]. split; [exact NoDup_sample_package|].
  exact (package_json_layout (P := MemFS.platform) Sample.pkg
           "/work/my-app" "my-app" Sample.package
           (MemFS.start Sample.cloned []) Hreq NoDup_sample_package).
Defined.

(** X9 at a project that was generated. *)
Lemma package_json_rewrite_idempotent_witness :
  let s := MemFS.start Sample.regenerated [] in
  MemFS.load "/work/my-app/package.json" Sample.regenerated
  = inr (Obj.document (merged_package Sample.pkg "my-app" (JObject Sample.package)))
  /\ rewrites "/work/my-app/package.json"
       (Obj.document (merged_package Sample.pkg "my-app" (JObject Sample.package)))
       s (snd (writePackageJson Sample.pkg "/work/my-app" "my-app" s)).
Proof.
  cbv zeta.
  assert (Hreq : MemFS.load "/work/my-app/package.json" Sample.regenerated
                 = inr (Obj.document
                          (merged_package Sample.pkg "my-app" (JObject Sample.package))))
    by (vm_compute; reflexivity).
  split; [exact Hreq|].
  exact (package_json_rewrite_idempotent (P := MemFS.platform) Sample.pkg
           "/work/my-app" "my-app" (JObject Sample.package)
           (MemFS.start Sample.regenerated []) Hreq).
Defined.

(** X12 at a generation in an empty working directory. *)
Lemma generate_success_needs_witness :
  let s := MemFS.start Sample.fresh [] in
  let run := snd (generate Sample.pkg "my-app" [POPUP] s) in
  let before := removelast (trace run) in
  well_formed s
  /\ trace run
     = before ++ [SpinnerStop (Some "done! created extension in: /work/my-app")]
  /\ exists mid,
       before = trace s ++ SpinnerStart "creating extension..." :: mid
       /\ List.Exists (cloned_into (url (repository Sample.pkg)) "/work/my-app") mid
       /\ List.Exists (written "/work/my-app/package.json") mid
       /\ List.Exists (written "/work/my-app/angular/src/manifest.json") mid.
Proof.
  cbv zeta.
  pose (s := MemFS.start Sample.fresh []).
  pose (run := snd (generate Sample.pkg "my-app" [POPUP] s)).
  assert (Hwf : well_formed s) by apply well_formed_start.
  assert (Hlast : trace run
                  = removelast (trace run)
                      ++ [SpinnerStop (Some "done! created extension in: /work/my-app")])
    by (vm_compute; reflexivity).
  split; [exact Hwf|]. split; [exact Hlast|].
  exact (generate_success_needs (P := MemFS.platform) Sample.pkg "my-app" [POPUP] s
           (removelast (trace run)) "done! created extension in: /work/my-app" Hwf Hlast).
Defined.

(** X13 in a working directory from which the template cannot be
    reached. *)
Lemma generate_stops_at_failed_clone_witness :
  let s := MemFS.start Sample.with_file [] in
  let clone := Clone (url (repository Sample.pkg)) "/work/my-app" in
  well_formed s
  /\ exists result waiting after,
       trace (snd (generate Sample.pkg "my-app" [POPUP] s))
       = trace s ++ SpinnerStart "creating extension..."
           :: Issued (next_id s) clone :: waiting ++ after
       /\ List.In (Settled (next_id s) clone result) waiting
       /\ List.Forall completion waiting
       /\ forall e, result = Some e -> after = [LogError (Thrown e); SpinnerStop None].
Proof.
  cbv zeta.
  assert (Hwf : well_formed (MemFS.start Sample.with_file [])) by apply well_formed_start.
  split; [exact Hwf|].
  exact (generate_stops_at_failed_clone (P := MemFS.platform) Sample.pkg "my-app" [POPUP]
           (MemFS.start Sample.with_file []) Hwf).
Defined.

(** X14 with a template that has no package.json. *)
Lemma generate_unreadable_package_witness :
  let s := MemFS.start Sample.fresh_without_package [] in
  let cloned := bind (git_clone (url (repository Sample.pkg)) "/work/my-app") await
                  (emit (SpinnerStart "creating extension...") s) in
  let e := mkError "MODULE_NOT_FOUND" "Cannot find module '/work/my-app/package.json'" in
  fst cloned = Returned tt
  /\ MemFS.load "/work/my-app/package.json" (env (snd cloned)) = inl e
  /\ generate Sample.pkg "my-app" [POPUP] s
     = (Returned tt,
        emit (SpinnerStop None)
          (emit (LogError (Thrown e))
             (emit (Required "/work/my-app/package.json")
                (removals_started "/work/my-app" (snd cloned))))).
Proof.
  cbv zeta.
  pose (s := MemFS.start Sample.fresh_without_package []).
  pose (cloned := bind (git_clone (url (repository Sample.pkg)) "/work/my-app") await
                    (emit (SpinnerStart "creating extension...") s)).
  assert (Hret : fst cloned = Returned tt) by (vm_compute; reflexivity).
  assert (Hreq : MemFS.load "/work/my-app/package.json" (env (snd cloned))
                 = inl (mkError "MODULE_NOT_FOUND"
                          "Cannot find module '/work/my-app/package.json'"))
    by (vm_compute; reflexivity).
  split; [exact Hret|]. split; [exact Hreq|].
  exact (generate_unreadable_package (P := MemFS.platform) Sample.pkg "my-app" [POPUP] s
           _ Hret Hreq).
Defined.



(** X17 in a generated project: after [install] the process is in
    [/work/my-app], and the project directory of [my-app] is taken to
    be [/work/my-app/my-app]. *)
Lemma install_stays_in_project_witness :
  let s := MemFS.start Sample.generated [] in
  let w := MemFS.mk "/work/my-app" (MemFS.files Sample.generated)
             (MemFS.remotes Sample.generated) (MemFS.failing_commands Sample.generated) in
  (forall op w', MemFS.cwd (snd (MemFS.complete op w')) = MemFS.cwd w')
  /\ MemFS.chdir "/work/my-app" Sample.generated = inr w
  /\ MemFS.cwd w = "/work/my-app"
  /\ MemFS.cwd (env (snd (install "my-app" s))) = "/work/my-app"
  /\ fst (getProjectDir "my-app" (snd (install "my-app" s)))
     = Returned "/work/my-app/my-app".
Proof.
  cbv zeta.
  pose (w := MemFS.mk "/work/my-app" (MemFS.files Sample.generated)
               (MemFS.remotes Sample.generated) (MemFS.failing_commands Sample.generated)).
  assert (Hcd : MemFS.chdir "/work/my-app" Sample.generated = inr w)
    by (vm_compute; reflexivity).
  split; [exact complete_keeps_cwd|]. split; [exact Hcd|]. split; [reflexivity|].
  exact (install_stays_in_project (P := MemFS.platform) "my-app"
           (MemFS.start Sample.generated []) w complete_keeps_cwd Hcd eq_refl).
Defined.


